(** * erasure: a 2-of-3 erasure code (Encode / Decode / validate)

    Shallow embedding of [erasure.go] (the Adler-32, 64-bit length version,
    the first document of the source file).

    - a byte is a [Byte.byte]; a [uint8], [uint32], [uint64] or [int] value is
      a [Z], with the wrap-around of unsigned arithmetic written out;
    - a Go slice is a view [(arr, off, len)] on a backing array: [arr] holds
      the array up to the capacity of the slice, [off] is where the
      view starts; re-slicing keeps the array and is checked against the
      capacity, indexing is checked against the length, as in Go;
    - a run-time panic (slice bounds, index out of range) is the outcome
      [Panics];
    - [Decode] receives three slices over three separate backing arrays and
      returns, next to its three results, the backing arrays as the call
      leaves them ([append] writes in place when the capacity allows).

    The file has five parts: the program (with, in module [V1], the
    first version of the package, the second document of the source
    file), the vocabulary of the statements, the lemmas, the properties
    of the specification (C1 to C10), and further properties of the
    code. *)

From Stdlib Require Import ZArith List Lia Bool Permutation.
From coqutil Require Import Byte Word.LittleEndianList Datatypes.ZList.
From coqutil Require Import Z.bitblast.
Import ListNotations.
Local Open Scope Z_scope.

(** ** Outcomes of a call: a value or a run-time panic *)

Inductive exec (A : Type) : Type :=
| Panics : exec A
| Returns : A -> exec A.
Arguments Panics {A}.
Arguments Returns {A} _.

Definition bind {A B : Type} (c : exec A) (k : A -> exec B) : exec B :=
  match c with
  | Panics => Panics
  | Returns a => k a
  end.

Notation "x <- c ;; k" := (bind c (fun x => k))
  (at level 100, c at next level, right associativity).
Notation "' p <- c ;; k" := (bind c (fun p => k))
  (at level 100, p pattern, c at next level, right associativity).

(** ** Fixed-width integers *)

Definition wrap32 (z : Z) : Z := z mod 2 ^ 32.
Definition wrap64 (z : Z) : Z := z mod 2 ^ 64.

(** The largest value of Go's [int] on a 64-bit platform; [len] of a slice
    never exceeds it. *)
Definition max_int : Z := 2 ^ 63 - 1.

(** ** Slices *)

Abbreviation zlen l := (Z.of_nat (length l)) (only parsing).

Record slice : Type := mkSlice {
  arr : list byte;   (* the backing array *)
  off : Z;           (* index in [arr] of the first element of the view *)
  len : Z            (* number of elements of the view *)
}.

Definition cap (s : slice) : Z := zlen (arr s) - off s.

(** The elements a slice shows. *)
Definition bytes (s : slice) : list byte :=
  List.upto (len s) (List.from (off s) (arr s)).

(** A slice that owns its whole array, with capacity equal to its length:
    what [make([]byte, n)] and a conversion from a string give. *)
Definition of_bytes (l : list byte) : slice :=
  {| arr := l; off := 0; len := zlen l |}.

(** The nil slice: length and capacity 0. *)
Definition nil_slice : slice := of_bytes [].

(** [make([]byte, n)]: [n] zero bytes; a negative length panics. *)
Definition make (n : Z) : exec slice :=
  if n <? 0 then Panics else Returns (of_bytes (List.repeatz Byte.x00 n)).

(** [s[lo:hi]]: the bounds are checked against the capacity. *)
Definition reslice (s : slice) (lo hi : Z) : exec slice :=
  if (0 <=? lo) && (lo <=? hi) && (hi <=? cap s)
  then Returns {| arr := arr s; off := off s + lo; len := hi - lo |}
  else Panics.

(** [s[i]]: the index is checked against the length. *)
Definition index (s : slice) (i : Z) : exec byte :=
  if (0 <=? i) && (i <? len s)
  then Returns (nth (Z.to_nat (off s + i)) (arr s) Byte.x00)
  else Panics.

(** Overwriting the elements of a list from position [i] on with [src]
    (the caller has checked that they fit). *)
Definition store (l : list byte) (i : Z) (src : list byte) : list byte :=
  List.upto i l ++ src ++ List.from (i + zlen src) l.

(** Writing new contents through a slice: the view keeps its place, the
    backing array changes under it. *)
Definition fill (s : slice) (new : list byte) : slice :=
  {| arr := store (arr s) (off s) new; off := off s; len := len s |}.

(** A slice that shares its backing array with [s'] sees what was written
    through [s']. *)
Definition sees (s s' : slice) : slice :=
  {| arr := arr s'; off := off s; len := len s |}.

(** [copy(dst, src)]: copies [min(len(dst), len(src))] elements; the
    result is the new contents of [dst]. *)
Definition copy (dst src : list byte) : list byte :=
  let n := Z.min (zlen dst) (zlen src) in
  List.upto n src ++ List.from n dst.

(** [append(s, src...)]: when the capacity of [s] has room for [src] the
    elements are written into the backing array of [s], right after its
    last element, and the result shares that array; otherwise a new array
    is allocated and the array of [s] is left alone. *)
Definition fits (s : slice) (src : list byte) : bool :=
  len s + zlen src <=? cap s.

Definition append (s : slice) (src : list byte) : slice :=
  if fits s src
  then {| arr := store (arr s) (off s + len s) src;
          off := off s; len := len s + zlen src |}
  else of_bytes (bytes s ++ src).

(** The backing array of [s] once [append(s, src...)] has run. *)
Definition after_append (s : slice) (src : list byte) : list byte :=
  if fits s src then arr (append s src) else arr s.

(** ** Checksum

    [chcksum] calls [hash/adler32.Checksum] of the Go standard library,
    which computes the Adler-32 checksum of RFC 1950: two sums modulo
    65521, [a] starting at 1 and [b] at 0, combined as [b << 16 | a]. *)

Definition adler_mod : Z := 65521.

Definition adler_step (st : Z * Z) (x : byte) : Z * Z :=
  let a := (fst st + byte.unsigned x) mod adler_mod in
  (a, (snd st + a) mod adler_mod).

Definition adler32 (data : list byte) : Z :=
  let st := fold_left adler_step data (1, 0) in
  Z.lor (Z.shiftl (snd st) 16) (fst st).

Definition chcksum (data : list byte) : Z := adler32 data.

(** ** Big-endian integer fields

    The four functions work on the contents of the slice they are given.
    Every call passes a slice cut to the width of the field ([a[1:9]],
    [a[blocklen-4:]], [block[l-4 : l]], [block[1:9]]), so no index of
    theirs is out of range. A byte shifted left by at most 24 (56) bits
    fits 32 (64) bits: the wrap-around written at each step changes
    nothing. *)

(** [dst[i] = v] on the contents of [dst]. *)
Definition set_byte (dst : list byte) (i : Z) (v : byte) : list byte :=
  store dst i [v].

Definition get_byte (b : list byte) (i : Z) : Z :=
  byte.unsigned (nth (Z.to_nat i) b Byte.x00).

Definition uint32b (dst : list byte) (u : Z) : list byte :=
  let dst := set_byte dst 3 (byte.of_Z (Z.shiftr (Z.land u 0x000000FF) 0)) in
  let dst := set_byte dst 2 (byte.of_Z (Z.shiftr (Z.land u 0x0000FF00) 8)) in
  let dst := set_byte dst 1 (byte.of_Z (Z.shiftr (Z.land u 0x00FF0000) 16)) in
  let dst := set_byte dst 0 (byte.of_Z (Z.shiftr (Z.land u 0xFF000000) 24)) in
  dst.

Definition buint32 (b : list byte) : Z :=
  let u := 0 in
  let u := Z.lor u (wrap32 (Z.shiftl (get_byte b 3) 0)) in
  let u := Z.lor u (wrap32 (Z.shiftl (get_byte b 2) 8)) in
  let u := Z.lor u (wrap32 (Z.shiftl (get_byte b 1) 16)) in
  let u := Z.lor u (wrap32 (Z.shiftl (get_byte b 0) 24)) in
  u.

Definition uint64b (dst : list byte) (u : Z) : list byte :=
  let dst := set_byte dst 7 (byte.of_Z (Z.shiftr (Z.land u 0x00000000000000FF) 0)) in
  let dst := set_byte dst 6 (byte.of_Z (Z.shiftr (Z.land u 0x000000000000FF00) 8)) in
  let dst := set_byte dst 5 (byte.of_Z (Z.shiftr (Z.land u 0x0000000000FF0000) 16)) in
  let dst := set_byte dst 4 (byte.of_Z (Z.shiftr (Z.land u 0x00000000FF000000) 24)) in
  let dst := set_byte dst 3 (byte.of_Z (Z.shiftr (Z.land u 0x000000FF00000000) 32)) in
  let dst := set_byte dst 2 (byte.of_Z (Z.shiftr (Z.land u 0x0000FF0000000000) 40)) in
  let dst := set_byte dst 1 (byte.of_Z (Z.shiftr (Z.land u 0x00FF000000000000) 48)) in
  let dst := set_byte dst 0 (byte.of_Z (Z.shiftr (Z.land u 0xFF00000000000000) 56)) in
  dst.

Definition buint64 (b : list byte) : Z :=
  let u := 0 in
  let u := Z.lor u (wrap64 (Z.shiftl (get_byte b 7) 0)) in
  let u := Z.lor u (wrap64 (Z.shiftl (get_byte b 6) 8)) in
  let u := Z.lor u (wrap64 (Z.shiftl (get_byte b 5) 16)) in
  let u := Z.lor u (wrap64 (Z.shiftl (get_byte b 4) 24)) in
  let u := Z.lor u (wrap64 (Z.shiftl (get_byte b 3) 32)) in
  let u := Z.lor u (wrap64 (Z.shiftl (get_byte b 2) 40)) in
  let u := Z.lor u (wrap64 (Z.shiftl (get_byte b 1) 48)) in
  let u := Z.lor u (wrap64 (Z.shiftl (get_byte b 0) 56)) in
  u.

(** ** XOR of two blocks

    [xor] is only ever called with three slices of one length (every call
    site re-slices its three arguments to the same bound); the model takes
    their contents and gives the new contents of [dst]. The first
    [len(dst) % 8] bytes are combined one by one ([xor_loop] is that
    loop), the rest as 64-bit words: [fast64bitsXor] reinterprets the
    three byte slices as slices of [uint64] and combines [len(dst) / 8]
    words, here read and written in the byte order of the machine
    (little-endian; [xor_xor_loop] shows the result is the byte-wise XOR,
    as it is for any byte order). *)

Fixpoint xor_loop (blockA blockB : list byte) : list byte :=
  match blockA, blockB with
  | a :: blockA', b :: blockB' => byte.xor a b :: xor_loop blockA' blockB'
  | _, _ => []
  end.

Fixpoint fast64bitsXor (n : nat) (blockA blockB : list byte) : list byte :=
  match n with
  | O => []
  | S n' =>
      le_split 8 (Z.lxor (le_combine (firstn 8 blockA))
                         (le_combine (firstn 8 blockB)))
        ++ fast64bitsXor n' (skipn 8 blockA) (skipn 8 blockB)
  end.

Definition xor (dst blockA blockB : list byte) : list byte :=
  let extra := zlen dst mod 8 in
  let head := xor_loop (List.upto extra blockA) (List.upto extra blockB) in
  let dst := List.from extra dst in
  let blockA := List.from extra blockA in
  let blockB := List.from extra blockB in
  head ++ fast64bitsXor (Z.to_nat (zlen dst / 8)) blockA blockB.

(** [s[i] = v]: the index is checked against the length. *)
Definition set_index (s : slice) (i : Z) (v : byte) : exec slice :=
  if (0 <=? i) && (i <? len s)
  then Returns {| arr := store (arr s) (off s + i) [v];
                  off := off s; len := len s |}
  else Panics.

(** ** Encode *)

Inductive error : Type :=
| ErrDifferentSizes   (* "blocks are of different sizes" *)
| ErrABBad            (* "block A and B are bad, can't reconstruct" *)
| ErrAXBad            (* "block A and X are bad, can't reconstruct" *)
| ErrBXBad.           (* "block B and X are bad, can't reconstruct" *)

(** [data] is only read, at indices below its length ([alen] is half of
    it), so its contents stand for it. *)
Definition Encode (data : list byte)
  : exec (slice * slice * slice * option error) :=
  let alen := wrap64 (zlen data / 2) in
  let blen := alen in
  let blen := if negb ((zlen data / 2) mod 2 =? 0)
              then wrap64 (blen + 1) else blen in
  let blocklen := wrap64 (blen + (1 + 8 + 4)) in
  (* block A *)
  a <- make blocklen ;;
  a <- set_index a 0 (byte.of_Z 1) ;;
  d <- reslice a 1 9 ;;
  let a := sees a (fill d (uint64b (bytes d) alen)) in
  d <- reslice a 9 (wrap64 (9 + alen)) ;;
  let a := sees a (fill d (copy (bytes d) (List.upto alen data))) in
  c <- reslice a 0 (wrap64 (blocklen - 4)) ;;
  let asum := chcksum (bytes c) in
  d <- reslice a (wrap64 (blocklen - 4)) (len a) ;;
  let a := sees a (fill d (uint32b (bytes d) asum)) in
  (* block B *)
  b <- make blocklen ;;
  b <- set_index b 0 (byte.of_Z 2) ;;
  d <- reslice b 1 9 ;;
  let b := sees b (fill d (uint64b (bytes d) blen)) in
  d <- reslice b 9 (wrap64 (9 + blen)) ;;
  let b := sees b (fill d (copy (bytes d) (List.from alen data))) in
  c <- reslice b 0 (wrap64 (9 + blen)) ;;
  let bsum := chcksum (bytes c) in
  d <- reslice b (wrap64 (blocklen - 4)) (len b) ;;
  let b := sees b (fill d (uint32b (bytes d) bsum)) in
  (* block X *)
  x <- make blocklen ;;
  dx <- reslice x 0 (wrap64 (9 + blen)) ;;
  da <- reslice a 0 (wrap64 (9 + blen)) ;;
  db <- reslice b 0 (wrap64 (9 + blen)) ;;
  let x := sees x (fill dx (xor (bytes dx) (bytes da) (bytes db))) in
  c <- reslice x 0 (wrap64 (blocklen - 4)) ;;
  let xsum := chcksum (bytes c) in
  d <- reslice x (wrap64 (blocklen - 4)) (len x) ;;
  let x := sees x (fill d (uint32b (bytes d) xsum)) in
  Returns (a, b, x, None).

(** ** validate *)

Definition validate (block : slice) : exec (Z * Z * bool) :=
  let l := len block in
  e <- reslice block (l - 4) l ;;
  let expected := buint32 (bytes e) in
  c <- reslice block 0 (l - 4) ;;
  let actual := chcksum (bytes c) in
  if negb (expected =? actual) then Returns (0, 0, false)
  else
    o <- index block 0 ;;
    h <- reslice block 1 9 ;;
    Returns (byte.unsigned o, buint64 (bytes h), true).

(** ** Decode *)

(** The three arguments of [Decode]. *)
Inductive slot : Type := Slot1 | Slot2 | Slot3.

(** What [Decode] returns: [result] ([None] is nil), [broken] (nil, or
    one of the three arguments: the slice itself is handed back) and
    [err]. *)
Record ret : Type := mkRet {
  result : option (list byte);
  broken : option slot;
  err : option error
}.

(** The local variables [blockA, agood, alen], [blockB, bgood, blen] and
    [blockX, xgood]; [slotA] records which argument [blockA] is. *)
Record roles : Type := mkRoles {
  blockA : slice; slotA : option slot; agood : bool; alen : Z;
  blockB : slice; bgood : bool; blen : Z;
  blockX : slice; xgood : bool
}.

Definition no_roles : roles :=
  {| blockA := nil_slice; slotA := None; agood := false; alen := 0;
     blockB := nil_slice; bgood := false; blen := 0;
     blockX := nil_slice; xgood := false |}.

(** One [switch pos_i] of [Decode]: a block takes the role its order byte
    names; any order other than 1, 2 and 3 assigns nothing. *)
Definition assign (r : roles) (pos : Z) (s : slot) (block : slice)
    (good : bool) (l : Z) : roles :=
  match pos with
  | 1 => {| blockA := block; slotA := Some s; agood := good; alen := l;
            blockB := blockB r; bgood := bgood r; blen := blen r;
            blockX := blockX r; xgood := xgood r |}
  | 2 => {| blockA := blockA r; slotA := slotA r; agood := agood r;
            alen := alen r;
            blockB := block; bgood := good; blen := l;
            blockX := blockX r; xgood := xgood r |}
  | 3 => {| blockA := blockA r; slotA := slotA r; agood := agood r;
            alen := alen r;
            blockB := blockB r; bgood := bgood r; blen := blen r;
            blockX := block; xgood := good |}
  | _ => r
  end.

(** The backing arrays of the three arguments. *)
Definition arrays : Type := (list byte * list byte * list byte)%type.

Definition write_back (m : arrays) (s : option slot) (a : list byte)
  : arrays :=
  match s, m with
  | Some Slot1, (_, a2, a3) => (a, a2, a3)
  | Some Slot2, (a1, _, a3) => (a1, a, a3)
  | Some Slot3, (a1, a2, _) => (a1, a2, a)
  | None, _ => m
  end.

Definition fail (e : error) (m : arrays) : exec (ret * arrays) :=
  Returns ({| result := None; broken := None; err := Some e |}, m).

(** The decision table of [Decode], from "bad cases first" to the end:
    [blocklen] is [len(block1)], [broken] the block picked by the first
    [switch], [r] the roles and [m] the backing arrays of the arguments. *)
Definition reassemble (blocklen : Z) (broken : option slot) (r : roles)
    (m : arrays) : exec (ret * arrays) :=
  (* bad cases first *)
  if negb (agood r) && negb (bgood r) then fail ErrABBad m
  else if negb (agood r) && negb (xgood r) then fail ErrAXBad m
  else if negb (bgood r) && negb (xgood r) then fail ErrBXBad m
  else if agood r && bgood r && xgood r then
    (* don't need to reconstruct *)
    a <- reslice (blockA r) 9 (wrap64 (9 + alen r)) ;;
    b <- reslice (blockB r) 9 (wrap64 (9 + blen r)) ;;
    Returns ({| result := Some (bytes (append a (bytes b)));
                broken := None; err := None |},
             write_back m (slotA r) (after_append a (bytes b)))
  else if agood r && bgood r && negb (xgood r) then
    a <- reslice (blockA r) 9 (wrap64 (9 + alen r)) ;;
    b <- reslice (blockB r) 9 (wrap64 (9 + blen r)) ;;
    Returns ({| result := Some (bytes (append a (bytes b)));
                broken := broken; err := None |},
             write_back m (slotA r) (after_append a (bytes b)))
  else if bgood r && xgood r then
    (* reconstruct A from B and X *)
    a <- make (blocklen - 4) ;;
    b <- reslice (blockB r) 0 (blocklen - 4) ;;
    x <- reslice (blockX r) 0 (blocklen - 4) ;;
    let a := fill a (xor (bytes a) (bytes b) (bytes x)) in
    (* read A's len *)
    h <- reslice a 1 9 ;;
    let alen := buint64 (bytes h) in
    a' <- reslice a 9 (wrap64 (9 + alen)) ;;
    b' <- reslice b 9 (wrap64 (9 + blen r)) ;;
    Returns ({| result := Some (bytes (append a' (bytes b')));
                broken := broken; err := None |}, m)
  else
    (* last case possible, B is broken: reconstruct B from A and X *)
    b <- make (blocklen - 4) ;;
    a <- reslice (blockA r) 0 (blocklen - 4) ;;
    x <- reslice (blockX r) 0 (blocklen - 4) ;;
    let b := fill b (xor (bytes b) (bytes a) (bytes x)) in
    (* read B's len *)
    h <- reslice b 1 9 ;;
    let blen := buint64 (bytes h) in
    a' <- reslice a 9 (wrap64 (9 + alen r)) ;;
    b' <- reslice b 9 (wrap64 (9 + blen)) ;;
    Returns ({| result := Some (bytes (append a' (bytes b')));
                broken := broken; err := None |},
             write_back m (slotA r) (after_append a' (bytes b'))).

Definition Decode (block1 block2 block3 : slice) : exec (ret * arrays) :=
  let m : arrays := (arr block1, arr block2, arr block3) in
  if negb (len block1 =? len block2) && negb (len block2 =? len block3)
  then fail ErrDifferentSizes m
  else
  let blocklen := len block1 in
  '(pos1, len1, good1) <- validate block1 ;;
  '(pos2, len2, good2) <- validate block2 ;;
  '(pos3, len3, good3) <- validate block3 ;;
  let broken :=
    if good1 && good2 then Some Slot3
    else if good1 && good3 then Some Slot2
    else if good2 && good3 then Some Slot1
    else None in
  let r := no_roles in
  let r := assign r pos1 Slot1 block1 good1 len1 in
  let r := assign r pos2 Slot2 block2 good2 len2 in
  let r := assign r pos3 Slot3 block3 good3 len3 in
  reassemble blocklen broken r m.

(** [Decode] on the three blocks of [Encode], in the order given. *)
Definition roundtrip (data : list byte) : exec (ret * arrays) :=
  '(a, b, x, _) <- Encode data ;;
  Decode a b x.

(** ** Corrupting a block (erasure_test.go)

    [flipbits(b, n)] copies [b] and flips [n] bits of the copy; the bit
    positions are the first [n] elements of a random permutation of
    [0 .. 8 * len(b) - 1], so they are distinct. Here they are given. *)

Definition flipbit (cp : list byte) (toflip : Z) : list byte :=
  let Bidx := toflip / 8 in
  let bit := toflip mod 8 in
  set_byte cp Bidx
    (byte.xor (nth (Z.to_nat Bidx) cp Byte.x00) (byte.of_Z (Z.shiftl 1 bit))).

Definition flipbits (b : list byte) (bits : list Z) : list byte :=
  fold_left flipbit bits b.

(** * The first version of the package

    The second document of [erasure.go] is the package as it was first
    written: CRC-32 checksums, 32-bit length fields, no order byte (the
    blocks are told apart by their position among the arguments of
    [Decode]), a byte loop for [xor], and a [Decode] that rebuilds a
    lost block inside the buffer it was given. [uint32b] and [buint32]
    are the functions above, the errors are the four above. *)

Module V1.

(** [hash/crc32.ChecksumIEEE] of the Go standard library: the CRC-32 of
    IEEE 802.3, here bit by bit (reflected polynomial 0xEDB88320,
    initial value and final XOR 0xFFFFFFFF). *)
Definition crc_poly : Z := 0xEDB88320.

Definition crc_shift (c : Z) : Z :=
  if Z.testbit c 0 then Z.lxor (Z.shiftr c 1) crc_poly else Z.shiftr c 1.

Definition crc_update (c : Z) (x : byte) : Z :=
  Nat.iter 8 crc_shift (Z.lxor c (byte.unsigned x)).

Definition ChecksumIEEE (data : list byte) : Z :=
  Z.lxor (fold_left crc_update data 0xFFFFFFFF) 0xFFFFFFFF.

(** [xor]: the loop [for i, a := range blockA], from index [i] on;
    reading [blockB[i]] or writing [dst[i]] out of range panics. The
    result is the new contents of [dst]. *)
Fixpoint xor_from (i : Z) (rest blockB dst : list byte) : exec (list byte) :=
  match rest with
  | [] => Returns dst
  | a :: rest' =>
      if i <? zlen blockB then
        let b := nth (Z.to_nat i) blockB Byte.x00 in
        if i <? zlen dst
        then xor_from (i + 1) rest' blockB (set_byte dst i (byte.xor a b))
        else Panics
      else Panics
  end.

Definition xor (dst blockA blockB : list byte) : exec (list byte) :=
  xor_from 0 blockA blockB dst.

Definition Encode (data : list byte) : exec (slice * slice * slice) :=
  let alen := wrap32 (zlen data / 2) in
  let blen := alen in
  let blocklen := alen in
  let odd := negb ((zlen data / 2) mod 2 =? 0) in
  let blen := if odd then wrap32 (blen + 1) else blen in
  let blocklen := if odd then blen else blocklen in
  (* 4 bytes for crc32, 4 bytes for alen/blen *)
  let blocklen := wrap32 (blocklen + (4 + 4)) in
  (* block A *)
  a <- make blocklen ;;
  d <- reslice a 0 4 ;;
  let a := sees a (fill d (uint32b (bytes d) alen)) in
  d <- reslice a 4 (wrap32 (4 + alen)) ;;
  let a := sees a (fill d (copy (bytes d) (List.upto alen data))) in
  c <- reslice a 0 (wrap32 (blocklen - 4)) ;;
  let asum := ChecksumIEEE (bytes c) in
  d <- reslice a (wrap32 (blocklen - 4)) (len a) ;;
  let a := sees a (fill d (uint32b (bytes d) asum)) in
  (* block B *)
  b <- make blocklen ;;
  d <- reslice b 0 4 ;;
  let b := sees b (fill d (uint32b (bytes d) blen)) in
  d <- reslice b 4 (wrap32 (4 + blen)) ;;
  let b := sees b (fill d (copy (bytes d) (List.from alen data))) in
  c <- reslice b 0 (wrap32 (4 + blen)) ;;
  let bsum := ChecksumIEEE (bytes c) in
  d <- reslice b (wrap32 (blocklen - 4)) (len b) ;;
  let b := sees b (fill d (uint32b (bytes d) bsum)) in
  (* block X *)
  x <- make blocklen ;;
  d <- reslice x 0 4 ;;
  let x := sees x (fill d (uint32b (bytes d) blen)) in
  dx <- reslice x 0 (wrap32 (4 + blen)) ;;
  da <- reslice a 0 (wrap32 (4 + blen)) ;;
  db <- reslice b 0 (wrap32 (4 + blen)) ;;
  new <- xor (bytes dx) (bytes da) (bytes db) ;;
  let x := sees x (fill dx new) in
  c <- reslice x 0 (wrap32 (blocklen - 4)) ;;
  let xsum := ChecksumIEEE (bytes c) in
  d <- reslice x (wrap32 (blocklen - 4)) (len x) ;;
  let x := sees x (fill d (uint32b (bytes d) xsum)) in
  Returns (a, b, x).

Definition validate (block : slice) : exec (Z * bool) :=
  let l := len block in
  e <- reslice block (l - 4) l ;;
  let expected := buint32 (bytes e) in
  c <- reslice block 0 (l - 4) ;;
  let actual := ChecksumIEEE (bytes c) in
  if negb (expected =? actual) then Returns (0, false)
  else
    h <- reslice block 0 4 ;;
    Returns (buint32 (bytes h), true).

(** [Decode] returns the payload ([None] is nil) and the error, and
    here also the backing arrays of its three arguments as it leaves
    them: [xor] writes the block it rebuilds into the buffer of the bad
    block, and [append] may write into the buffer of block A. *)
Definition Decode (blockA blockB blockX : slice)
  : exec (option (list byte) * option error * arrays) :=
  let m : arrays := (arr blockA, arr blockB, arr blockX) in
  if negb (len blockA =? len blockB) && negb (len blockB =? len blockX)
  then Returns (None, Some ErrDifferentSizes, m)
  else
  let blocklen := len blockA in
  '(alen, agood) <- validate blockA ;;
  '(blen, bgood) <- validate blockB ;;
  if agood && bgood then
    (* don't need to reconstruct *)
    a <- reslice blockA 4 (wrap32 (4 + alen)) ;;
    b <- reslice blockB 4 (wrap32 (4 + blen)) ;;
    Returns (Some (bytes (append a (bytes b))), None,
             (after_append a (bytes b), arr blockB, arr blockX))
  else if negb agood && negb bgood then
    (* can't possibly reconstruct *)
    Returns (None, Some ErrABBad, m)
  else
  '(_, xgood) <- validate blockX ;;
  (* bad cases first *)
  if negb agood && negb xgood then Returns (None, Some ErrAXBad, m)
  else if negb bgood && negb xgood then Returns (None, Some ErrBXBad, m)
  else
  (* one of A or B is good *)
  a <- reslice blockA 0 (blocklen - 4) ;;
  b <- reslice blockB 0 (blocklen - 4) ;;
  x <- reslice blockX 0 (blocklen - 4) ;;
  if bgood then
    (* reconstruct A from B and X *)
    new <- xor (bytes a) (bytes b) (bytes x) ;;
    let a := fill a new in
    (* read A's len *)
    h <- reslice a 0 4 ;;
    let alen := buint32 (bytes h) in
    a' <- reslice a 4 (wrap32 (4 + alen)) ;;
    b' <- reslice b 4 (wrap32 (4 + blen)) ;;
    Returns (Some (bytes (append a' (bytes b'))), None,
             (after_append a' (bytes b'), arr blockB, arr blockX))
  else
    (* a was good: reconstruct B from A and X *)
    new <- xor (bytes b) (bytes a) (bytes x) ;;
    let b := fill b new in
    (* read B's len *)
    h <- reslice b 0 4 ;;
    let blen := buint32 (bytes h) in
    a' <- reslice a 4 (wrap32 (4 + alen)) ;;
    b' <- reslice b 4 (wrap32 (4 + blen)) ;;
    Returns (Some (bytes (append a' (bytes b'))), None,
             (after_append a' (bytes b'), arr b, arr blockX)).

End V1.

(** * Vocabulary of the statements *)

(** ** What a caller sees of a call *)

(** The three results of [Decode], without the backing arrays. *)
Definition outcome (o : exec (ret * arrays)) : exec ret :=
  match o with
  | Panics => Panics
  | Returns (r, _) => Returns r
  end.

(** The payload and the error: what does not name an argument. *)
Definition observe (o : exec (ret * arrays))
  : exec (option (list byte) * option error) :=
  match o with
  | Panics => Panics
  | Returns (r, _) => Returns (result r, err r)
  end.

(** The payload slice of a block, read the way [Decode] reads it:
    [block[9 : 9+l]] with [l] the length field [block[1:9]]. *)
Definition payload_slice (block : slice) : exec (list byte) :=
  h <- reslice block 1 9 ;;
  p <- reslice block 9 (wrap64 (9 + buint64 (bytes h))) ;;
  Returns (bytes p).

(** ** Well-formed slices and what [validate] reads *)

(** A slice of a Go program lies inside its backing array. *)
Definition wf (s : slice) : Prop :=
  0 <= off s /\ 0 <= len s /\ off s + len s <= zlen (arr s).

(** The checksum field (the last four bytes) and the checksum of the rest. *)
Definition stored_sum (s : slice) : Z :=
  buint32 (List.from (len s - 4) (bytes s)).
Definition actual_sum (s : slice) : Z :=
  chcksum (List.upto (len s - 4) (bytes s)).
Definition checksum_ok (s : slice) : bool := stored_sum s =? actual_sum s.

(** The order byte and the length field of the header, as they lie in the
    backing array. *)
Definition header_order (s : slice) : Z :=
  byte.unsigned (nth (Z.to_nat (off s)) (arr s) Byte.x00).
Definition header_length (s : slice) : Z :=
  buint64 (List.upto 8 (List.from (off s + 1) (arr s))).

(** A block passes validation when [validate] returns [true] for it. *)
Definition passes (b : slice) : bool :=
  match validate b with
  | Returns (_, _, good) => good
  | Panics => false
  end.

Definition good_count (b1 b2 b3 : slice) : nat :=
  ((if passes b1 then 1 else 0) + (if passes b2 then 1 else 0)
   + (if passes b3 then 1 else 0))%nat.

(** Long enough for [validate] to read it: the checksum field lies in the
    block and the header in its backing array. *)
Definition readable (b : slice) : Prop :=
  wf b /\ 4 <= len b /\ 9 <= cap b.

(** The three "can't reconstruct" errors. *)
Definition unrecoverable (e : error) : bool :=
  match e with
  | ErrDifferentSizes => false
  | _ => true
  end.

(** ** Roles *)

(** The order byte [validate] reports for a block (0 for a bad one). *)
Definition order_of (b : slice) : Z :=
  match validate b with
  | Returns (pos, _, _) => pos
  | Panics => 0
  end.

Definition takes_role (b : slice) : bool :=
  (order_of b =? 1) || (order_of b =? 2) || (order_of b =? 3).

(** No two of the blocks claim the same role A, B or X. *)
Definition distinct_roles (b1 b2 b3 : slice) : Prop :=
  (takes_role b1 = true -> order_of b1 <> order_of b2) /\
  (takes_role b1 = true -> order_of b1 <> order_of b3) /\
  (takes_role b2 = true -> order_of b2 <> order_of b3).

(** The roles as [Decode] assigns them, and how many of the roles A, B
    and X are held by a block that passes validation. *)
Definition roles_of (b1 b2 b3 : slice) : exec roles :=
  '(pos1, len1, good1) <- validate b1 ;;
  '(pos2, len2, good2) <- validate b2 ;;
  '(pos3, len3, good3) <- validate b3 ;;
  let r := no_roles in
  let r := assign r pos1 Slot1 b1 good1 len1 in
  let r := assign r pos2 Slot2 b2 good2 len2 in
  let r := assign r pos3 Slot3 b3 good3 len3 in
  Returns r.

Definition good_roles (b1 b2 b3 : slice) : nat :=
  match roles_of b1 b2 b3 with
  | Returns r =>
      ((if agood r then 1 else 0) + (if bgood r then 1 else 0)
       + (if xgood r then 1 else 0))%nat
  | Panics => 0%nat
  end.

Definition compatible (b1 b2 b3 : slice) : Prop :=
  len b1 = len b2 /\ len b2 = len b3 /\ distinct_roles b1 b2 b3.

(** Roles that differ at most in the bookkeeping of slots. *)
Definition same_roles (r r' : roles) : Prop :=
  blockA r = blockA r' /\ agood r = agood r' /\ alen r = alen r' /\
  blockB r = blockB r' /\ bgood r = bgood r' /\ blen r = blen r' /\
  blockX r = blockX r' /\ xgood r = xgood r'.

(** ** The blocks [Encode] builds, in closed form *)

Definition zeros (n : Z) : list byte := List.repeatz Byte.x00 n.

(** The eight bytes of a length field and the four of a checksum field. *)
Definition be64 (v : Z) : list byte := uint64b (zeros 8) v.
Definition be32 (v : Z) : list byte := uint32b (zeros 4) v.

(** [alen] and [blen] as [Encode] computes them. *)
Definition half (data : list byte) : Z := zlen data / 2.
Definition room (data : list byte) : Z :=
  if (zlen data / 2) mod 2 =? 0 then half data else half data + 1.

(** Order byte, length field and a payload area of [n] bytes that starts
    with the [l] bytes [copy] fills from [src]. *)
Definition frame (order l : Z) (src : list byte) (n : Z) : list byte :=
  [byte.of_Z order] ++ be64 l ++ copy (zeros l) src ++ zeros (n - l).

Definition seal (f : list byte) : list byte := f ++ be32 (chcksum f).

Definition frameA (data : list byte) : list byte :=
  frame 1 (half data) (List.upto (half data) data) (room data).
Definition frameB (data : list byte) : list byte :=
  frame 2 (room data) (List.from (half data) data) (room data).
Definition frameX (data : list byte) : list byte :=
  xor_loop (frameA data) (frameB data).

Definition blockA_of (data : list byte) : slice := of_bytes (seal (frameA data)).
Definition blockB_of (data : list byte) : slice := of_bytes (seal (frameB data)).
Definition blockX_of (data : list byte) : slice := of_bytes (seal (frameX data)).

(** The payload areas of block A and block B, cut at their length fields,
    and the payload they carry together. *)
Definition payloadA (data : list byte) : list byte :=
  copy (zeros (half data)) (List.upto (half data) data).
Definition payloadB (data : list byte) : list byte :=
  copy (zeros (room data)) (List.from (half data) data).
Definition carried (data : list byte) : list byte :=
  payloadA data ++ payloadB data.

(** ** Sample inputs *)

Definition ABCD : list byte := [Byte.x41; Byte.x42; Byte.x43; Byte.x44].
Definition ACCD : list byte := [Byte.x41; Byte.x43; Byte.x43; Byte.x44].

(** Bits 0 of bytes 10 and 12 and bits 0 to 3 of byte 14 of a block. *)
Definition six_bits : list Z := [80; 96; 112; 113; 114; 115].

(** The strings of [TestXOR]: "hello  " and "bonjour". *)
Definition hello : list byte :=
  [Byte.x68; Byte.x65; Byte.x6c; Byte.x6c; Byte.x6f; Byte.x20; Byte.x20].
Definition bonjour : list byte :=
  [Byte.x62; Byte.x6f; Byte.x6e; Byte.x6a; Byte.x6f; Byte.x75; Byte.x72].

(** Twelve bytes, and the backing array of block A of "ABCD" after
    [Decode] has run on the three blocks. *)
Definition ABCDEFGHIJKL : list byte :=
  [Byte.x41; Byte.x42; Byte.x43; Byte.x44; Byte.x45; Byte.x46;
   Byte.x47; Byte.x48; Byte.x49; Byte.x4a; Byte.x4b; Byte.x4c].

(** ** Corruption and what a call leaves of a buffer *)

(** The sum of the bytes, which the low half of Adler-32 follows. *)
Definition byte_sum (l : list byte) : Z :=
  fold_right (fun x s => byte.unsigned x + s) 0 l.

(** [flipbits(b, n)] as a block: a fresh buffer, the bits given flipped. *)
Definition corrupt (b : slice) (bits : list Z) : slice :=
  of_bytes (flipbits (bytes b) bits).


(** A block with order byte 1 and a matching checksum whose length field
    declares 100 bytes of payload, in a buffer of 13 bytes. *)
Definition overlong : slice :=
  of_bytes (seal ([Byte.x01] ++ be64 100)).

(** ** The blocks of the first version, in closed form *)

(** Length field and a payload area of [n] bytes that starts with the
    [l] bytes [copy] fills from [src]. *)
Definition frame1 (l : Z) (src : list byte) (n : Z) : list byte :=
  be32 l ++ copy (zeros l) src ++ zeros (n - l).

Definition seal1 (f : list byte) : list byte :=
  f ++ be32 (V1.ChecksumIEEE f).

Definition frame1A (data : list byte) : list byte :=
  frame1 (half data) (List.upto (half data) data) (room data).
Definition frame1B (data : list byte) : list byte :=
  frame1 (room data) (List.from (half data) data) (room data).
Definition frame1X (data : list byte) : list byte :=
  xor_loop (frame1A data) (frame1B data).

Definition block1A (data : list byte) : slice := of_bytes (seal1 (frame1A data)).
Definition block1B (data : list byte) : slice := of_bytes (seal1 (frame1B data)).
Definition block1X (data : list byte) : slice := of_bytes (seal1 (frame1X data)).

(** The digits "123456789", the usual check input of a CRC. *)
Definition digits : list byte :=
  [Byte.x31; Byte.x32; Byte.x33; Byte.x34; Byte.x35; Byte.x36; Byte.x37;
   Byte.x38; Byte.x39].

(** * Lemmas *)

(** ** Big-endian fields *)

Lemma field_byte (u k : Z) :
  0 <= k ->
  Z.shiftr (Z.land u (Z.shiftl (Z.ones 8) k)) k = Z.land (Z.shiftr u k) (Z.ones 8).
Proof.
  intros Hk. rewrite Z.shiftr_land, Z.shiftr_shiftl_l by lia.
  rewrite Z.sub_diag, Z.shiftl_0_r. reflexivity.
Qed.

Lemma uint32b_4 (b0 b1 b2 b3 : byte) (u : Z) :
  uint32b [b0; b1; b2; b3] u =
  [byte.of_Z (Z.shiftr (Z.land u 0xFF000000) 24);
   byte.of_Z (Z.shiftr (Z.land u 0x00FF0000) 16);
   byte.of_Z (Z.shiftr (Z.land u 0x0000FF00) 8);
   byte.of_Z (Z.shiftr (Z.land u 0x000000FF) 0)].
Proof. reflexivity. Qed.

Lemma buint32_4 (b0 b1 b2 b3 : byte) :
  buint32 [b0; b1; b2; b3] =
  Z.lor (Z.lor (Z.lor (Z.lor 0
    (wrap32 (Z.shiftl (byte.unsigned b3) 0)))
    (wrap32 (Z.shiftl (byte.unsigned b2) 8)))
    (wrap32 (Z.shiftl (byte.unsigned b1) 16)))
    (wrap32 (Z.shiftl (byte.unsigned b0) 24)).
Proof. reflexivity. Qed.

Ltac mask_ones :=
  change 0xFF000000 with (Z.shiftl (Z.ones 8) 24);
  change 0x00FF0000 with (Z.shiftl (Z.ones 8) 16);
  change 0x0000FF00 with (Z.shiftl (Z.ones 8) 8);
  change 0x000000FF with (Z.shiftl (Z.ones 8) 0).

Lemma buint32_uint32b (dst : list byte) (u : Z) :
  length dst = 4%nat -> 0 <= u < 2 ^ 32 -> buint32 (uint32b dst u) = u.
Proof.
  intros Hl Hu.
  destruct dst as [|b0 [|b1 [|b2 [|b3 [|? ?]]]]]; try discriminate. clear Hl.
  rewrite uint32b_4, buint32_4, !byte.unsigned_of_Z.
  unfold byte.wrap, wrap32.
  rewrite <- (Z.mod_small u (2 ^ 32)) at 5 by exact Hu.
  mask_ones.
  rewrite !field_byte by lia.
  rewrite <- !Z.land_ones by lia.
  Z.bitblast.
Qed.

Lemma uint64b_8 (b0 b1 b2 b3 b4 b5 b6 b7 : byte) (u : Z) :
  uint64b [b0; b1; b2; b3; b4; b5; b6; b7] u =
  [byte.of_Z (Z.shiftr (Z.land u 0xFF00000000000000) 56);
   byte.of_Z (Z.shiftr (Z.land u 0x00FF000000000000) 48);
   byte.of_Z (Z.shiftr (Z.land u 0x0000FF0000000000) 40);
   byte.of_Z (Z.shiftr (Z.land u 0x000000FF00000000) 32);
   byte.of_Z (Z.shiftr (Z.land u 0x00000000FF000000) 24);
   byte.of_Z (Z.shiftr (Z.land u 0x0000000000FF0000) 16);
   byte.of_Z (Z.shiftr (Z.land u 0x000000000000FF00) 8);
   byte.of_Z (Z.shiftr (Z.land u 0x00000000000000FF) 0)].
Proof. reflexivity. Qed.

Lemma buint64_8 (b0 b1 b2 b3 b4 b5 b6 b7 : byte) :
  buint64 [b0; b1; b2; b3; b4; b5; b6; b7] =
  Z.lor (Z.lor (Z.lor (Z.lor (Z.lor (Z.lor (Z.lor (Z.lor 0
    (wrap64 (Z.shiftl (byte.unsigned b7) 0)))
    (wrap64 (Z.shiftl (byte.unsigned b6) 8)))
    (wrap64 (Z.shiftl (byte.unsigned b5) 16)))
    (wrap64 (Z.shiftl (byte.unsigned b4) 24)))
    (wrap64 (Z.shiftl (byte.unsigned b3) 32)))
    (wrap64 (Z.shiftl (byte.unsigned b2) 40)))
    (wrap64 (Z.shiftl (byte.unsigned b1) 48)))
    (wrap64 (Z.shiftl (byte.unsigned b0) 56)).
Proof. reflexivity. Qed.

Lemma of_Z_field (u k : Z) :
  0 <= k ->
  byte.of_Z (Z.shiftr (Z.land u (Z.shiftl (Z.ones 8) k)) k) = byte.of_Z (Z.shiftr u k).
Proof.
  intros Hk. apply byte.unsigned_inj. rewrite !byte.unsigned_of_Z.
  unfold byte.wrap. rewrite field_byte by lia.
  rewrite Z.land_ones by lia. apply Z.mod_mod. lia.
Qed.

Ltac mask_ones64 :=
  change 0xFF00000000000000 with (Z.shiftl (Z.ones 8) 56);
  change 0x00FF000000000000 with (Z.shiftl (Z.ones 8) 48);
  change 0x0000FF0000000000 with (Z.shiftl (Z.ones 8) 40);
  change 0x000000FF00000000 with (Z.shiftl (Z.ones 8) 32);
  mask_ones.

Lemma uint64b_le_split (dst : list byte) (u : Z) :
  length dst = 8%nat -> uint64b dst u = rev (le_split 8 u).
Proof.
  intros Hl.
  do 8 (destruct dst as [|? dst]; try discriminate).
  destruct dst; try discriminate. clear Hl.
  rewrite uint64b_8. mask_ones64. rewrite !of_Z_field by lia.
  unfold le_split. cbn [rev app]. rewrite !Z.shiftr_shiftr by lia.
  rewrite Z.shiftr_0_r. reflexivity.
Qed.

Lemma shiftl_byte_small (b : byte) (k : Z) :
  0 <= k <= 56 -> wrap64 (Z.shiftl (byte.unsigned b) k) = Z.shiftl (byte.unsigned b) k.
Proof.
  intros Hk. unfold wrap64. apply Z.mod_small.
  pose proof (byte.unsigned_range b) as Hb.
  rewrite Z.shiftl_mul_pow2 by lia. split; [nia|].
  apply Z.lt_le_trans with (2 ^ 8 * 2 ^ k); [nia|].
  rewrite <- Z.pow_add_r by lia. apply Z.pow_le_mono_r; lia.
Qed.

Lemma buint64_le_combine (b : list byte) :
  length b = 8%nat -> buint64 b = le_combine (rev b).
Proof.
  intros Hl.
  do 8 (destruct b as [|? b]; try discriminate).
  destruct b; try discriminate. clear Hl.
  rewrite buint64_8. rewrite !shiftl_byte_small by lia.
  cbn [rev app]. unfold le_combine.
  rewrite !Z.shiftl_lor, !Z.shiftl_shiftl, !Z.shiftl_0_l, Z.shiftl_0_r by lia.
  rewrite Z.lor_0_l, !Z.lor_0_r. cbn [Z.add Pos.add Pos.succ].
  rewrite <- !Z.lor_assoc. reflexivity.
Qed.

Lemma buint64_uint64b (dst : list byte) (u : Z) :
  length dst = 8%nat -> 0 <= u < 2 ^ 64 -> buint64 (uint64b dst u) = u.
Proof.
  intros Hl Hu.
  rewrite uint64b_le_split by exact Hl.
  rewrite buint64_le_combine by (rewrite length_rev; apply length_le_split).
  rewrite rev_involutive, le_combine_split. apply Z.mod_small. exact Hu.
Qed.

(** ** Adler-32 *)

Lemma adler_fold_range (data : list byte) (st : Z * Z) :
  0 <= fst st < adler_mod -> 0 <= snd st < adler_mod ->
  0 <= fst (fold_left adler_step data st) < adler_mod /\
  0 <= snd (fold_left adler_step data st) < adler_mod.
Proof.
  revert st. induction data as [|x data IH]; intros st Ha Hb; [easy|].
  cbn [fold_left]. apply IH; unfold adler_step; cbn [fst snd];
    apply Z.mod_pos_bound; reflexivity.
Qed.

Lemma lor_lt_pow2 (a b n : Z) :
  0 <= n -> 0 <= a < 2 ^ n -> 0 <= b < 2 ^ n -> 0 <= Z.lor a b < 2 ^ n.
Proof.
  intros Hn Ha Hb. split; [apply Z.lor_nonneg; lia|].
  destruct (Z.eq_dec a 0) as [->|Ha0]; [rewrite Z.lor_0_l; lia|].
  destruct (Z.eq_dec b 0) as [->|Hb0]; [rewrite Z.lor_0_r; lia|].
  apply Z.log2_lt_pow2; [|rewrite Z.log2_lor by lia; apply Z.max_lub_lt;
                           apply Z.log2_lt_pow2; lia].
  assert (0 <= Z.lor a b) by (apply Z.lor_nonneg; lia).
  assert (Z.lor a b <> 0) by (rewrite Z.lor_eq_0_iff; lia). lia.
Qed.

Lemma chcksum_range (data : list byte) : 0 <= chcksum data < 2 ^ 32.
Proof.
  unfold chcksum, adler32.
  destruct (adler_fold_range data (1, 0)) as [Ha Hb];
    [cbn; unfold adler_mod; lia .. |].
  unfold adler_mod in *.
  apply (lor_lt_pow2 _ _ 32); [lia| |lia].
  rewrite Z.shiftl_mul_pow2 by lia. lia.
Qed.

Lemma adler_fold_zeros (n : nat) (b : Z) :
  fst (fold_left adler_step (repeat Byte.x00 n) (1, b)) = 1.
Proof.
  revert b. induction n as [|n IH]; intros b; [reflexivity|].
  cbn [repeat fold_left]. unfold adler_step at 2. cbn [fst snd].
  change ((1 + byte.unsigned Byte.x00) mod adler_mod) with 1. apply IH.
Qed.

Lemma chcksum_zeros_nonzero (n : nat) : chcksum (repeat Byte.x00 n) <> 0.
Proof.
  unfold chcksum, adler32. cbv zeta. rewrite adler_fold_zeros.
  rewrite Z.lor_eq_0_iff. lia.
Qed.

(** ** XOR: the word loop computes the byte-wise XOR *)

Lemma byte_xor_unsigned (a b : byte) :
  byte.unsigned (byte.xor a b) = Z.lxor (byte.unsigned a) (byte.unsigned b).
Proof.
  unfold byte.xor. rewrite byte.unsigned_of_Z. unfold byte.wrap.
  pose proof (byte.unsigned_range a) as Ha.
  pose proof (byte.unsigned_range b) as Hb.
  apply Z.mod_small. split; [apply Z.lxor_nonneg; lia|].
  destruct (Z.eq_dec (Z.lxor (byte.unsigned a) (byte.unsigned b)) 0) as [->|Hne];
    [lia|].
  assert (0 <= Z.lxor (byte.unsigned a) (byte.unsigned b))
    by (apply Z.lxor_nonneg; lia).
  apply Z.log2_lt_pow2; [lia|].
  eapply Z.le_lt_trans; [apply Z.log2_lxor; lia|].
  apply Z.max_lub_lt.
  - destruct (Z.eq_dec (byte.unsigned a) 0) as [->|]; [cbn; lia|].
    apply Z.log2_lt_pow2; lia.
  - destruct (Z.eq_dec (byte.unsigned b) 0) as [->|]; [cbn; lia|].
    apply Z.log2_lt_pow2; lia.
Qed.

Lemma byte_xor_cancel_l (a b : byte) : byte.xor a (byte.xor a b) = b.
Proof.
  apply byte.unsigned_inj. rewrite !byte_xor_unsigned.
  rewrite <- Z.lxor_assoc, Z.lxor_nilpotent, Z.lxor_0_l. reflexivity.
Qed.

Lemma byte_xor_comm (a b : byte) : byte.xor a b = byte.xor b a.
Proof.
  apply byte.unsigned_inj. rewrite !byte_xor_unsigned. apply Z.lxor_comm.
Qed.

Lemma xor_loop_length (a b : list byte) :
  length a = length b -> length (xor_loop a b) = length a.
Proof.
  revert b. induction a as [|x a IH]; intros [|y b] H; try discriminate;
    [reflexivity|].
  cbn. f_equal. apply IH. now injection H.
Qed.

Lemma xor_loop_cancel_l (a b : list byte) :
  length a = length b -> xor_loop a (xor_loop a b) = b.
Proof.
  revert b. induction a as [|x a IH]; intros [|y b] H; try discriminate;
    [reflexivity|].
  cbn. rewrite byte_xor_cancel_l. f_equal. apply IH. now injection H.
Qed.

Lemma xor_loop_comm (a b : list byte) : xor_loop a b = xor_loop b a.
Proof.
  revert b. induction a as [|x a IH]; intros [|y b]; try reflexivity.
  cbn. rewrite byte_xor_comm. f_equal. apply IH.
Qed.

Lemma xor_loop_app (a1 a2 b1 b2 : list byte) :
  length a1 = length b1 ->
  xor_loop (a1 ++ a2) (b1 ++ b2) = xor_loop a1 b1 ++ xor_loop a2 b2.
Proof.
  revert b1. induction a1 as [|x a1 IH]; intros [|y b1] H; try discriminate;
    [reflexivity|].
  cbn. f_equal. apply IH. now injection H.
Qed.

Lemma le_split_S (n : nat) (w : Z) :
  le_split (S n) w = byte.of_Z w :: le_split n (Z.shiftr w 8).
Proof. reflexivity. Qed.

Lemma le_combine_cons (x : byte) (l : list byte) :
  le_combine (x :: l) = Z.lor (byte.unsigned x) (Z.shiftl (le_combine l) 8).
Proof. reflexivity. Qed.

(** A 64-bit word XOR is the XOR of its bytes. *)
Lemma le_xor (a b : list byte) :
  length a = length b ->
  le_split (length a) (Z.lxor (le_combine a) (le_combine b)) = xor_loop a b.
Proof.
  revert b. induction a as [|x a IH]; intros [|y b] H; try discriminate;
    [reflexivity|].
  injection H as H. cbn [length xor_loop].
  rewrite le_split_S, !le_combine_cons. f_equal.
  - apply byte.unsigned_inj. rewrite byte_xor_unsigned, byte.unsigned_of_Z.
    unfold byte.wrap.
    rewrite <- (byte.wrap_unsigned x), <- (byte.wrap_unsigned y).
    unfold byte.wrap. rewrite <- !Z.land_ones by lia. Z.bitblast.
    subst. rewrite !(Z.testbit_neg_r _ (i - 8)) by lia. Z.bitblast_core.
  - rewrite <- IH by exact H. f_equal.
    rewrite <- (byte.wrap_unsigned x), <- (byte.wrap_unsigned y).
    unfold byte.wrap. rewrite <- !Z.land_ones by lia. Z.bitblast.
Qed.

Lemma fast64bitsXor_loop (n : nat) (a b : list byte) :
  length a = (8 * n)%nat -> length b = (8 * n)%nat ->
  fast64bitsXor n a b = xor_loop a b.
Proof.
  revert a b. induction n as [|n IH]; intros a b Ha Hb.
  - destruct a; [reflexivity|discriminate].
  - cbn [fast64bitsXor].
    rewrite <- (firstn_skipn 8 a) at 3. rewrite <- (firstn_skipn 8 b) at 3.
    assert (Hfa : length (firstn 8 a) = 8%nat) by (rewrite length_firstn; lia).
    assert (Hfb : length (firstn 8 b) = 8%nat) by (rewrite length_firstn; lia).
    rewrite xor_loop_app by congruence.
    rewrite IH by (rewrite length_skipn; lia). f_equal.
    rewrite <- Hfa at 1. apply le_xor. congruence.
Qed.

Lemma xor_xor_loop (dst a b : list byte) :
  length a = length dst -> length b = length dst ->
  xor dst a b = xor_loop a b.
Proof.
  intros Ha Hb. unfold xor. cbv zeta.
  set (extra := zlen dst mod 8).
  assert (He : 0 <= extra <= zlen dst).
  { subst extra. pose proof (Z.mod_pos_bound (zlen dst) 8 eq_refl).
    pose proof (Z.mod_le (zlen dst) 8). lia. }
  assert (Hq : Z.to_nat (zlen (List.from extra dst) / 8) =
               Z.to_nat (zlen dst / 8)
               /\ zlen dst = zlen dst / 8 * 8 + extra).
  { unfold List.from. rewrite length_skipn. subst extra.
    pose proof (Z.div_mod (zlen dst) 8 ltac:(lia)) as Hdm. split; [|lia].
    f_equal.
    replace (Z.of_nat (length dst - Z.to_nat (zlen dst mod 8)))
      with (zlen dst / 8 * 8) by lia.
    apply Z.div_mul. lia. }
  destruct Hq as [Hq Hd]. rewrite Hq.
  rewrite (List.split_at extra a) at 3. rewrite (List.split_at extra b) at 3.
  rewrite xor_loop_app
    by (unfold List.upto; rewrite !length_firstn; lia).
  f_equal.
  apply fast64bitsXor_loop; unfold List.from; rewrite length_skipn; lia.
Qed.

(** ** Lengths *)

Lemma zlen_app (l1 l2 : list byte) : zlen (l1 ++ l2) = zlen l1 + zlen l2.
Proof. rewrite length_app. lia. Qed.

Lemma zlen_repeatz (x : byte) (n : Z) : zlen (List.repeatz x n) = Z.max 0 n.
Proof. unfold List.repeatz. rewrite repeat_length. lia. Qed.

Lemma zlen_upto (i : Z) (l : list byte) :
  zlen (List.upto i l) = Z.min (Z.max 0 i) (zlen l).
Proof. unfold List.upto. rewrite length_firstn. lia. Qed.

Lemma zlen_from (i : Z) (l : list byte) :
  zlen (List.from i l) = zlen l - Z.min (Z.max 0 i) (zlen l).
Proof. unfold List.from. rewrite length_skipn. lia. Qed.

Lemma zlen_copy (dst src : list byte) : zlen (copy dst src) = zlen dst.
Proof. unfold copy. rewrite zlen_app, zlen_upto, zlen_from. lia. Qed.

Lemma zlen_xor_loop (a b : list byte) :
  zlen a = zlen b -> zlen (xor_loop a b) = zlen a.
Proof. intros H. rewrite xor_loop_length; lia. Qed.

Lemma length_uint64b (dst : list byte) (u : Z) :
  length dst = 8%nat -> length (uint64b dst u) = 8%nat.
Proof.
  intros H. rewrite uint64b_le_split by exact H.
  rewrite length_rev. apply length_le_split.
Qed.

Lemma length_uint32b (dst : list byte) (u : Z) :
  length dst = 4%nat -> length (uint32b dst u) = 4%nat.
Proof.
  intros Hl.
  destruct dst as [|b0 [|b1 [|b2 [|b3 [|? ?]]]]]; try discriminate.
  reflexivity.
Qed.

Lemma zlen_zeros (n : Z) : zlen (zeros n) = Z.max 0 n.
Proof. apply zlen_repeatz. Qed.

Lemma zlen_be64 (v : Z) : zlen (be64 v) = 8.
Proof. unfold be64. rewrite length_uint64b; reflexivity. Qed.

Lemma zlen_be32 (v : Z) : zlen (be32 v) = 4.
Proof. unfold be32. rewrite length_uint32b; reflexivity. Qed.

Lemma zlen_frame (order l n : Z) (src : list byte) :
  0 <= l <= n -> zlen (frame order l src n) = n + 9.
Proof.
  intros H. unfold frame.
  rewrite !zlen_app, zlen_be64, zlen_copy, !zlen_zeros. cbn [length]. lia.
Qed.

Lemma zlen_seal (f : list byte) : zlen (seal f) = zlen f + 4.
Proof. unfold seal. rewrite zlen_app, zlen_be32. reflexivity. Qed.

Lemma zeros_add (a b : Z) : 0 <= a -> 0 <= b -> zeros (a + b) = zeros a ++ zeros b.
Proof.
  intros Ha Hb. unfold zeros, List.repeatz.
  rewrite Z2Nat.inj_add by lia. apply repeat_app.
Qed.

(** ** Slices over a known array *)

Lemma make_zeros (n : Z) : 0 <= n -> make n = Returns (of_bytes (zeros n)).
Proof. intros H. unfold make. destruct (Z.ltb_spec n 0); [lia|reflexivity]. Qed.

Lemma reslice_of_bytes (l : list byte) (lo hi : Z) :
  0 <= lo <= hi -> hi <= zlen l ->
  reslice (of_bytes l) lo hi = Returns {| arr := l; off := lo; len := hi - lo |}.
Proof.
  intros H1 H2. unfold reslice, cap, of_bytes. cbn [arr off len].
  destruct (Z.leb_spec 0 lo); [|lia].
  destruct (Z.leb_spec lo hi); [|lia].
  destruct (Z.leb_spec hi (zlen l - 0)); [|lia]. reflexivity.
Qed.

Lemma upto_from_mid (pre mid post : list byte) (lo n : Z) :
  zlen pre = lo -> zlen mid = n ->
  List.upto n (List.from lo (pre ++ mid ++ post)) = mid.
Proof.
  intros Hp Hm. rewrite List.from_app_eq_r by exact Hp.
  apply List.upto_app_eq_l. exact Hm.
Qed.

Lemma bytes_mid (L pre mid post : list byte) (lo n : Z) :
  L = pre ++ mid ++ post -> zlen pre = lo -> zlen mid = n ->
  bytes {| arr := L; off := lo; len := n |} = mid.
Proof. intros -> Hp Hm. unfold bytes. cbn [arr off len]. now apply upto_from_mid. Qed.

Lemma store_mid (pre old post new : list byte) (lo : Z) :
  zlen pre = lo -> zlen old = zlen new ->
  store (pre ++ old ++ post) lo new = pre ++ new ++ post.
Proof.
  intros Hp Ho. unfold store.
  rewrite List.upto_app_eq_l by exact Hp.
  rewrite List.from_app_discard_l by lia.
  rewrite List.from_app_eq_r by lia. reflexivity.
Qed.

Lemma write_mid (L pre old post new : list byte) (lo n : Z) :
  L = pre ++ old ++ post -> zlen pre = lo -> zlen old = n -> zlen new = n ->
  sees (of_bytes L) (fill {| arr := L; off := lo; len := n |} new)
  = of_bytes (pre ++ new ++ post).
Proof.
  intros -> Hp Ho Hn. unfold sees, fill, of_bytes. cbn [arr off len].
  rewrite store_mid by lia. f_equal.
  rewrite !zlen_app. lia.
Qed.

Lemma set_index_head (x v : byte) (l : list byte) :
  set_index (of_bytes (x :: l)) 0 v = Returns (of_bytes (v :: l)).
Proof.
  unfold set_index, of_bytes. cbn [arr off len].
  destruct (Z.ltb_spec 0 (zlen (x :: l))); [|cbn [length] in *; lia].
  cbn [Z.leb Z.compare andb]. f_equal.
Qed.

(** Lengths as natural numbers, for [lia]. *)
Lemma length_zeros (n : Z) : length (zeros n) = Z.to_nat n.
Proof. apply repeat_length. Qed.

Lemma length_upto (i : Z) (l : list byte) :
  length (List.upto i l) = Nat.min (Z.to_nat i) (length l).
Proof. apply length_firstn. Qed.

Lemma length_from (i : Z) (l : list byte) :
  length (List.from i l) = (length l - Z.to_nat i)%nat.
Proof. apply length_skipn. Qed.

Lemma length_copy (dst src : list byte) : length (copy dst src) = length dst.
Proof. pose proof (zlen_copy dst src). lia. Qed.

Lemma length_be64 (v : Z) : length (be64 v) = 8%nat.
Proof. pose proof (zlen_be64 v). lia. Qed.

Lemma length_be32 (v : Z) : length (be32 v) = 4%nat.
Proof. pose proof (zlen_be32 v). lia. Qed.

Lemma length_seal (f : list byte) : length (seal f) = (length f + 4)%nat.
Proof. pose proof (zlen_seal f). lia. Qed.

Lemma length_frame (order l n : Z) (src : list byte) :
  0 <= l <= n -> length (frame order l src n) = Z.to_nat (n + 9).
Proof. intros H. pose proof (zlen_frame order l n src H). lia. Qed.

Create Rewrite HintDb len.
#[export] Hint Rewrite length_app length_zeros length_upto length_from
  length_copy length_be64 length_be32 length_seal length_rev : len.

(** ** [Encode] in closed form *)

Lemma half_room (data : list byte) :
  0 <= half data <= room data /\ room data <= half data + 1 /\ 2 * half data <= zlen data.
Proof.
  unfold room, half. pose proof (Z.div_mod (zlen data) 2 ltac:(lia)).
  pose proof (Z.mod_pos_bound (zlen data) 2 ltac:(lia)).
  destruct (_ =? 0); lia.
Qed.

Lemma wrap64_small (z : Z) : 0 <= z < 2 ^ 64 -> wrap64 z = z.
Proof. apply Z.mod_small. Qed.

Ltac flat := rewrite <- ?app_assoc; cbn [app]; rewrite ?app_nil_r; reflexivity.

Ltac lens := repeat (progress (cbn [length]; autorewrite with len)); lia.

Ltac rd L pre mid post :=
  match goal with
  | |- context [bytes {| arr := L; off := ?lo; len := ?k |}] =>
      rewrite (bytes_mid L pre mid post lo k) by (first [eassumption | flat | lens])
  end.

Ltac wr L pre old post :=
  match goal with
  | |- context [sees (of_bytes L) (fill {| arr := L; off := ?lo; len := ?k |} ?new)] =>
      rewrite (write_mid L pre old post new lo k) by (first [eassumption | flat | lens])
  end.

Lemma Encode_blocks (data : list byte) :
  zlen data <= max_int ->
  Encode data
  = Returns (blockA_of data, blockB_of data, blockX_of data, None).
Proof.
  intros Hmax. unfold max_int in Hmax.
  unfold blockA_of, blockB_of, blockX_of.
  pose proof (half_room data) as (Hh & Hr & Hd).
  assert (Hsmall : half data < 2 ^ 62) by lia.
  unfold Encode. cbv zeta.
  fold (half data).
  rewrite (wrap64_small (half data)) by lia.
  replace (if negb (half data mod 2 =? 0) then wrap64 (half data + 1) else half data)
    with (room data)
    by (unfold room; fold (half data); destruct (_ =? 0); cbn [negb];
        [reflexivity | rewrite wrap64_small by lia; reflexivity]).
  set (a := half data) in *. set (n := room data) in *.
  rewrite (wrap64_small (n + (1 + 8 + 4))) by lia.
  replace (n + (1 + 8 + 4) - 4) with (n + 9) by lia.
  rewrite (wrap64_small (9 + a)), (wrap64_small (9 + n)), (wrap64_small (n + 9)) by lia.
  rewrite make_zeros by lia. cbn [bind].
  replace (zeros (n + (1 + 8 + 4))) with (Byte.x00 :: zeros (n + 12))
    by (replace (n + (1 + 8 + 4)) with (1 + (n + 12)) by lia;
        rewrite (zeros_add 1 (n + 12)) by lia; reflexivity).
  rewrite !set_index_head. cbn [bind].
  (* block A *)
  assert (HzA : zeros (n + 12) = zeros 8 ++ zeros a ++ zeros (n - a) ++ zeros 4).
  { rewrite <- !zeros_add by lia. f_equal. lia. }
  assert (HzB : zeros (n + 12) = zeros 8 ++ zeros n ++ zeros (n - n) ++ zeros 4).
  { rewrite <- !zeros_add by lia. f_equal. lia. }
  set (LA := byte.of_Z 1 :: zeros (n + 12)).
  set (LB := byte.of_Z 2 :: zeros (n + 12)).
  set (LX := Byte.x00 :: zeros (n + 12)).
  assert (HLA : LA = [byte.of_Z 1] ++ zeros 8 ++ zeros a ++ zeros (n - a) ++ zeros 4)
    by (subst LA; rewrite HzA; reflexivity).
  assert (HLB : LB = [byte.of_Z 2] ++ zeros 8 ++ zeros n ++ zeros (n - n) ++ zeros 4)
    by (subst LB; rewrite HzB; reflexivity).
  assert (HLX : LX = [] ++ zeros (9 + n) ++ zeros 4).
  { subst LX. cbn [app]. rewrite <- zeros_add by lia.
    replace (9 + n + 4) with (1 + (n + 12)) by lia.
    rewrite (zeros_add 1 (n + 12)) by lia. reflexivity. }
  assert (HnA : length LA = Z.to_nat (n + 13)) by (rewrite HLA; lens).
  assert (HnB : length LB = Z.to_nat (n + 13)) by (rewrite HLB; lens).
  assert (HnX : length LX = Z.to_nat (n + 13)) by (rewrite HLX; lens).
  clearbody LA LB LX.
  rewrite !reslice_of_bytes by lia. cbn [bind].
  rd LA [byte.of_Z 1] (zeros 8) (zeros a ++ zeros (n - a) ++ zeros 4).
  rd LB [byte.of_Z 2] (zeros 8) (zeros n ++ zeros (n - n) ++ zeros 4).
  rd LX (@nil byte) (zeros (9 + n)) (zeros 4).
  fold (be64 a) (be64 n).
  wr LA [byte.of_Z 1] (zeros 8) (zeros a ++ zeros (n - a) ++ zeros 4).
  wr LB [byte.of_Z 2] (zeros 8) (zeros n ++ zeros (n - n) ++ zeros 4).
  clear HLA HLB HnA HnB LA LB.
  rewrite !reslice_of_bytes by lens. cbn [bind].
  set (LA := [byte.of_Z 1] ++ be64 a ++ zeros a ++ zeros (n - a) ++ zeros 4).
  set (LB := [byte.of_Z 2] ++ be64 n ++ zeros n ++ zeros (n - n) ++ zeros 4).
  rd LA ([byte.of_Z 1] ++ be64 a) (zeros a) (zeros (n - a) ++ zeros 4).
  rd LB ([byte.of_Z 2] ++ be64 n) (zeros n) (zeros (n - n) ++ zeros 4).
  wr LA ([byte.of_Z 1] ++ be64 a) (zeros a) (zeros (n - a) ++ zeros 4).
  wr LB ([byte.of_Z 2] ++ be64 n) (zeros n) (zeros (n - n) ++ zeros 4).
  clear LA LB.
  unfold frameX.
  assert (HFA : zlen (frameA data) = n + 9)
    by (apply (zlen_frame 1 a n); lia).
  assert (HFB : zlen (frameB data) = n + 9)
    by (apply (zlen_frame 2 n n); lia).
  set (FA := frameA data) in *. set (FB := frameB data) in *.
  replace (([byte.of_Z 1] ++ be64 a) ++
           copy (zeros a) (List.upto a data) ++ zeros (n - a) ++ zeros 4)
    with (FA ++ zeros 4) by (subst FA; unfold frameA, frame; fold a n; flat).
  replace (([byte.of_Z 2] ++ be64 n) ++
           copy (zeros n) (List.from a data) ++ zeros (n - n) ++ zeros 4)
    with (FB ++ zeros 4) by (subst FB; unfold frameB, frame; fold a n; flat).
  clearbody FA FB.
  rewrite !reslice_of_bytes by lens. cbn [bind len of_bytes].
  rewrite !reslice_of_bytes by lens. cbn [bind].
  rd (FA ++ zeros 4) (@nil byte) FA (zeros 4).
  rd (FB ++ zeros 4) (@nil byte) FB (zeros 4).
  rd (FA ++ zeros 4) FA (zeros 4) (@nil byte).
  rd (FB ++ zeros 4) FB (zeros 4) (@nil byte).
  fold (be32 (chcksum FA)) (be32 (chcksum FB)).
  wr (FA ++ zeros 4) FA (zeros 4) (@nil byte).
  wr (FB ++ zeros 4) FB (zeros 4) (@nil byte).
  rewrite !app_nil_r. fold (seal FA) (seal FB).
  rewrite !reslice_of_bytes by (unfold seal; lens). cbn [bind].
  rd (seal FA) (@nil byte) FA (be32 (chcksum FA)).
  rd (seal FB) (@nil byte) FB (be32 (chcksum FB)).
  rewrite xor_xor_loop by lens.
  assert (HFX : zlen (xor_loop FA FB) = n + 9)
    by (rewrite zlen_xor_loop; lia).
  set (FX := xor_loop FA FB) in *. clearbody FX.
  wr LX (@nil byte) (zeros (9 + n)) (zeros 4).
  cbn [app]. clear HLX HnX LX.
  rewrite !reslice_of_bytes by lens. cbn [bind len of_bytes].
  rewrite !reslice_of_bytes by lens. cbn [bind].
  rd (FX ++ zeros 4) (@nil byte) FX (zeros 4).
  rd (FX ++ zeros 4) FX (zeros 4) (@nil byte).
  fold (be32 (chcksum FX)).
  wr (FX ++ zeros 4) FX (zeros 4) (@nil byte).
  rewrite app_nil_r. reflexivity.
Qed.

(** ** [validate] *)

Lemma reslice_ok (s : slice) (lo hi : Z) :
  0 <= lo <= hi -> hi <= cap s ->
  reslice s lo hi = Returns {| arr := arr s; off := off s + lo; len := hi - lo |}.
Proof.
  intros H1 H2. unfold reslice.
  destruct (Z.leb_spec 0 lo); [|lia].
  destruct (Z.leb_spec lo hi); [|lia].
  destruct (Z.leb_spec hi (cap s)); [|lia]. reflexivity.
Qed.

Lemma reslice_panics (s : slice) (lo hi : Z) :
  lo < 0 \/ hi < lo \/ cap s < hi -> reslice s lo hi = Panics.
Proof.
  intros H. unfold reslice.
  destruct (Z.leb_spec 0 lo); [|reflexivity].
  destruct (Z.leb_spec lo hi); [|reflexivity].
  destruct (Z.leb_spec hi (cap s)); [lia|reflexivity].
Qed.

Lemma bytes_sub (s : slice) (lo k : Z) :
  wf s -> 0 <= lo -> 0 <= k -> lo + k <= len s ->
  bytes {| arr := arr s; off := off s + lo; len := k |}
  = List.upto k (List.from lo (bytes s)).
Proof.
  intros (Ho & Hl & Hc) Hlo Hk Hb. unfold bytes. cbn [arr off len].
  unfold List.upto, List.from.
  rewrite skipn_firstn_comm, firstn_firstn, skipn_skipn.
  f_equal; [lia|]. f_equal. lia.
Qed.

Lemma validate_short (s : slice) : len s < 4 -> validate s = Panics.
Proof.
  intros H. unfold validate. rewrite reslice_panics by lia. reflexivity.
Qed.

Lemma index_ok (s : slice) (i : Z) :
  0 <= i < len s ->
  index s i = Returns (nth (Z.to_nat (off s + i)) (arr s) Byte.x00).
Proof.
  intros H. unfold index.
  destruct (Z.leb_spec 0 i); [|lia].
  destruct (Z.ltb_spec i (len s)); [|lia]. reflexivity.
Qed.

Lemma validate_spec (s : slice) :
  wf s -> 4 <= len s ->
  validate s =
    if checksum_ok s
    then if 9 <=? cap s
         then Returns (header_order s, header_length s, true)
         else Panics
    else Returns (0, 0, false).
Proof.
  intros Hwf Hl. pose proof Hwf as (Ho & _ & Hc).
  unfold validate. cbv zeta.
  rewrite reslice_ok by (unfold cap; lia). cbn [bind].
  rewrite reslice_ok by (unfold cap; lia). cbn [bind].
  rewrite (bytes_sub s (len s - 4)) by (auto; lia).
  rewrite (bytes_sub s 0) by (auto; lia).
  replace (len s - (len s - 4)) with 4 by lia.
  replace (len s - 4 - 0) with (len s - 4) by lia.
  change (List.from 0 (bytes s)) with (bytes s).
  replace (List.upto 4 (List.from (len s - 4) (bytes s)))
    with (List.from (len s - 4) (bytes s)).
  2:{ symmetry. apply List.upto_pastend. rewrite zlen_from.
      unfold bytes. rewrite zlen_upto, zlen_from. lia. }
  fold (stored_sum s) (actual_sum s) (checksum_ok s).
  destruct (checksum_ok s); cbn [negb]; [|reflexivity].
  rewrite index_ok by lia. cbn [bind].
  destruct (Z.leb_spec 9 (cap s)).
  - rewrite reslice_ok by lia. cbn [bind]. unfold header_order, header_length, bytes.
    cbn [arr off len]. rewrite Z.add_0_r. reflexivity.
  - rewrite reslice_panics by lia. reflexivity.
Qed.

Lemma bytes_of_bytes (l : list byte) : bytes (of_bytes l) = l.
Proof.
  unfold bytes, of_bytes. cbn [arr off len].
  change (List.from 0 l) with l. apply List.upto_pastend. lia.
Qed.

Lemma wf_of_bytes (l : list byte) : wf (of_bytes l).
Proof. unfold wf, of_bytes. cbn [arr off len]. lia. Qed.

Lemma buint32_be32 (v : Z) : 0 <= v < 2 ^ 32 -> buint32 (be32 v) = v.
Proof. intros H. apply buint32_uint32b; [reflexivity|exact H]. Qed.

Lemma buint64_be64 (v : Z) : 0 <= v < 2 ^ 64 -> buint64 (be64 v) = v.
Proof. intros H. apply buint64_uint64b; [reflexivity|exact H]. Qed.

Lemma checksum_ok_seal (f : list byte) : checksum_ok (of_bytes (seal f)) = true.
Proof.
  unfold checksum_ok, stored_sum, actual_sum.
  rewrite bytes_of_bytes. cbn [len of_bytes]. unfold seal.
  rewrite List.from_app_eq_r by lens.
  rewrite List.upto_app_eq_l by lens.
  rewrite buint32_be32 by apply chcksum_range. apply Z.eqb_refl.
Qed.

(** [validate] on a block of [Encode]: order byte [o], length field [l]. *)
Lemma validate_seal (o : byte) (fld rest : list byte) :
  zlen fld = 8 ->
  validate (of_bytes (seal (o :: fld ++ rest)))
  = Returns (byte.unsigned o, buint64 fld, true).
Proof.
  intros Hf. rewrite validate_spec.
  - rewrite checksum_ok_seal.
    destruct (Z.leb_spec 9 (cap (of_bytes (seal (o :: fld ++ rest))))) as [_|H].
    + unfold header_order, header_length. cbn [arr off of_bytes].
      unfold seal. cbn [app Z.to_nat nth].
      change (0 + 1) with 1.
      rewrite <- app_assoc.
      change (o :: fld ++ rest ++ be32 (chcksum (o :: fld ++ rest)))
        with ([o] ++ fld ++ rest ++ be32 (chcksum (o :: fld ++ rest))).
      rewrite (upto_from_mid [o] fld _ 1 8) by (cbn [length]; lia).
      reflexivity.
    + exfalso. revert H. unfold cap. cbn [arr off of_bytes]. lens.
  - apply wf_of_bytes.
  - cbn [len of_bytes]. lens.
Qed.

(** ** [append] and fresh buffers *)

Lemma zlen_bytes (s : slice) : wf s -> zlen (bytes s) = len s.
Proof.
  intros (Ho & Hl & Hc). unfold bytes. rewrite zlen_upto, zlen_from. lia.
Qed.

Lemma arr_split (s : slice) :
  wf s ->
  arr s = List.upto (off s) (arr s) ++ bytes s ++ List.from (off s + len s) (arr s).
Proof.
  intros (Ho & Hl & Hc). unfold bytes, List.upto, List.from.
  rewrite <- (firstn_skipn (Z.to_nat (off s)) (arr s)) at 1. f_equal.
  rewrite <- (firstn_skipn (Z.to_nat (len s)) (skipn _ (arr s))) at 1. f_equal.
  rewrite skipn_skipn. f_equal. lia.
Qed.

(** Whether it writes in place or not, [append] shows the old elements
    followed by the new ones. *)
Lemma bytes_append (s : slice) (src : list byte) :
  wf s -> bytes (append s src) = bytes s ++ src.
Proof.
  intros Hwf. pose proof Hwf as (Ho & Hl & Hc).
  pose proof (zlen_bytes s Hwf) as Hb.
  unfold append, fits, cap.
  destruct (Z.leb_spec (len s + zlen src) (zlen (arr s) - off s)) as [Hf|Hf];
    [|apply bytes_of_bytes].
  unfold bytes at 1. cbn [arr off len]. unfold store.
  rewrite (arr_split s Hwf) at 1.
  assert (Hp : zlen (List.upto (off s) (arr s)) = off s)
    by (rewrite zlen_upto; lia).
  rewrite (app_assoc (List.upto (off s) (arr s)) (bytes s)).
  rewrite List.upto_app_eq_l by (rewrite zlen_app; lia).
  rewrite <- !app_assoc.
  rewrite (app_assoc (bytes s) src).
  apply upto_from_mid; [exact Hp|]. rewrite zlen_app. lia.
Qed.

Lemma fill_make (k : Z) (new : list byte) :
  zlen new = k -> fill (of_bytes (zeros k)) new = of_bytes new.
Proof.
  intros Hk. unfold fill, of_bytes, store. cbn [arr off len].
  change (List.upto 0 (zeros k)) with (@nil byte). cbn [app].
  rewrite List.from_pastend by (rewrite zlen_zeros; lia).
  rewrite app_nil_r. f_equal. rewrite zlen_zeros. lia.
Qed.

Lemma xor_loop_cancel_r (a b : list byte) :
  length a = length b -> xor_loop b (xor_loop a b) = a.
Proof.
  intros H. rewrite xor_loop_comm with (a := a).
  apply xor_loop_cancel_l. congruence.
Qed.

(** ** [validate] and [Decode] on the blocks of [Encode] *)

Section Encoded.

Variable data : list byte.
Hypothesis Hmax : zlen data <= max_int.

Local Abbreviation al := (half data) (only parsing).
Local Abbreviation bl := (room data) (only parsing).
Local Abbreviation FA := (frameA data) (only parsing).
Local Abbreviation FB := (frameB data) (only parsing).
Local Abbreviation FX := (frameX data) (only parsing).
Local Abbreviation bA := (blockA_of data) (only parsing).
Local Abbreviation bB := (blockB_of data) (only parsing).
Local Abbreviation bX := (blockX_of data) (only parsing).

Lemma bounds : 0 <= al <= bl /\ bl <= al + 1 /\ bl < 2 ^ 62 + 1.
Proof.
  unfold max_int in Hmax. pose proof (half_room data). lia.
Qed.

Lemma frameA_eq :
  FA = [byte.of_Z 1] ++ be64 al ++ payloadA data ++ zeros (bl - al).
Proof. reflexivity. Qed.

Lemma frameB_eq :
  FB = [byte.of_Z 2] ++ be64 bl ++ payloadB data ++ zeros (bl - bl).
Proof. reflexivity. Qed.

Lemma length_payloadA : length (payloadA data) = Z.to_nat al.
Proof. unfold payloadA. lens. Qed.

Lemma length_payloadB : length (payloadB data) = Z.to_nat bl.
Proof. unfold payloadB. lens. Qed.

Lemma length_FA : length FA = Z.to_nat (bl + 9).
Proof. pose proof bounds. apply (length_frame 1 al bl). lia. Qed.

Lemma length_FB : length FB = Z.to_nat (bl + 9).
Proof. pose proof bounds. apply (length_frame 2 bl bl). lia. Qed.

Lemma length_FX : length FX = Z.to_nat (bl + 9).
Proof.
  unfold frameX. rewrite xor_loop_length; [apply length_FA|].
  rewrite length_FA, length_FB. reflexivity.
Qed.

Lemma zlen_FA : zlen FA = bl + 9.
Proof. pose proof bounds. pose proof length_FA. lia. Qed.

Lemma zlen_FB : zlen FB = bl + 9.
Proof. pose proof bounds. pose proof length_FB. lia. Qed.

Lemma zlen_FX : zlen FX = bl + 9.
Proof. pose proof bounds. pose proof length_FX. lia. Qed.

Lemma zlen_sealed (f : list byte) : zlen f = bl + 9 -> zlen (seal f) = bl + 13.
Proof. intros H. rewrite zlen_seal. lia. Qed.

Lemma len_A : len bA = bl + 13.
Proof. apply (zlen_sealed FA zlen_FA). Qed.

Lemma len_B : len bB = bl + 13.
Proof. apply (zlen_sealed FB zlen_FB). Qed.

Lemma len_X : len bX = bl + 13.
Proof. apply (zlen_sealed FX zlen_FX). Qed.

Lemma frameX_eq :
  FX = [byte.of_Z 3] ++ xor_loop (be64 al) (be64 bl)
         ++ xor_loop (payloadA data ++ zeros (bl - al))
                     (payloadB data ++ zeros (bl - bl)).
Proof.
  unfold frameX. rewrite frameA_eq, frameB_eq.
  rewrite !xor_loop_app by (autorewrite with len; reflexivity).
  reflexivity.
Qed.

(** The parity block gives back the frame that is missing. *)
Lemma rebuild_A : xor_loop FB FX = FA.
Proof.
  unfold frameX.
  apply xor_loop_cancel_r. rewrite length_FA, length_FB. reflexivity.
Qed.

Lemma rebuild_B : xor_loop FA FX = FB.
Proof.
  unfold frameX.
  apply xor_loop_cancel_l. rewrite length_FA, length_FB. reflexivity.
Qed.

Lemma validate_A : validate bA = Returns (1, al, true).
Proof.
  pose proof bounds. unfold blockA_of. rewrite frameA_eq.
  cbn [app]. rewrite validate_seal by apply zlen_be64.
  rewrite buint64_be64 by lia. reflexivity.
Qed.

Lemma validate_B : validate bB = Returns (2, bl, true).
Proof.
  pose proof bounds. unfold blockB_of. rewrite frameB_eq.
  cbn [app]. rewrite validate_seal by apply zlen_be64.
  rewrite buint64_be64 by lia. reflexivity.
Qed.

Lemma validate_X :
  validate bX = Returns (3, buint64 (xor_loop (be64 al) (be64 bl)), true).
Proof.
  unfold blockX_of. rewrite frameX_eq.
  cbn [app]. rewrite validate_seal; [reflexivity|].
  rewrite zlen_xor_loop; rewrite !zlen_be64; reflexivity.
Qed.

Lemma sealA_eq :
  seal FA = ([byte.of_Z 1] ++ be64 al) ++ payloadA data
            ++ (zeros (bl - al) ++ be32 (chcksum FA)).
Proof. unfold seal. rewrite frameA_eq at 1. flat. Qed.

Lemma sealB_eq :
  seal FB = ([byte.of_Z 2] ++ be64 bl) ++ payloadB data
            ++ (zeros (bl - bl) ++ be32 (chcksum FB)).
Proof. unfold seal. rewrite frameB_eq at 1. flat. Qed.

Lemma wrap_9a : wrap64 (9 + al) = 9 + al.
Proof. pose proof bounds. apply wrap64_small. lia. Qed.

Lemma wrap_9n : wrap64 (9 + bl) = 9 + bl.
Proof. pose proof bounds. apply wrap64_small. lia. Qed.

(** Reading the payload areas out of the whole blocks. *)
Lemma payload_of_A (k : Z) :
  al + 9 <= k <= bl + 13 ->
  exists s, reslice {| arr := seal FA; off := 0; len := k |} 9 (9 + al) = Returns s
            /\ wf s /\ bytes s = payloadA data.
Proof.
  intros Hk. pose proof bounds. pose proof length_FA. pose proof length_payloadA.
  eexists. split; [|split].
  - apply reslice_ok; [lia|]. unfold cap. cbn [arr off]. lens.
  - unfold wf. cbn [arr off len]. lens.
  - cbn [arr off len]. eapply bytes_mid; [apply sealA_eq| |]; lens.
Qed.

Lemma payload_of_B (k : Z) :
  bl + 9 <= k <= bl + 13 ->
  exists s, reslice {| arr := seal FB; off := 0; len := k |} 9 (9 + bl) = Returns s
            /\ wf s /\ bytes s = payloadB data.
Proof.
  intros Hk. pose proof bounds. pose proof length_FB. pose proof length_payloadB.
  eexists. split; [|split].
  - apply reslice_ok; [lia|]. unfold cap. cbn [arr off]. lens.
  - unfold wf. cbn [arr off len]. lens.
  - cbn [arr off len]. eapply bytes_mid; [apply sealB_eq| |]; lens.
Qed.

(** Reading them out of al reconstructed frame. *)
Lemma payload_of_FA :
  exists s, reslice (of_bytes FA) 9 (9 + al) = Returns s
            /\ wf s /\ bytes s = payloadA data.
Proof.
  pose proof bounds. pose proof length_FA. pose proof length_payloadA.
  eexists. split; [|split].
  - apply reslice_ok; [lia|]. unfold cap. cbn [arr off of_bytes]. lens.
  - unfold wf. cbn [arr off len of_bytes]. lens.
  - cbn [arr off len of_bytes].
    apply (bytes_mid _ ([byte.of_Z 1] ++ be64 al) _ (zeros (bl - al)));
      [rewrite frameA_eq; flat| |]; lens.
Qed.

Lemma payload_of_FB :
  exists s, reslice (of_bytes FB) 9 (9 + bl) = Returns s
            /\ wf s /\ bytes s = payloadB data.
Proof.
  pose proof bounds. pose proof length_FB. pose proof length_payloadB.
  eexists. split; [|split].
  - apply reslice_ok; [lia|]. unfold cap. cbn [arr off of_bytes]. lens.
  - unfold wf. cbn [arr off len of_bytes]. lens.
  - cbn [arr off len of_bytes].
    apply (bytes_mid _ ([byte.of_Z 2] ++ be64 bl) _ (zeros (bl - bl)));
      [rewrite frameB_eq; flat| |]; lens.
Qed.

Lemma field_of_FA :
  exists h, reslice (of_bytes FA) 1 9 = Returns h /\ buint64 (bytes h) = al.
Proof.
  pose proof bounds. pose proof length_FA.
  eexists. split.
  - apply reslice_ok; [lia|]. unfold cap. cbn [arr off of_bytes]. lens.
  - cbn [arr off of_bytes].
    rewrite (bytes_mid _ [byte.of_Z 1] (be64 al) (payloadA data ++ zeros (bl - al)));
      [apply buint64_be64; lia|apply frameA_eq| |]; lens.
Qed.

Lemma field_of_FB :
  exists h, reslice (of_bytes FB) 1 9 = Returns h /\ buint64 (bytes h) = bl.
Proof.
  pose proof bounds. pose proof length_FB.
  eexists. split.
  - apply reslice_ok; [lia|]. unfold cap. cbn [arr off of_bytes]. lens.
  - cbn [arr off of_bytes].
    rewrite (bytes_mid _ [byte.of_Z 2] (be64 bl) (payloadB data ++ zeros (bl - bl)));
      [apply buint64_be64; lia|apply frameB_eq| |]; lens.
Qed.

(** The first [blocklen - 4] bytes of al whole block are its frame. *)
Lemma frame_of (f : list byte) :
  zlen f = bl + 9 ->
  reslice (of_bytes (seal f)) 0 (bl + 13 - 4)
  = Returns {| arr := seal f; off := 0; len := bl + 9 |}
  /\ bytes {| arr := seal f; off := 0; len := bl + 9 |} = f.
Proof.
  intros Hf. pose proof bounds. split.
  - rewrite reslice_of_bytes by lens. do 2 f_equal; lia.
  - apply (bytes_mid _ [] f (be32 (chcksum f))); [reflexivity| |]; lens.
Qed.

(** bA and bB both good: the payload areas are read as they are. *)
Lemma reassemble_AB (blocklen : Z) (br : option slot) (r : roles) (m : arrays) :
  blockA r = bA -> agood r = true -> alen r = al ->
  blockB r = bB -> bgood r = true -> blen r = bl ->
  exists arrA',
    reassemble blocklen br r m
    = Returns ({| result := Some (carried data);
                  broken := if xgood r then None else br; err := None |},
               write_back m (slotA r) arrA').
Proof.
  intros HA Hag Hal HB Hbg Hbl. pose proof bounds.
  unfold reassemble. rewrite HA, Hag, Hal, HB, Hbg, Hbl.
  cbn [negb andb]. rewrite wrap_9a, wrap_9n.
  destruct (payload_of_A (zlen (seal FA))) as (sa & Ea & Wa & Ba);
    [rewrite zlen_sealed by apply zlen_FA; lia|].
  destruct (payload_of_B (zlen (seal FB))) as (sb & Eb & Wb & Bb);
    [rewrite zlen_sealed by apply zlen_FB; lia|].
  unfold blockA_of, blockB_of, of_bytes.
  rewrite Ea, Eb.
  destruct (xgood r); cbn [bind negb]; eexists;
    rewrite bytes_append, Ba, Bb by exact Wa; reflexivity.
Qed.

(** bA is missing: it is rebuilt from bB and bX. *)
Lemma reassemble_BX (br : option slot) (r : roles) (m : arrays) :
  agood r = false ->
  blockB r = bB -> bgood r = true -> blen r = bl ->
  blockX r = bX -> xgood r = true ->
  reassemble (bl + 13) br r m
  = Returns ({| result := Some (carried data); broken := br; err := None |},
             m).
Proof.
  intros Hag HB Hbg Hbl HX Hxg. pose proof bounds.
  unfold reassemble. rewrite Hag, HB, Hbg, Hbl, HX, Hxg.
  cbn [negb andb]. rewrite wrap_9n.
  rewrite make_zeros by lia. cbn [bind].
  destruct (frame_of FB zlen_FB) as [Eb Bb].
  destruct (frame_of FX zlen_FX) as [Ex Bx].
  unfold blockB_of, blockX_of.
  rewrite Eb, Ex. cbn [bind]. rewrite Bb, Bx, bytes_of_bytes.
  rewrite xor_xor_loop
    by (rewrite ?length_FB, ?length_FX, length_zeros; f_equal; lia).
  rewrite rebuild_A.
  rewrite fill_make by (rewrite zlen_FA; lia).
  destruct field_of_FA as (h & Eh & Hh). rewrite Eh. cbn [bind].
  rewrite Hh, wrap_9a.
  destruct payload_of_FA as (sa & Ea & Wa & Ba). rewrite Ea. cbn [bind].
  destruct (payload_of_B (bl + 9)) as (sb & Esb & Wb & Bsb); [lia|].
  rewrite Esb. cbn [bind].
  rewrite bytes_append, Ba, Bsb by exact Wa. reflexivity.
Qed.

(** bB is missing: it is rebuilt from bA and bX. *)
Lemma reassemble_AX (br : option slot) (r : roles) (m : arrays) :
  blockA r = bA -> agood r = true -> alen r = al ->
  bgood r = false ->
  blockX r = bX -> xgood r = true ->
  exists arrA',
    reassemble (bl + 13) br r m
    = Returns ({| result := Some (carried data); broken := br;
                  err := None |},
               write_back m (slotA r) arrA').
Proof.
  intros HA Hag Hal Hbg HX Hxg. pose proof bounds.
  unfold reassemble. rewrite HA, Hag, Hal, Hbg, HX, Hxg.
  cbn [negb andb]. rewrite wrap_9a.
  rewrite make_zeros by lia. cbn [bind].
  destruct (frame_of FA zlen_FA) as [Ea Ba].
  destruct (frame_of FX zlen_FX) as [Ex Bx].
  unfold blockA_of, blockX_of.
  rewrite Ea, Ex. cbn [bind]. rewrite Ba, Bx, bytes_of_bytes.
  rewrite xor_xor_loop
    by (rewrite ?length_FA, ?length_FX, length_zeros; f_equal; lia).
  rewrite rebuild_B.
  rewrite fill_make by (rewrite zlen_FB; lia).
  destruct field_of_FB as (h & Eh & Hh). rewrite Eh. cbn [bind].
  rewrite Hh, wrap_9n.
  destruct (payload_of_A (bl + 9)) as (sa & Esa & Wa & Bsa); [lia|].
  rewrite Esa. cbn [bind].
  destruct payload_of_FB as (sb & Eb & Wb & Bb). rewrite Eb.
  cbn [bind]. eexists.
  rewrite bytes_append, Bsa, Bb by exact Wa. reflexivity.
Qed.

(** [Decode] on the three blocks, and with one of them replaced by al
    block of the same length that fails validation. *)
Lemma Decode_ABX :
  exists arrA',
    Decode bA bB bX
    = Returns ({| result := Some (carried data); broken := None;
                  err := None |}, (arrA', arr bB, arr bX)).
Proof.
  unfold Decode. cbv zeta. rewrite len_A, len_B, len_X, Z.eqb_refl.
  cbn [negb andb].
  rewrite validate_A, validate_B, validate_X.
  cbn [bind andb assign].
  match goal with |- context [reassemble ?l ?br ?r ?m] =>
    destruct (reassemble_AB l br r m) as (arrA' & E); try reflexivity
  end.
  rewrite E. eexists. reflexivity.
Qed.

Lemma Decode_zBX (z : slice) :
  validate z = Returns (0, 0, false) -> len z = len bA ->
  Decode z bB bX
  = Returns ({| result := Some (carried data); broken := Some Slot1;
                err := None |}, (arr z, arr bB, arr bX)).
Proof.
  intros Hz Hl. rewrite len_A in Hl.
  unfold Decode. cbv zeta. rewrite Hl, len_B, len_X, Z.eqb_refl.
  cbn [negb andb].
  rewrite Hz, validate_B, validate_X.
  cbn [bind andb assign].
  apply reassemble_BX; reflexivity.
Qed.

Lemma Decode_AzX (z : slice) :
  validate z = Returns (0, 0, false) -> len z = len bA ->
  exists arrA',
    Decode bA z bX
    = Returns ({| result := Some (carried data); broken := Some Slot2;
                  err := None |}, (arrA', arr z, arr bX)).
Proof.
  intros Hz Hl. rewrite len_A in Hl.
  unfold Decode. cbv zeta. rewrite Hl, len_A, len_X, Z.eqb_refl.
  cbn [negb andb].
  rewrite Hz, validate_A, validate_X.
  cbn [bind andb assign].
  match goal with |- context [reassemble ?l ?br ?r ?m] =>
    destruct (reassemble_AX br r m) as (arrA' & E); try reflexivity
  end.
  rewrite E. eexists. reflexivity.
Qed.

Lemma Decode_ABz (z : slice) :
  validate z = Returns (0, 0, false) -> len z = len bA ->
  exists arrA',
    Decode bA bB z
    = Returns ({| result := Some (carried data); broken := Some Slot3;
                  err := None |}, (arrA', arr bB, arr z)).
Proof.
  intros Hz Hl. rewrite len_A in Hl.
  unfold Decode. cbv zeta. rewrite Hl, len_A, len_B, Z.eqb_refl.
  cbn [negb andb].
  rewrite Hz, validate_A, validate_B.
  cbn [bind andb assign].
  match goal with |- context [reassemble ?l ?br ?r ?m] =>
    destruct (reassemble_AB l br r m) as (arrA' & E); try reflexivity
  end.
  rewrite E. eexists. reflexivity.
Qed.

(** The blocks claim the roles bA, bB and bX. *)
Lemma compatible_ABX : compatible bA bB bX.
Proof.
  unfold compatible, distinct_roles, takes_role, order_of.
  rewrite len_A, len_B, len_X, validate_A, validate_B, validate_X.
  repeat split; intros _; discriminate.
Qed.

End Encoded.

(** ** Payloads [Encode] frames whole *)

Lemma copy_full (dst src : list byte) :
  zlen src = zlen dst -> copy dst src = src.
Proof.
  intros H. unfold copy. rewrite H, Z.min_id.
  rewrite List.upto_pastend, List.from_pastend by lia. apply app_nil_r.
Qed.

Lemma room_exact (data : list byte) :
  zlen data mod 4 = 0 \/ zlen data mod 4 = 3 ->
  room data = zlen data - half data.
Proof.
  intros H. unfold room, half.
  destruct (Z.eqb_spec ((zlen data / 2) mod 2) 0) as [E|E];
    revert H E; generalize (zlen data); intros L H E;
    Z.div_mod_to_equations; lia.
Qed.

Lemma carried_exact (data : list byte) :
  room data = zlen data - half data -> carried data = data.
Proof.
  intros H. pose proof (half_room data) as (Ha & Hr & Hd).
  unfold carried, payloadA, payloadB.
  rewrite !copy_full by (rewrite ?zlen_upto, ?zlen_from, zlen_zeros; lia).
  symmetry. apply List.split_at.
Qed.

(** ** Blocks that fail validation *)

Lemma validate_bad (s : slice) :
  wf s -> 4 <= len s -> checksum_ok s = false ->
  validate s = Returns (0, 0, false).
Proof. intros Hwf Hl Hc. rewrite validate_spec, Hc by assumption. reflexivity. Qed.

Lemma checksum_ok_zeros (s : slice) :
  4 <= len s -> bytes s = zeros (len s) -> checksum_ok s = false.
Proof.
  intros Hl Hb. unfold checksum_ok, stored_sum, actual_sum. rewrite Hb.
  replace (len s) with ((len s - 4) + 4) at 2 4 by lia.
  rewrite zeros_add by lia.
  rewrite List.from_app_eq_r, List.upto_app_eq_l by (rewrite zlen_zeros; lia).
  apply Z.eqb_neq. change (buint32 (zeros 4)) with 0.
  intros E. symmetry in E. revert E. apply chcksum_zeros_nonzero.
Qed.

(** ** Order of the arguments *)

Lemma observe_bind {T : Type} (c : exec T) (k k' : T -> exec (ret * arrays)) :
  (forall t, observe (k t) = observe (k' t)) ->
  observe (bind c k) = observe (bind c k').
Proof. intros H. destruct c; [reflexivity|apply H]. Qed.

Lemma observe_reassemble (blocklen : Z) (br br' : option slot)
    (r r' : roles) (m m' : arrays) :
  same_roles r r' ->
  observe (reassemble blocklen br r m) = observe (reassemble blocklen br' r' m').
Proof.
  intros (HA & Hag & Hal & HB & Hbg & Hbl & HX & Hxg).
  unfold reassemble. rewrite <- HA, <- Hag, <- Hal, <- HB, <- Hbg, <- Hbl, <- HX, <- Hxg.
  destruct (agood r), (bgood r), (xgood r); cbn [negb andb fail observe];
    try reflexivity;
    repeat (apply observe_bind; intros ?); reflexivity.
Qed.

Lemma assign_cases (p : Z) :
  p = 1 \/ p = 2 \/ p = 3 \/
  (forall r s b g l, assign r p s b g l = r).
Proof.
  destruct p as [|[q|q|]|q]; auto; destruct q; auto; destruct q; auto.
Qed.

Lemma takes_role_order (b b' : slice) :
  order_of b = order_of b' -> takes_role b = takes_role b'.
Proof. unfold takes_role. intros ->. reflexivity. Qed.

Lemma compatible_swap12 (b1 b2 b3 : slice) :
  compatible b1 b2 b3 -> compatible b2 b1 b3.
Proof.
  intros (H1 & H2 & D1 & D2 & D3). repeat split; try congruence.
  - intros T E. apply D1; [|congruence].
    rewrite (takes_role_order b1 b2); congruence.
  - exact D3.
  - exact D2.
Qed.

Lemma compatible_swap23 (b1 b2 b3 : slice) :
  compatible b1 b2 b3 -> compatible b1 b3 b2.
Proof.
  intros (H1 & H2 & D1 & D2 & D3). repeat split; try congruence.
  - exact D2.
  - exact D1.
  - intros T E. apply D3; [|congruence].
    rewrite (takes_role_order b2 b3); congruence.
Qed.

Ltac roles_agree D :=
  first
    [ solve [unfold same_roles; cbn; repeat split; reflexivity]
    | solve [exfalso; destruct D as (D1 & D2 & D3);
             first [apply D1; reflexivity | apply D2; reflexivity
                   | apply D3; reflexivity]] ].

Lemma Decode_swap12 (b1 b2 b3 : slice) :
  compatible b1 b2 b3 ->
  observe (Decode b2 b1 b3) = observe (Decode b1 b2 b3).
Proof.
  intros (H1 & H2 & D). unfold Decode. cbv zeta.
  rewrite <- H2, <- H1, Z.eqb_refl. cbn [negb andb].
  unfold distinct_roles, takes_role, order_of in D.
  destruct (validate b1) as [|[[p1 l1] g1]];
    destruct (validate b2) as [|[[p2 l2] g2]];
    destruct (validate b3) as [|[[p3 l3] g3]];
    cbn [bind]; try reflexivity.
  apply observe_reassemble.
  destruct (assign_cases p1) as [->|[->|[->|E1]]];
    destruct (assign_cases p2) as [->|[->|[->|E2]]];
    destruct (assign_cases p3) as [->|[->|[->|E3]]];
    rewrite ?E1, ?E2, ?E3; roles_agree D.
Qed.

Lemma Decode_swap23 (b1 b2 b3 : slice) :
  compatible b1 b2 b3 ->
  observe (Decode b1 b3 b2) = observe (Decode b1 b2 b3).
Proof.
  intros (H1 & H2 & D). unfold Decode. cbv zeta.
  rewrite <- H2, <- H1, Z.eqb_refl. cbn [negb andb].
  unfold distinct_roles, takes_role, order_of in D.
  destruct (validate b1) as [|[[p1 l1] g1]];
    destruct (validate b2) as [|[[p2 l2] g2]];
    destruct (validate b3) as [|[[p3 l3] g3]];
    cbn [bind]; try reflexivity.
  apply observe_reassemble.
  destruct (assign_cases p1) as [->|[->|[->|E1]]];
    destruct (assign_cases p2) as [->|[->|[->|E2]]];
    destruct (assign_cases p3) as [->|[->|[->|E3]]];
    rewrite ?E1, ?E2, ?E3; roles_agree D.
Qed.

Lemma perm3_cases {T : Type} (c1 c2 c3 b1 b2 b3 : T) :
  Permutation [c1; c2; c3] [b1; b2; b3] ->
  [c1; c2; c3] = [b1; b2; b3] \/ [c1; c2; c3] = [b1; b3; b2] \/
  [c1; c2; c3] = [b2; b1; b3] \/ [c1; c2; c3] = [b2; b3; b1] \/
  [c1; c2; c3] = [b3; b1; b2] \/ [c1; c2; c3] = [b3; b2; b1].
Proof.
  intros P.
  assert (Hin : In c1 [b1; b2; b3])
    by (eapply Permutation_in; [exact P|left; reflexivity]).
  destruct Hin as [<-|[<-|[<-|[]]]].
  - apply Permutation_cons_inv, Permutation_sym, Permutation_length_2_inv in P.
    destruct P as [E|E]; injection E as -> ->; auto.
  - assert (P' : Permutation (b2 :: [c2; c3]) (b2 :: [b1; b3]))
      by (eapply Permutation_trans; [exact P|apply perm_swap]).
    apply Permutation_cons_inv, Permutation_sym, Permutation_length_2_inv in P'.
    destruct P' as [E|E]; injection E as -> ->; auto 10.
  - assert (P' : Permutation (b3 :: [c2; c3]) (b3 :: [b1; b2])).
    { eapply Permutation_trans; [exact P|].
      eapply Permutation_trans; [apply perm_skip, perm_swap|apply perm_swap]. }
    apply Permutation_cons_inv, Permutation_sym, Permutation_length_2_inv in P'.
    destruct P' as [E|E]; injection E as -> ->; auto 10.
Qed.

(** The payload and the error of [Decode] do not depend on the order of
    three blocks of one length that claim distinct roles. *)
Lemma Decode_permutation (b1 b2 b3 c1 c2 c3 : slice) :
  Permutation [c1; c2; c3] [b1; b2; b3] ->
  compatible b1 b2 b3 ->
  observe (Decode c1 c2 c3) = observe (Decode b1 b2 b3).
Proof.
  intros P C.
  destruct (perm3_cases _ _ _ _ _ _ P) as [E|[E|[E|[E|[E|E]]]]];
    injection E as -> -> ->.
  - reflexivity.
  - apply Decode_swap23, C.
  - apply Decode_swap12, C.
  - rewrite (Decode_swap23 b2 b1 b3) by apply compatible_swap12, C.
    apply Decode_swap12, C.
  - rewrite (Decode_swap12 b1 b3 b2) by apply compatible_swap23, C.
    apply Decode_swap23, C.
  - rewrite (Decode_swap12 b2 b3 b1)
      by apply compatible_swap23, compatible_swap12, C.
    rewrite (Decode_swap23 b2 b1 b3) by apply compatible_swap12, C.
    apply Decode_swap12, C.
Qed.

(** ** Unrecoverable inputs and error returns *)

Lemma validate_readable (b : slice) :
  readable b ->
  validate b = Returns (0, 0, false) /\ passes b = false \/
  exists pos l, validate b = Returns (pos, l, true) /\ passes b = true.
Proof.
  intros (Hwf & Hl & Hc). unfold passes. rewrite validate_spec by assumption.
  destruct (checksum_ok b); [|left; split; reflexivity].
  destruct (Z.leb_spec 9 (cap b)); [|lia].
  right. eexists _, _. split; reflexivity.
Qed.

Lemma reassemble_fails (blocklen : Z) (br : option slot) (r : roles) (m : arrays) :
  (agood r = false /\ bgood r = false) \/
  (agood r = false /\ xgood r = false) \/
  (bgood r = false /\ xgood r = false) ->
  exists e, reassemble blocklen br r m = fail e m /\ unrecoverable e = true.
Proof.
  unfold reassemble.
  intros [[-> ->]|[[-> ->]|[-> ->]]];
    destruct (agood r), (bgood r), (xgood r); cbn [negb andb];
    eexists; split; reflexivity.
Qed.

Lemma Decode_unrecoverable (b1 b2 b3 : slice) :
  readable b1 -> readable b2 -> readable b3 ->
  len b1 = len b2 -> len b2 = len b3 ->
  (good_count b1 b2 b3 <= 1)%nat ->
  exists e, Decode b1 b2 b3 = fail e (arr b1, arr b2, arr b3)
            /\ unrecoverable e = true.
Proof.
  intros R1 R2 R3 H1 H2 Hc. unfold Decode. cbv zeta.
  rewrite <- H2, <- H1, Z.eqb_refl. cbn [negb andb].
  unfold good_count in Hc.
  destruct (validate_readable b1 R1) as [[E1 P1]|(p1 & l1 & E1 & P1)];
    destruct (validate_readable b2 R2) as [[E2 P2]|(p2 & l2 & E2 & P2)];
    destruct (validate_readable b3 R3) as [[E3 P3]|(p3 & l3 & E3 & P3)];
    rewrite P1, P2, P3 in Hc; cbn in Hc; try lia;
    rewrite E1, E2, E3; cbn [bind assign];
    apply reassemble_fails.
  - auto.
  - destruct (assign_cases p3) as [->|[->|[->|E]]]; rewrite ?E; cbn; auto.
  - destruct (assign_cases p2) as [->|[->|[->|E]]]; rewrite ?E; cbn; auto.
  - destruct (assign_cases p1) as [->|[->|[->|E]]]; rewrite ?E; cbn; auto.
Qed.

Lemma Decode_few_roles (b1 b2 b3 : slice) :
  readable b1 -> readable b2 -> readable b3 ->
  len b1 = len b2 -> len b2 = len b3 ->
  (good_roles b1 b2 b3 <= 1)%nat ->
  exists e, Decode b1 b2 b3 = fail e (arr b1, arr b2, arr b3)
            /\ unrecoverable e = true.
Proof.
  intros R1 R2 R3 H1 H2 Hc. unfold Decode. cbv zeta.
  rewrite <- H2, <- H1, Z.eqb_refl. cbn [negb andb].
  unfold good_roles, roles_of in Hc. cbv zeta in Hc.
  assert (V : forall b, readable b -> exists p l g, validate b = Returns (p, l, g)).
  { intros b R. destruct (validate_readable b R) as [[E _]|(p & l & E & _)];
      rewrite E; eauto. }
  destruct (V b1 R1) as (p1 & l1 & g1 & E1).
  destruct (V b2 R2) as (p2 & l2 & g2 & E2).
  destruct (V b3 R3) as (p3 & l3 & g3 & E3).
  rewrite E1, E2, E3 in *. cbn [bind] in *.
  apply reassemble_fails.
  revert Hc.
  match goal with |- context [agood ?r] =>
    destruct (agood r), (bgood r), (xgood r)
  end; cbn; intros; auto; lia.
Qed.

(** Every return of [Decode] with an error carries no payload and no
    broken block, and leaves the backing arrays as they were. *)
Lemma reassemble_error (blocklen : Z) (br : option slot) (r : roles)
    (m m' : arrays) (res : ret) :
  reassemble blocklen br r m = Returns (res, m') ->
  err res <> None ->
  result res = None /\ broken res = None /\ m' = m.
Proof.
  unfold reassemble, fail.
  repeat match goal with
         | |- context [if ?c then _ else _] => destruct c
         | |- context [bind ?c _] => destruct c; cbn [bind]
         end;
    intros E; try discriminate E; injection E as <- <-; cbn [err result broken];
    intros N; try (exfalso; apply N; reflexivity); auto.
Qed.

Lemma Decode_error (b1 b2 b3 : slice) (m' : arrays) (res : ret) :
  Decode b1 b2 b3 = Returns (res, m') ->
  err res <> None ->
  result res = None /\ broken res = None /\ m' = (arr b1, arr b2, arr b3).
Proof.
  unfold Decode. cbv zeta.
  destruct (negb (len b1 =? len b2) && negb (len b2 =? len b3)).
  - unfold fail. intros E; injection E as <- <-. auto.
  - destruct (validate b1) as [|[[p1 l1] g1]]; [discriminate|].
    destruct (validate b2) as [|[[p2 l2] g2]]; [discriminate|].
    destruct (validate b3) as [|[[p3 l3] g3]]; [discriminate|].
    cbn [bind]. apply reassemble_error.
Qed.

(** Buffers too short for a checksum field. *)
Lemma Decode_short (b1 b2 b3 : slice) :
  len b1 = len b2 -> len b2 = len b3 -> len b1 < 4 ->
  Decode b1 b2 b3 = Panics.
Proof.
  intros H1 H2 Hs. unfold Decode. cbv zeta.
  rewrite <- H2, <- H1, Z.eqb_refl. cbn [negb andb].
  rewrite validate_short by exact Hs. reflexivity.
Qed.

(** * The properties of the specification *)

(** ** Round trip (C1) *)

(** On every payload the round trip returns what the two data blocks
    carry, names no broken block and reports no error. *)
Lemma roundtrip_carried (p : list byte) :
  zlen p <= max_int ->
  outcome (roundtrip p)
  = Returns {| result := Some (carried p); broken := None; err := None |}.
Proof.
  intros Hmax. unfold roundtrip. rewrite Encode_blocks by exact Hmax.
  cbv beta iota delta [bind]. destruct (Decode_ABX p Hmax) as (arrA' & E).
  rewrite E. reflexivity.
Qed.

(** Where [Encode] frames the whole payload, that is for a length
    congruent to 0 or 3 modulo 4, the round trip is exact:
    [Decode(Encode(p))] is [p], a nil broken block and no error. *)
Theorem roundtrip_exact (p : list byte) :
  zlen p <= max_int ->
  zlen p mod 4 = 0 \/ zlen p mod 4 = 3 ->
  outcome (roundtrip p)
  = Returns {| result := Some p; broken := None; err := None |}.
Proof.
  intros Hmax Hm. rewrite roundtrip_carried by exact Hmax.
  rewrite carried_exact by (apply room_exact, Hm). reflexivity.
Qed.

(** An instance: the four bytes "ABCD". *)
Lemma roundtrip_exact_ABCD :
  outcome (roundtrip ABCD)
  = Returns {| result := Some ABCD; broken := None; err := None |}.
Proof.
  apply (roundtrip_exact ABCD).
  - unfold max_int. cbn. lia.
  - left. reflexivity.
Defined.

(** C1. For every payload [p], [Decode] applied to the three blocks of
    [Encode(p)] returns exactly [p], a nil broken block and no error.
    The code does not: [blen] is raised by one when [len(data)/2] is odd,
    not when [len(data)] is, so a payload of one byte is framed with two
    empty payload slices and comes back empty. *)
Theorem C1_roundtrip_one_byte :
  outcome (roundtrip [Byte.x41])
  = Returns {| result := Some []; broken := None; err := None |}.
Proof. vm_compute. reflexivity. Qed.

(** ** One block lost or corrupted (C2) *)

(** C2, as stated, fails: six bits of block A flipped (one in the payload,
    five in the checksum field) give a block that passes validation, and
    [Decode] returns another payload and no broken block. *)
Lemma C2_corruption_undetected :
  NoDup six_bits /\
  Forall (fun i => 0 <= i < 8 * len (blockA_of ABCD)) six_bits /\
  Encode ABCD
  = Returns (blockA_of ABCD, blockB_of ABCD, blockX_of ABCD, None) /\
  bytes (blockA_of ABCD)
  = [Byte.x01; Byte.x00; Byte.x00; Byte.x00; Byte.x00; Byte.x00; Byte.x00;
     Byte.x00; Byte.x02; Byte.x41; Byte.x42; Byte.x00; Byte.xe0; Byte.x00;
     Byte.x87] /\
  flipbits (bytes (blockA_of ABCD)) six_bits
  = [Byte.x01; Byte.x00; Byte.x00; Byte.x00; Byte.x00; Byte.x00; Byte.x00;
     Byte.x00; Byte.x02; Byte.x41; Byte.x43; Byte.x00; Byte.xe1; Byte.x00;
     Byte.x88] /\
  validate (of_bytes (flipbits (bytes (blockA_of ABCD)) six_bits))
  = Returns (1, 2, true) /\
  outcome (Decode (of_bytes (flipbits (bytes (blockA_of ABCD)) six_bits))
                  (blockB_of ABCD) (blockX_of ABCD))
  = Returns {| result := Some ACCD; broken := None; err := None |}.
Proof.
  split; [|split].
  - unfold six_bits. repeat (constructor; [cbn; lia|]). constructor.
  - unfold six_bits. repeat constructor; vm_compute; congruence.
  - repeat split; vm_compute; reflexivity.
Qed.

(** C2, amended. For every payload [p] that [Encode] frames whole (a
    length congruent to 0 or 3 modulo 4), if one of the three blocks of
    [Encode(p)] is replaced by a buffer of the same length that fails
    checksum validation, as every all-zero buffer does, then [Decode]
    returns exactly [p] and returns the replaced buffer, untouched, as
    the broken block. *)
Theorem C2_single_block_loss (p : list byte) (z : slice) :
  zlen p <= max_int ->
  zlen p mod 4 = 0 \/ zlen p mod 4 = 3 ->
  wf z -> len z = len (blockA_of p) ->
  bytes z = zeros (len z) \/ checksum_ok z = false ->
  Encode p = Returns (blockA_of p, blockB_of p, blockX_of p, None) /\
  Decode z (blockB_of p) (blockX_of p)
  = Returns ({| result := Some p; broken := Some Slot1; err := None |},
             (arr z, arr (blockB_of p), arr (blockX_of p))) /\
  (exists arrA',
     Decode (blockA_of p) z (blockX_of p)
     = Returns ({| result := Some p; broken := Some Slot2; err := None |},
                (arrA', arr z, arr (blockX_of p)))) /\
  (exists arrA',
     Decode (blockA_of p) (blockB_of p) z
     = Returns ({| result := Some p; broken := Some Slot3; err := None |},
                (arrA', arr (blockB_of p), arr z))).
Proof.
  intros Hmax Hm Hwf Hl Hbad.
  assert (Hl4 : 4 <= len z).
  { rewrite Hl, (len_A p Hmax). pose proof (bounds p Hmax). lia. }
  assert (Hz : validate z = Returns (0, 0, false)).
  { apply validate_bad; [exact Hwf|exact Hl4|].
    destruct Hbad as [Hb|Hb]; [apply checksum_ok_zeros; assumption|exact Hb]. }
  pose proof (carried_exact p (room_exact p Hm)) as Hc.
  split; [apply Encode_blocks, Hmax|].
  split; [rewrite (Decode_zBX p Hmax z Hz Hl), Hc; reflexivity|].
  split.
  - destruct (Decode_AzX p Hmax z Hz Hl) as (arrA' & E).
    exists arrA'. rewrite E, Hc. reflexivity.
  - destruct (Decode_ABz p Hmax z Hz Hl) as (arrA' & E).
    exists arrA'. rewrite E, Hc. reflexivity.
Qed.

(** Two instances: block A of the blocks of "ABCD" replaced by fifteen
    zero bytes, and block B with the lowest bit of its first byte
    flipped. *)
Lemma C2_single_block_loss_ABCD :
  Decode (of_bytes (zeros 15)) (blockB_of ABCD) (blockX_of ABCD)
  = Returns ({| result := Some ABCD; broken := Some Slot1; err := None |},
             (zeros 15, arr (blockB_of ABCD), arr (blockX_of ABCD))) /\
  exists arrA',
    Decode (blockA_of ABCD)
           (of_bytes (flipbits (bytes (blockB_of ABCD)) [0]))
           (blockX_of ABCD)
    = Returns ({| result := Some ABCD; broken := Some Slot2; err := None |},
               (arrA', flipbits (bytes (blockB_of ABCD)) [0],
                arr (blockX_of ABCD))).
Proof.
  split.
  - refine (proj1 (proj2 (C2_single_block_loss ABCD (of_bytes (zeros 15))
                            _ _ _ _ _))).
    + unfold max_int. cbn. lia.
    + left. reflexivity.
    + unfold wf. cbn. lia.
    + reflexivity.
    + left. reflexivity.
  - refine (proj1 (proj2 (proj2
             (C2_single_block_loss ABCD
                (of_bytes (flipbits (bytes (blockB_of ABCD)) [0]))
                _ _ _ _ _)))).
    + unfold max_int. cbn. lia.
    + left. reflexivity.
    + unfold wf. vm_compute. intuition congruence.
    + vm_compute. reflexivity.
    + right. vm_compute. reflexivity.
Defined.

(** ** Order of the arguments (C3) *)

(** C3, as stated, fails: two blocks that both carry order byte 1 (block
    A of two payloads); the one that comes later takes the role, so
    swapping them changes the payload. *)
Lemma C3_order_matters :
  Permutation [blockA_of ACCD; blockA_of ABCD; blockB_of ABCD]
              [blockA_of ABCD; blockA_of ACCD; blockB_of ABCD] /\
  len (blockA_of ABCD) = len (blockA_of ACCD) /\
  len (blockA_of ACCD) = len (blockB_of ABCD) /\
  observe (Decode (blockA_of ABCD) (blockA_of ACCD) (blockB_of ABCD))
  = Returns (Some ACCD, None) /\
  observe (Decode (blockA_of ACCD) (blockA_of ABCD) (blockB_of ABCD))
  = Returns (Some ABCD, None).
Proof.
  split; [apply perm_swap|].
  repeat split; vm_compute; reflexivity.
Qed.

(** C3, amended. For every three byte buffers of one length of which no
    two claim the same role (no two of them validate to the same order
    byte 1, 2 or 3) and every permutation of them, [Decode] yields the
    same payload and the same error or panic on the permuted buffers as
    on the original order; in particular, on every permutation of the
    three blocks of [Encode] it yields the payload the blocks carry and
    no error. *)
Theorem C3_order_independence :
  (forall b1 b2 b3 c1 c2 c3 : slice,
     Permutation [c1; c2; c3] [b1; b2; b3] ->
     len b1 = len b2 -> len b2 = len b3 -> distinct_roles b1 b2 b3 ->
     observe (Decode c1 c2 c3) = observe (Decode b1 b2 b3)) /\
  (forall (p : list byte) (c1 c2 c3 : slice),
     zlen p <= max_int ->
     Encode p = Returns (blockA_of p, blockB_of p, blockX_of p, None) /\
     (Permutation [c1; c2; c3] [blockA_of p; blockB_of p; blockX_of p] ->
      observe (Decode c1 c2 c3) = Returns (Some (carried p), None))).
Proof.
  split.
  - intros b1 b2 b3 c1 c2 c3 P H1 H2 D.
    apply Decode_permutation; [exact P|].
    unfold compatible. split; [|split]; assumption.
  - intros p c1 c2 c3 Hmax. split; [apply Encode_blocks, Hmax|].
    intros P.
    rewrite (Decode_permutation _ _ _ _ _ _ P (compatible_ABX p Hmax)).
    destruct (Decode_ABX p Hmax) as (arrA' & E). rewrite E. reflexivity.
Qed.

(** Two instances: the blocks of "ABCD" rotated and reversed. *)
Lemma C3_order_independence_ABCD :
  observe (Decode (blockX_of ABCD) (blockA_of ABCD) (blockB_of ABCD))
  = observe (Decode (blockA_of ABCD) (blockB_of ABCD) (blockX_of ABCD)) /\
  observe (Decode (blockX_of ABCD) (blockB_of ABCD) (blockA_of ABCD))
  = Returns (Some (carried ABCD), None).
Proof.
  split.
  - apply (proj1 C3_order_independence).
    + apply Permutation_cons_append
        with (l := [blockA_of ABCD; blockB_of ABCD]).
    + reflexivity.
    + reflexivity.
    + unfold distinct_roles. repeat split; intros _; vm_compute; discriminate.
  - apply (proj2 C3_order_independence ABCD).
    + unfold max_int. cbn. lia.
    + apply Permutation_sym, Permutation_rev
        with (l := [blockA_of ABCD; blockB_of ABCD; blockX_of ABCD]).
Defined.

(** ** Unrecoverable inputs (C4) *)

(** C4, as stated, fails: three one-byte buffers are of one length and
    none passes validation, yet [Decode] returns no error: it panics. *)
Lemma C4_one_byte_buffers :
  good_count (of_bytes [Byte.x00]) (of_bytes [Byte.x00]) (of_bytes [Byte.x00])
  = 0%nat /\
  Decode (of_bytes [Byte.x00]) (of_bytes [Byte.x00]) (of_bytes [Byte.x00])
  = Panics.
Proof. split; vm_compute; reflexivity. Qed.

(** C4, amended. For every three buffers of one length, each long enough
    for [validate] to read (at least 4 bytes, with room for the 9 header
    bytes in its backing array), of which at most one passes checksum
    validation, or of which the blocks that pass fill at most one of the
    roles A, B and X, [Decode] returns one of the three
    cannot-reconstruct errors with a nil payload and a nil broken block
    and leaves the buffers as they were; and whenever [Decode] returns an
    error, on any input, it returns no payload and no broken block and
    has written nothing. *)
Theorem C4_unrecoverable (b1 b2 b3 : slice) :
  readable b1 -> readable b2 -> readable b3 ->
  len b1 = len b2 -> len b2 = len b3 ->
  (good_count b1 b2 b3 <= 1)%nat \/ (good_roles b1 b2 b3 <= 1)%nat ->
  (exists e,
     Decode b1 b2 b3
     = Returns ({| result := None; broken := None; err := Some e |},
                (arr b1, arr b2, arr b3))
     /\ unrecoverable e = true) /\
  (forall (c1 c2 c3 : slice) (res : ret) (m : arrays),
     Decode c1 c2 c3 = Returns (res, m) -> err res <> None ->
     result res = None /\ broken res = None /\ m = (arr c1, arr c2, arr c3)).
Proof.
  intros R1 R2 R3 H1 H2 [Hc|Hc]; (split; [|intros c1 c2 c3 res m; apply Decode_error]).
  - apply Decode_unrecoverable; assumption.
  - apply Decode_few_roles; assumption.
Qed.

(** An instance: block A of "ABCD" with two buffers of fifteen zero
    bytes. *)
Lemma C4_unrecoverable_ABCD :
  exists e,
    Decode (blockA_of ABCD) (of_bytes (zeros 15)) (of_bytes (zeros 15))
    = Returns ({| result := None; broken := None; err := Some e |},
               (arr (blockA_of ABCD), zeros 15, zeros 15))
    /\ unrecoverable e = true.
Proof.
  refine (proj1 (C4_unrecoverable (blockA_of ABCD) (of_bytes (zeros 15))
                   (of_bytes (zeros 15)) _ _ _ _ _ _)).
  - unfold readable, wf. vm_compute. intuition congruence.
  - unfold readable, wf. vm_compute. intuition congruence.
  - unfold readable, wf. vm_compute. intuition congruence.
  - reflexivity.
  - reflexivity.
  - left. vm_compute. repeat constructor.
Defined.

(** ** Buffers of different lengths (C5) *)

(** C5. For every three buffers that are not all of one length, [Decode]
    fails with the size-mismatch error and never returns a payload. The
    code does not: its test is [len(block1) != len(block2) &&
    len(block2) != len(block3)], so two blocks of 15 bytes followed by a
    buffer of 16 pass it, and [Decode] returns a payload and no error. *)
Theorem C5_unequal_lengths_accepted :
  len (blockA_of ABCD) = 15 /\ len (blockB_of ABCD) = 15 /\
  len (of_bytes (zeros 16)) = 16 /\
  outcome (Decode (blockA_of ABCD) (blockB_of ABCD) (of_bytes (zeros 16)))
  = Returns {| result := Some ABCD; broken := Some Slot3; err := None |}.
Proof. repeat split; vm_compute; reflexivity. Qed.

(** ** The input buffers after the call (C6) *)

(** C6. [Decode] leaves its three input buffers byte for byte as they
    were. The code does not: [append(a, b...)] with [a] a slice of block
    A writes the payload of B into the backing array of block A when its
    capacity allows, as it does for the blocks of a four-byte payload
    (capacity 15): bytes 11 and 12 of block A, the first half of its
    checksum field, are overwritten, and block A no longer passes
    validation, so that the next call of the test suite on the same
    buffers, with block B lost, fails. *)
Theorem C6_Decode_overwrites_blockA :
  Encode ABCD
  = Returns (blockA_of ABCD, blockB_of ABCD, blockX_of ABCD, None) /\
  arr (blockA_of ABCD)
  = [Byte.x01; Byte.x00; Byte.x00; Byte.x00; Byte.x00; Byte.x00; Byte.x00;
     Byte.x00; Byte.x02; Byte.x41; Byte.x42; Byte.x00; Byte.xe0; Byte.x00;
     Byte.x87] /\
  Decode (blockA_of ABCD) (blockB_of ABCD) (blockX_of ABCD)
  = Returns
      ({| result := Some ABCD; broken := None; err := None |},
       ([Byte.x01; Byte.x00; Byte.x00; Byte.x00; Byte.x00; Byte.x00; Byte.x00;
         Byte.x00; Byte.x02; Byte.x41; Byte.x42; Byte.x43; Byte.x44; Byte.x00;
         Byte.x87],
        arr (blockB_of ABCD), arr (blockX_of ABCD))) /\
  validate
    (of_bytes
       [Byte.x01; Byte.x00; Byte.x00; Byte.x00; Byte.x00; Byte.x00; Byte.x00;
        Byte.x00; Byte.x02; Byte.x41; Byte.x42; Byte.x43; Byte.x44; Byte.x00;
        Byte.x87])
  = Returns (0, 0, false) /\
  outcome
    (Decode
       (of_bytes
          [Byte.x01; Byte.x00; Byte.x00; Byte.x00; Byte.x00; Byte.x00;
           Byte.x00; Byte.x00; Byte.x02; Byte.x41; Byte.x42; Byte.x43;
           Byte.x44; Byte.x00; Byte.x87])
       (of_bytes (zeros 15)) (blockX_of ABCD))
  = Returns {| result := None; broken := None; err := Some ErrABBad |}.
Proof. repeat split; vm_compute; reflexivity. Qed.

(** ** Block length (C7) *)

(** On every payload the three blocks have one length, [blen + 13]. *)
Theorem Encode_equal_lengths (p : list byte) :
  zlen p <= max_int ->
  exists a b x,
    Encode p = Returns (a, b, x, None) /\
    len a = room p + 13 /\ len b = room p + 13 /\ len x = room p + 13.
Proof.
  intros Hmax. exists (blockA_of p), (blockB_of p), (blockX_of p).
  split; [apply Encode_blocks, Hmax|].
  split; [apply len_A, Hmax|]. split; [apply len_B, Hmax|apply len_X, Hmax].
Qed.

(** An instance: the four bytes "ABCD". *)
Lemma Encode_equal_lengths_ABCD :
  exists a b x,
    Encode ABCD = Returns (a, b, x, None) /\
    len a = room ABCD + 13 /\ len b = room ABCD + 13 /\
    len x = room ABCD + 13.
Proof.
  apply (Encode_equal_lengths ABCD). unfold max_int. cbn. lia.
Defined.

(** C7. The three blocks of [Encode(p)] have one length,
    [ceil(len(p)/2) + 9 + 4]. The code misses the second part: for a
    payload of one byte the blocks are 13 bytes long, not 14, because
    [blen] is raised by one when [len(data)/2] is odd, not when
    [len(data)] is. *)
Theorem C7_block_length_one_byte :
  exists a b x,
    Encode [Byte.x41] = Returns (a, b, x, None) /\
    len a = 13 /\ len b = 13 /\ len x = 13 /\
    (zlen [Byte.x41] + 1) / 2 + (1 + 8) + 4 = 14.
Proof.
  exists (blockA_of [Byte.x41]), (blockB_of [Byte.x41]),
         (blockX_of [Byte.x41]).
  repeat split; vm_compute; reflexivity.
Qed.

(** ** The split of the payload (C8) *)

(** C8. Block A carries [p[0 : len(p)/2]] and block B the rest,
    [p[len(p)/2 :]], so that the two payload slices have [len(p)] bytes
    together. The code does not on a payload of one byte: the rest is
    that byte, and the payload slice of block B is empty, like that of
    block A. *)
Theorem C8_split_one_byte :
  exists a b x,
    Encode [Byte.x41] = Returns (a, b, x, None) /\
    payload_slice a = Returns [] /\
    payload_slice b = Returns [] /\
    List.from (zlen [Byte.x41] / 2) [Byte.x41] = [Byte.x41].
Proof.
  exists (blockA_of [Byte.x41]), (blockB_of [Byte.x41]),
         (blockX_of [Byte.x41]).
  repeat split; vm_compute; reflexivity.
Qed.

(** ** What [validate] returns (C9) *)

(** C9, as stated, fails: a block with order byte 1 and length field 5
    whose checksum field is zero; [validate] returns order 0 and length
    0 with [false], not the header fields. *)
Lemma C9_header_withheld :
  header_order (of_bytes (Byte.x01 :: zeros 7 ++ Byte.x05 :: zeros 9)) = 1 /\
  header_length (of_bytes (Byte.x01 :: zeros 7 ++ Byte.x05 :: zeros 9)) = 5 /\
  validate (of_bytes (Byte.x01 :: zeros 7 ++ Byte.x05 :: zeros 9))
  = Returns (0, 0, false).
Proof. repeat split; vm_compute; reflexivity. Qed.

(** C9, amended. For every block buffer of at least 4 bytes whose backing
    array holds the 9 header bytes, [validate] returns the order byte and
    the declared payload length read from the header, with [true], when
    the recomputed checksum equals the stored one; when it does not,
    [validate] returns order 0, length 0 and [false], whatever the header
    holds. *)
Theorem C9_validate_header (s : slice) :
  wf s -> 4 <= len s -> 9 <= cap s ->
  validate s =
    if checksum_ok s
    then Returns (header_order s, header_length s, true)
    else Returns (0, 0, false).
Proof.
  intros Hwf Hl Hc. rewrite validate_spec by assumption.
  destruct (checksum_ok s); [|reflexivity].
  destruct (Z.leb_spec 9 (cap s)); [reflexivity|lia].
Qed.

(** An instance: block A of "ABCD", order 1 and length 2. *)
Lemma C9_validate_header_ABCD :
  validate (blockA_of ABCD) = Returns (1, 2, true).
Proof.
  rewrite (C9_validate_header (blockA_of ABCD)).
  - vm_compute. reflexivity.
  - unfold wf. vm_compute. intuition congruence.
  - vm_compute. congruence.
  - vm_compute. congruence.
Defined.

(** ** Buffers shorter than a checksum field (C10) *)

(** C10. For every three buffers of one length, each shorter than 4
    bytes, [Decode] returns nothing, no error value either:
    [validate] slices [block[l-4 : l]] outside the buffer and the call
    panics. *)
Theorem C10_short_buffers_panic (b1 b2 b3 : slice) :
  len b1 = len b2 -> len b2 = len b3 ->
  len b1 < 4 -> len b2 < 4 -> len b3 < 4 ->
  Decode b1 b2 b3 = Panics.
Proof.
  intros H1 H2 Hs _ _. apply Decode_short; assumption.
Qed.

(** An instance: three buffers of one byte. *)
Lemma C10_short_buffers_panic_one_byte :
  Decode (of_bytes [Byte.x01]) (of_bytes [Byte.x02]) (of_bytes [Byte.x03])
  = Panics.
Proof.
  apply (C10_short_buffers_panic
           (of_bytes [Byte.x01]) (of_bytes [Byte.x02]) (of_bytes [Byte.x03]));
    cbn; (reflexivity || lia).
Defined.

(** * Further properties of the code *)

(** ** Big-endian fields, both ways *)

Lemma uint32b_le_split (dst : list byte) (u : Z) :
  length dst = 4%nat -> uint32b dst u = rev (le_split 4 u).
Proof.
  intros Hl.
  do 4 (destruct dst as [|? dst]; try discriminate).
  destruct dst; try discriminate. clear Hl.
  rewrite uint32b_4. mask_ones. rewrite !of_Z_field by lia.
  unfold le_split. cbn [rev app]. rewrite !Z.shiftr_shiftr by lia.
  rewrite Z.shiftr_0_r. reflexivity.
Qed.

Lemma shiftl_byte_small32 (b : byte) (k : Z) :
  0 <= k <= 24 -> wrap32 (Z.shiftl (byte.unsigned b) k) = Z.shiftl (byte.unsigned b) k.
Proof.
  intros Hk. unfold wrap32. apply Z.mod_small.
  pose proof (byte.unsigned_range b) as Hb.
  rewrite Z.shiftl_mul_pow2 by lia. split; [nia|].
  apply Z.lt_le_trans with (2 ^ 8 * 2 ^ k); [nia|].
  rewrite <- Z.pow_add_r by lia. apply Z.pow_le_mono_r; lia.
Qed.

Lemma buint32_le_combine (b : list byte) :
  length b = 4%nat -> buint32 b = le_combine (rev b).
Proof.
  intros Hl.
  do 4 (destruct b as [|? b]; try discriminate).
  destruct b; try discriminate. clear Hl.
  rewrite buint32_4. rewrite !shiftl_byte_small32 by lia.
  cbn [rev app]. unfold le_combine.
  rewrite !Z.shiftl_lor, !Z.shiftl_shiftl, !Z.shiftl_0_l, Z.shiftl_0_r by lia.
  rewrite Z.lor_0_l, !Z.lor_0_r. cbn [Z.add Pos.add Pos.succ].
  rewrite <- !Z.lor_assoc. reflexivity.
Qed.

Lemma uint32b_buint32 (dst b : list byte) :
  length dst = 4%nat -> length b = 4%nat -> uint32b dst (buint32 b) = b.
Proof.
  intros Hd Hb. rewrite uint32b_le_split by exact Hd.
  rewrite buint32_le_combine by exact Hb.
  replace 4%nat with (length (rev b)) by (rewrite length_rev; exact Hb).
  rewrite split_le_combine. apply rev_involutive.
Qed.

Lemma uint64b_buint64 (dst b : list byte) :
  length dst = 8%nat -> length b = 8%nat -> uint64b dst (buint64 b) = b.
Proof.
  intros Hd Hb. rewrite uint64b_le_split by exact Hd.
  rewrite buint64_le_combine by exact Hb.
  replace 8%nat with (length (rev b)) by (rewrite length_rev; exact Hb).
  rewrite split_le_combine. apply rev_involutive.
Qed.

Lemma buint32_inj (b b' : list byte) :
  length b = 4%nat -> length b' = 4%nat -> buint32 b = buint32 b' -> b = b'.
Proof.
  intros H H' E.
  rewrite <- (uint32b_buint32 b b H H), <- (uint32b_buint32 b b' H H'), E.
  reflexivity.
Qed.

Lemma uint32b_long (b0 b1 b2 b3 : byte) (rest : list byte) (u : Z) :
  uint32b (b0 :: b1 :: b2 :: b3 :: rest) u = uint32b [b0; b1; b2; b3] u ++ rest.
Proof. reflexivity. Qed.

Lemma buint32_long (b0 b1 b2 b3 : byte) (rest : list byte) :
  buint32 (b0 :: b1 :: b2 :: b3 :: rest) = buint32 [b0; b1; b2; b3].
Proof. reflexivity. Qed.

Lemma uint64b_long (b0 b1 b2 b3 b4 b5 b6 b7 : byte) (rest : list byte) (u : Z) :
  uint64b (b0 :: b1 :: b2 :: b3 :: b4 :: b5 :: b6 :: b7 :: rest) u
  = uint64b [b0; b1; b2; b3; b4; b5; b6; b7] u ++ rest.
Proof. reflexivity. Qed.

Lemma buint64_long (b0 b1 b2 b3 b4 b5 b6 b7 : byte) (rest : list byte) :
  buint64 (b0 :: b1 :: b2 :: b3 :: b4 :: b5 :: b6 :: b7 :: rest)
  = buint64 [b0; b1; b2; b3; b4; b5; b6; b7].
Proof. reflexivity. Qed.

(** A 32-bit value written by [uint32b] into a buffer of at least four
    bytes is read back by [buint32]; the buffer keeps its length and
    every byte after the fourth (the test writes into eight bytes). *)
Theorem uint32b_read_back (dst : list byte) (u : Z) :
  (4 <= length dst)%nat -> 0 <= u < 2 ^ 32 ->
  buint32 (uint32b dst u) = u /\
  length (uint32b dst u) = length dst /\
  List.from 4 (uint32b dst u) = List.from 4 dst.
Proof.
  intros Hl Hu.
  do 4 (destruct dst as [|? dst]; [cbn in Hl; lia|]).
  rewrite uint32b_long. rewrite uint32b_4 at 1. cbn [app].
  rewrite buint32_long. rewrite <- uint32b_4 with (b0 := b) (b1 := b0) (b2 := b1) (b3 := b2).
  split; [apply buint32_uint32b; [reflexivity|exact Hu]|].
  rewrite uint32b_4. split; reflexivity.
Qed.

(** An instance: 0x01234567 in eight zero bytes. *)
Lemma uint32b_read_back_sample :
  buint32 (uint32b (zeros 8) 0x01234567) = 0x01234567 /\
  length (uint32b (zeros 8) 0x01234567) = length (zeros 8) /\
  List.from 4 (uint32b (zeros 8) 0x01234567) = List.from 4 (zeros 8).
Proof.
  apply (uint32b_read_back (zeros 8) 0x01234567); [vm_compute; lia|lia].
Defined.

(** [buint32] reads a 32-bit value out of any four bytes, and [uint32b]
    writes that value back as the same four bytes: no two checksum fields
    read as the same number. *)
Theorem buint32_write_back (dst b : list byte) :
  length dst = 4%nat -> length b = 4%nat ->
  0 <= buint32 b < 2 ^ 32 /\ uint32b dst (buint32 b) = b.
Proof.
  intros Hd Hb. split; [|apply uint32b_buint32; assumption].
  rewrite buint32_le_combine by exact Hb.
  pose proof (le_combine_bound (rev b)) as H.
  rewrite length_rev, Hb in H. exact H.
Qed.

(** An instance: the bytes 01 23 45 67. *)
Lemma buint32_write_back_sample :
  0 <= buint32 [Byte.x01; Byte.x23; Byte.x45; Byte.x67] < 2 ^ 32 /\
  uint32b (zeros 4) (buint32 [Byte.x01; Byte.x23; Byte.x45; Byte.x67])
  = [Byte.x01; Byte.x23; Byte.x45; Byte.x67].
Proof.
  apply (buint32_write_back (zeros 4) [Byte.x01; Byte.x23; Byte.x45; Byte.x67]);
    reflexivity.
Defined.

(** A 64-bit value written by [uint64b] into a buffer of at least eight
    bytes is read back by [buint64]; the buffer keeps its length and
    every byte after the eighth. *)
Theorem uint64b_read_back (dst : list byte) (u : Z) :
  (8 <= length dst)%nat -> 0 <= u < 2 ^ 64 ->
  buint64 (uint64b dst u) = u /\
  length (uint64b dst u) = length dst /\
  List.from 8 (uint64b dst u) = List.from 8 dst.
Proof.
  intros Hl Hu.
  do 8 (destruct dst as [|? dst]; [cbn in Hl; lia|]).
  rewrite uint64b_long. rewrite uint64b_8 at 1. cbn [app].
  rewrite buint64_long.
  rewrite <- uint64b_8 with (b0 := b) (b1 := b0) (b2 := b1) (b3 := b2)
                            (b4 := b3) (b5 := b4) (b6 := b5) (b7 := b6).
  split; [apply buint64_uint64b; [reflexivity|exact Hu]|].
  rewrite uint64b_8. split; reflexivity.
Qed.

(** An instance: 0x0123456789ABCDEF in nine zero bytes. *)
Lemma uint64b_read_back_sample :
  buint64 (uint64b (zeros 9) 0x0123456789ABCDEF) = 0x0123456789ABCDEF /\
  length (uint64b (zeros 9) 0x0123456789ABCDEF) = length (zeros 9) /\
  List.from 8 (uint64b (zeros 9) 0x0123456789ABCDEF) = List.from 8 (zeros 9).
Proof.
  apply (uint64b_read_back (zeros 9) 0x0123456789ABCDEF); [vm_compute; lia|lia].
Defined.

(** [buint64] reads a 64-bit value out of any eight bytes, and [uint64b]
    writes that value back as the same eight bytes. *)
Theorem buint64_write_back (dst b : list byte) :
  length dst = 8%nat -> length b = 8%nat ->
  0 <= buint64 b < 2 ^ 64 /\ uint64b dst (buint64 b) = b.
Proof.
  intros Hd Hb. split; [|apply uint64b_buint64; assumption].
  rewrite buint64_le_combine by exact Hb.
  pose proof (le_combine_bound (rev b)) as H.
  rewrite length_rev, Hb in H. exact H.
Qed.

(** An instance: the bytes 01 23 45 67 89 ab cd ef. *)
Lemma buint64_write_back_sample :
  0 <= buint64 [Byte.x01; Byte.x23; Byte.x45; Byte.x67;
                Byte.x89; Byte.xab; Byte.xcd; Byte.xef] < 2 ^ 64 /\
  uint64b (zeros 8) (buint64 [Byte.x01; Byte.x23; Byte.x45; Byte.x67;
                              Byte.x89; Byte.xab; Byte.xcd; Byte.xef])
  = [Byte.x01; Byte.x23; Byte.x45; Byte.x67;
     Byte.x89; Byte.xab; Byte.xcd; Byte.xef].
Proof.
  apply (buint64_write_back (zeros 8)
           [Byte.x01; Byte.x23; Byte.x45; Byte.x67;
            Byte.x89; Byte.xab; Byte.xcd; Byte.xef]);
    reflexivity.
Defined.

(** ** XOR *)

Lemma xor_loop_map (a b : list byte) :
  xor_loop a b = map (fun p => byte.xor (fst p) (snd p)) (combine a b).
Proof.
  revert b. induction a as [|x a IH]; intros [|y b]; try reflexivity.
  cbn [xor_loop combine map fst snd]. f_equal. apply IH.
Qed.

(** On three slices of one length, [xor] with its 64-bit word loop
    ([fast64bitsXor]) fills [dst] with the byte-wise XOR of [blockA] and
    [blockB], whatever [dst] held and whatever the length is modulo 8. *)
Theorem xor_bytewise (dst blockA blockB : list byte) :
  length blockA = length dst -> length blockB = length dst ->
  xor dst blockA blockB
  = map (fun p => byte.xor (fst p) (snd p)) (combine blockA blockB) /\
  length (xor dst blockA blockB) = length dst.
Proof.
  intros Ha Hb. rewrite xor_xor_loop by assumption. split.
  - apply xor_loop_map.
  - rewrite xor_loop_length; congruence.
Qed.

(** An instance: nine bytes, one byte-loop step and one word. *)
Lemma xor_bytewise_sample :
  xor (zeros 9) (List.repeatz Byte.x0f 9) (List.repeatz Byte.x35 9)
  = map (fun p => byte.xor (fst p) (snd p))
        (combine (List.repeatz Byte.x0f 9) (List.repeatz Byte.x35 9)) /\
  length (xor (zeros 9) (List.repeatz Byte.x0f 9) (List.repeatz Byte.x35 9))
  = length (zeros 9).
Proof.
  apply (xor_bytewise (zeros 9) (List.repeatz Byte.x0f 9)
           (List.repeatz Byte.x35 9)); reflexivity.
Defined.

(** What [TestXOR] checks, for all inputs: from [x = a ^ b], [xor] with
    [b] gives back [a] and [xor] with [a] gives back [b]. *)
Theorem xor_recovers (x recA recB a b : list byte) :
  length a = length b ->
  length x = length a -> length recA = length a -> length recB = length a ->
  xor recA (xor x a b) b = a /\ xor recB (xor x a b) a = b.
Proof.
  intros Hab Hx HrA HrB.
  rewrite (xor_xor_loop x a b) by congruence.
  assert (Hl : length (xor_loop a b) = length a) by (apply xor_loop_length, Hab).
  rewrite !xor_xor_loop by congruence. split.
  - rewrite xor_loop_comm. apply xor_loop_cancel_r. exact Hab.
  - rewrite xor_loop_comm. apply xor_loop_cancel_l. exact Hab.
Qed.

(** The instance of the test. *)
Lemma xor_recovers_hello_bonjour :
  xor (zeros 7) (xor (zeros 7) hello bonjour) bonjour = hello /\
  xor (zeros 7) (xor (zeros 7) hello bonjour) hello = bonjour.
Proof.
  apply (xor_recovers (zeros 7) (zeros 7) (zeros 7) hello bonjour); reflexivity.
Defined.

(** ** Adler-32: the low half is the sum of the bytes *)

Lemma adler_fst_sum (data : list byte) (a b : Z) :
  fst (fold_left adler_step data (a, b)) mod adler_mod
  = (a + byte_sum data) mod adler_mod.
Proof.
  revert a b. induction data as [|x data IH]; intros a b.
  - cbn. rewrite Z.add_0_r. reflexivity.
  - cbn [fold_left byte_sum fold_right]. unfold adler_step at 2. cbn [fst snd].
    rewrite IH. fold (byte_sum data).
    rewrite Z.add_mod_idemp_l by (unfold adler_mod; lia).
    f_equal. lia.
Qed.

Lemma chcksum_low (data : list byte) :
  Z.land (chcksum data) (Z.ones 16) = (1 + byte_sum data) mod adler_mod.
Proof.
  unfold chcksum, adler32. cbv zeta.
  destruct (adler_fold_range data (1, 0)) as [Ha Hb];
    [cbn; unfold adler_mod; lia .. |].
  rewrite <- adler_fst_sum with (b := 0).
  set (st := fold_left adler_step data (1, 0)) in *.
  rewrite (Z.mod_small (fst st)) by exact Ha.
  rewrite Z.land_lor_distr_l.
  replace (Z.land (Z.shiftl (snd st) 16) (Z.ones 16)) with 0.
  2:{ symmetry. apply Z.bits_inj'. intros n Hn.
      rewrite Z.land_spec, Z.shiftl_spec, Z.bits_0 by lia.
      destruct (Z.ltb_spec n 16).
      - rewrite Z.testbit_neg_r by lia. reflexivity.
      - rewrite Z.ones_spec_high by lia. apply andb_false_r. }
  rewrite Z.lor_0_l, Z.land_ones by lia.
  apply Z.mod_small. unfold adler_mod in Ha. lia.
Qed.

(** ** Changing one byte *)

Lemma length_set_byte (l : list byte) (i : Z) (v : byte) :
  0 <= i < zlen l -> length (set_byte l i v) = length l.
Proof.
  intros H. unfold set_byte, store. lens.
Qed.

Lemma set_byte_split (l : list byte) (i : Z) (v : byte) :
  0 <= i < zlen l ->
  l = List.upto i l ++ [nth (Z.to_nat i) l Byte.x00] ++ List.from (i + 1) l.
Proof.
  intros H. unfold List.upto, List.from.
  rewrite <- (firstn_skipn (Z.to_nat i) l) at 1. f_equal.
  replace (Z.to_nat (i + 1)) with (S (Z.to_nat i)) by lia.
  assert (Hn : (Z.to_nat i < length l)%nat) by lia.
  revert Hn. generalize (Z.to_nat i). clear H. intros n.
  revert l. induction n as [|n IH]; intros [|x l] Hn; cbn in Hn; try lia.
  - reflexivity.
  - cbn [skipn nth]. apply IH. lia.
Qed.

Lemma byte_sum_app (l1 l2 : list byte) :
  byte_sum (l1 ++ l2) = byte_sum l1 + byte_sum l2.
Proof.
  induction l1 as [|x l1 IH]; [reflexivity|].
  cbn [app byte_sum fold_right]. fold (byte_sum (l1 ++ l2)) (byte_sum l1).
  rewrite IH. lia.
Qed.

Lemma byte_sum_set_byte (l : list byte) (i : Z) (v : byte) :
  0 <= i < zlen l ->
  byte_sum (set_byte l i v)
  = byte_sum l - byte.unsigned (nth (Z.to_nat i) l Byte.x00) + byte.unsigned v.
Proof.
  intros H. rewrite (set_byte_split l i v H) at 2.
  unfold set_byte, store. rewrite !byte_sum_app.
  change (zlen [v]) with 1. cbn [byte_sum fold_right]. lia.
Qed.

Lemma chcksum_set_byte (l : list byte) (i : Z) (v : byte) :
  0 <= i < zlen l -> v <> nth (Z.to_nat i) l Byte.x00 ->
  chcksum (set_byte l i v) <> chcksum l.
Proof.
  intros H Hv E.
  apply (f_equal (fun z => Z.land z (Z.ones 16))) in E.
  rewrite !chcksum_low, byte_sum_set_byte in E by exact H.
  pose proof (byte.unsigned_range v) as Rv.
  pose proof (byte.unsigned_range (nth (Z.to_nat i) l Byte.x00)) as Ro.
  assert (Hne : byte.unsigned v <> byte.unsigned (nth (Z.to_nat i) l Byte.x00))
    by (intros C; apply Hv, byte.unsigned_inj, C).
  unfold adler_mod in E.
  revert E Rv Ro Hne.
  generalize (byte.unsigned v) (byte.unsigned (nth (Z.to_nat i) l Byte.x00))
             (byte_sum l).
  intros x y s E Rx Ry Hne.
  Z.div_mod_to_equations. lia.
Qed.

Lemma set_byte_app_l (d c : list byte) (i : Z) (v : byte) :
  0 <= i < zlen d -> set_byte (d ++ c) i v = set_byte d i v ++ c.
Proof.
  intros H. unfold set_byte, store. change (zlen [v]) with 1.
  rewrite List.upto_app_discard_r by lia.
  rewrite List.from_app_pushdown_l by lia.
  rewrite <- !app_assoc. reflexivity.
Qed.

Lemma set_byte_app_r (d c : list byte) (i : Z) (v : byte) :
  zlen d <= i -> set_byte (d ++ c) i v = d ++ set_byte c (i - zlen d) v.
Proof.
  intros H. unfold set_byte, store. change (zlen [v]) with 1.
  rewrite List.upto_app_pushdown_r by lia.
  rewrite List.from_app_discard_l by lia.
  rewrite <- app_assoc. do 4 f_equal. lia.
Qed.

Lemma nth_set_byte (l : list byte) (i : Z) (v : byte) :
  0 <= i < zlen l -> nth (Z.to_nat i) (set_byte l i v) Byte.x00 = v.
Proof.
  intros H. unfold set_byte, store.
  rewrite app_nth2. 2:{ autorewrite with len. lia. }
  replace (Z.to_nat i - length (List.upto i l))%nat with 0%nat by lens.
  reflexivity.
Qed.

Lemma checksum_ok_set_byte (s : slice) (i : Z) (v : byte) :
  wf s -> 4 <= len s -> checksum_ok s = true ->
  0 <= i < len s -> v <> nth (Z.to_nat i) (bytes s) Byte.x00 ->
  checksum_ok (of_bytes (set_byte (bytes s) i v)) = false.
Proof.
  intros Hwf Hl Hok Hi Hv.
  pose proof (zlen_bytes s Hwf) as HB.
  unfold checksum_ok, stored_sum, actual_sum in *.
  rewrite bytes_of_bytes. cbn [len of_bytes].
  replace (zlen (set_byte (bytes s) i v)) with (len s)
    by (pose proof (length_set_byte (bytes s) i v); lia).
  apply Z.eqb_eq in Hok. apply Z.eqb_neq.
  revert Hok Hv.
  rewrite (List.split_at_index (bytes s) (len s - 4)).
  set (D := List.upto (len s - 4) (bytes s)).
  set (C := List.from (len s - 4) (bytes s)).
  assert (HD : zlen D = len s - 4) by (subst D; rewrite zlen_upto; lia).
  assert (HC : length C = 4%nat)
    by (subst C; pose proof (zlen_from (len s - 4) (bytes s)); lia).
  rewrite List.upto_app_eq_l, List.from_app_eq_r by exact HD.
  intros Hok Hv.
  destruct (Z.lt_ge_cases i (len s - 4)) as [Hlo|Hhi].
  - rewrite set_byte_app_l by lia.
    rewrite List.upto_app_eq_l, List.from_app_eq_r
      by (pose proof (length_set_byte D i v); lia).
    rewrite Hok. intros E. symmetry in E. revert E.
    apply chcksum_set_byte; [lia|].
    rewrite app_nth1 in Hv by lia. exact Hv.
  - rewrite set_byte_app_r by lia.
    rewrite List.upto_app_eq_l, List.from_app_eq_r by exact HD.
    rewrite <- Hok. intros E.
    apply buint32_inj in E;
      [|rewrite length_set_byte by lia; exact HC|exact HC].
    apply Hv. rewrite app_nth2 by lia.
    replace (Z.to_nat i - length D)%nat with (Z.to_nat (i - zlen D)) by lia.
    rewrite <- E. symmetry. apply nth_set_byte. lia.
Qed.

Lemma passes_checksum (s : slice) :
  wf s -> passes s = true -> 4 <= len s /\ checksum_ok s = true.
Proof.
  intros Hwf Hp. unfold passes in Hp.
  destruct (Z.lt_ge_cases (len s) 4) as [Hs|Hs].
  - rewrite validate_short in Hp by exact Hs. discriminate.
  - split; [exact Hs|]. rewrite validate_spec in Hp by assumption.
    destruct (checksum_ok s); [reflexivity|discriminate].
Qed.

Lemma validate_set_byte (s : slice) (i : Z) (v : byte) :
  wf s -> passes s = true -> 0 <= i < len s ->
  v <> nth (Z.to_nat i) (bytes s) Byte.x00 ->
  validate (of_bytes (set_byte (bytes s) i v)) = Returns (0, 0, false).
Proof.
  intros Hwf Hp Hi Hv. destruct (passes_checksum s Hwf Hp) as [Hl Hok].
  pose proof (zlen_bytes s Hwf) as HB.
  apply validate_bad.
  - apply wf_of_bytes.
  - cbn [len of_bytes]. pose proof (length_set_byte (bytes s) i v). lia.
  - apply checksum_ok_set_byte; assumption.
Qed.

Lemma bit_mask_nonzero (bit : Z) :
  0 <= bit < 8 -> byte.of_Z (Z.shiftl 1 bit) <> Byte.x00.
Proof.
  intros H.
  assert (C : bit = 0 \/ bit = 1 \/ bit = 2 \/ bit = 3 \/ bit = 4 \/ bit = 5
              \/ bit = 6 \/ bit = 7) by lia.
  repeat destruct C as [->|C]; try subst bit; vm_compute; discriminate.
Qed.

Lemma byte_xor_changes (a m : byte) : m <> Byte.x00 -> byte.xor a m <> a.
Proof.
  intros Hm E. apply Hm.
  rewrite <- (byte_xor_cancel_l a m), E.
  apply byte.unsigned_inj. rewrite byte_xor_unsigned, Z.lxor_nilpotent.
  reflexivity.
Qed.

Lemma flipbits_one (b : list byte) (k : Z) : flipbits b [k] = flipbit b k.
Proof. reflexivity. Qed.

Lemma validate_flipbit (s : slice) (k : Z) :
  wf s -> passes s = true -> 0 <= k < 8 * len s ->
  validate (corrupt s [k]) = Returns (0, 0, false) /\
  len (corrupt s [k]) = len s.
Proof.
  intros Hwf Hp Hk. pose proof (zlen_bytes s Hwf) as HB.
  assert (Hi : 0 <= k / 8 < len s) by (Z.div_mod_to_equations; lia).
  assert (Hb : 0 <= k mod 8 < 8) by (apply Z.mod_pos_bound; lia).
  unfold corrupt. rewrite flipbits_one. unfold flipbit. cbv zeta. split.
  - apply validate_set_byte; try assumption.
    apply byte_xor_changes, bit_mask_nonzero, Hb.
  - cbn [len of_bytes].
    pose proof (length_set_byte (bytes s) (k / 8)
      (byte.xor (nth (Z.to_nat (k / 8)) (bytes s) Byte.x00)
                (byte.of_Z (Z.shiftl 1 (k mod 8))))). lia.
Qed.

(** Changing the value of any one byte of a block that passes
    validation, in its header, payload, padding or checksum field, gives
    a block that [validate] rejects. *)
Theorem validate_detects_byte_change (s : slice) (i : Z) (v : byte) :
  wf s -> passes s = true -> 0 <= i < len s ->
  v <> nth (Z.to_nat i) (bytes s) Byte.x00 ->
  validate (of_bytes (set_byte (bytes s) i v)) = Returns (0, 0, false).
Proof. apply validate_set_byte. Qed.

(** An instance: byte 10 of block A of "ABCD" set to 'C'. *)
Lemma validate_detects_byte_change_ABCD :
  validate (of_bytes (set_byte (bytes (blockA_of ABCD)) 10 Byte.x43))
  = Returns (0, 0, false).
Proof.
  apply (validate_detects_byte_change (blockA_of ABCD) 10 Byte.x43).
  - unfold wf. vm_compute. intuition congruence.
  - vm_compute. reflexivity.
  - vm_compute. intuition congruence.
  - vm_compute. discriminate.
Defined.

(** [flipbits] with one bit: flipping any one bit of a block that
    passes validation gives a block of the same length that [validate]
    rejects. *)
Theorem validate_detects_bit_flip (s : slice) (k : Z) :
  wf s -> passes s = true -> 0 <= k < 8 * len s ->
  validate (corrupt s [k]) = Returns (0, 0, false) /\
  len (corrupt s [k]) = len s.
Proof. apply validate_flipbit. Qed.

(** An instance: the last bit of block X of "ABCD". *)
Lemma validate_detects_bit_flip_ABCD :
  validate (corrupt (blockX_of ABCD) [119]) = Returns (0, 0, false) /\
  len (corrupt (blockX_of ABCD) [119]) = len (blockX_of ABCD).
Proof.
  apply (validate_detects_bit_flip (blockX_of ABCD) 119).
  - unfold wf. vm_compute. intuition congruence.
  - vm_compute. reflexivity.
  - vm_compute. intuition congruence.
Defined.

(** ** The length field of the parity block *)

Lemma xor_loop_rev (a b : list byte) :
  length a = length b -> xor_loop (rev a) (rev b) = rev (xor_loop a b).
Proof.
  revert b. induction a as [|x a IH]; intros [|y b] H; try discriminate;
    [reflexivity|].
  injection H as H. cbn [rev xor_loop].
  rewrite xor_loop_app by (rewrite !length_rev; exact H).
  rewrite IH by exact H. reflexivity.
Qed.

Lemma lxor_range (a b n : Z) :
  0 <= n -> 0 <= a < 2 ^ n -> 0 <= b < 2 ^ n -> 0 <= Z.lxor a b < 2 ^ n.
Proof.
  intros Hn [Ha Ha'] [Hb Hb'].
  assert (H0 : 0 <= Z.lxor a b) by (apply Z.lxor_nonneg; tauto).
  split; [exact H0|].
  destruct (Z.eq_dec (Z.lxor a b) 0) as [E|Hne]; [rewrite E; lia|].
  assert (Hpos : 0 < n).
  { destruct (Z.eq_dec n 0) as [->|]; [exfalso|lia].
    change (2 ^ 0) with 1 in *.
    assert (a = 0) by lia. assert (b = 0) by lia. subst. apply Hne. reflexivity. }
  apply Z.log2_lt_pow2; [lia|].
  eapply Z.le_lt_trans; [apply Z.log2_lxor; lia|].
  apply Z.max_lub_lt.
  - destruct (Z.eq_dec a 0) as [->|]; [cbn; lia|]. apply Z.log2_lt_pow2; lia.
  - destruct (Z.eq_dec b 0) as [->|]; [cbn; lia|]. apply Z.log2_lt_pow2; lia.
Qed.

Lemma buint64_xor_fields (a b : Z) :
  0 <= a < 2 ^ 64 -> 0 <= b < 2 ^ 64 ->
  buint64 (xor_loop (be64 a) (be64 b)) = Z.lxor a b.
Proof.
  intros Ha Hb. unfold be64.
  rewrite !uint64b_le_split by reflexivity.
  rewrite xor_loop_rev by (rewrite !length_le_split; reflexivity).
  rewrite buint64_le_combine
    by (rewrite length_rev, xor_loop_length; rewrite !length_le_split; reflexivity).
  rewrite rev_involutive.
  rewrite <- le_xor by (rewrite !length_le_split; reflexivity).
  rewrite length_le_split, !le_combine_split.
  change (Z.of_nat 8 * 8) with 64.
  rewrite (Z.mod_small a), (Z.mod_small b) by assumption.
  apply Z.mod_small. apply lxor_range; [lia|assumption..].
Qed.

(** ** What the blocks of [Encode] hold, for every length *)

Lemma payloadA_prefix (p : list byte) : payloadA p = List.upto (half p) p.
Proof.
  pose proof (half_room p) as (Ha & Hr & Hd).
  unfold payloadA. apply copy_full. rewrite zlen_upto, zlen_zeros. lia.
Qed.

Lemma payloadB_by_length (p : list byte) :
  payloadB p =
    if zlen p mod 4 =? 1 then List.upto (half p) (List.from (half p) p)
    else if zlen p mod 4 =? 2 then List.from (half p) p ++ [Byte.x00]
    else List.from (half p) p.
Proof.
  pose proof (half_room p) as (Ha & Hr & Hd).
  assert (Hm : 0 <= zlen p mod 4 < 4) by (apply Z.mod_pos_bound; lia).
  unfold payloadB.
  destruct (Z.eqb_spec (zlen p mod 4) 1) as [E1|E1];
    [|destruct (Z.eqb_spec (zlen p mod 4) 2) as [E2|E2]].
  - assert (Hroom : room p = half p).
    { unfold room, half in *.
      destruct (Z.eqb_spec ((zlen p / 2) mod 2) 0) as [E|E]; [reflexivity|].
      exfalso. revert E1 E. generalize (zlen p). intros L E1 E.
      Z.div_mod_to_equations. lia. }
    rewrite Hroom. unfold copy.
    assert (Hlen : zlen p = 2 * half p + 1)
      by (unfold half in *; revert E1; generalize (zlen p); intros L E1;
          Z.div_mod_to_equations; lia).
    rewrite zlen_zeros, zlen_from.
    replace (Z.min (Z.max 0 (half p))
               (zlen p - Z.min (Z.max 0 (half p)) (zlen p)))
      with (half p) by lia.
    rewrite (List.from_pastend (zeros (half p))) by (rewrite zlen_zeros; lia).
    apply app_nil_r.
  - assert (Hroom : room p = half p + 1).
    { unfold room, half in *.
      destruct (Z.eqb_spec ((zlen p / 2) mod 2) 0) as [E|E]; [|reflexivity].
      exfalso. revert E2 E. generalize (zlen p). intros L E2 E.
      Z.div_mod_to_equations. lia. }
    assert (Hlen : zlen p = 2 * half p)
      by (unfold half in *; revert E2; generalize (zlen p); intros L E2;
          Z.div_mod_to_equations; lia).
    rewrite Hroom. unfold copy.
    rewrite zlen_zeros, zlen_from.
    replace (Z.min (Z.max 0 (half p + 1))
               (zlen p - Z.min (Z.max 0 (half p)) (zlen p)))
      with (half p) by lia.
    rewrite List.upto_pastend by (rewrite zlen_from; lia).
    rewrite zeros_add by lia.
    rewrite List.from_app_eq_r by (rewrite zlen_zeros; lia).
    reflexivity.
  - apply copy_full. rewrite zlen_from, zlen_zeros.
    rewrite room_exact by lia. lia.
Qed.

Lemma carried_by_length (p : list byte) :
  carried p =
    if zlen p mod 4 =? 1 then List.upto (zlen p - 1) p
    else if zlen p mod 4 =? 2 then p ++ [Byte.x00]
    else p.
Proof.
  pose proof (half_room p) as (Ha & Hr & Hd).
  unfold carried. rewrite payloadA_prefix, payloadB_by_length.
  destruct (Z.eqb_spec (zlen p mod 4) 1) as [E1|E1];
    [|destruct (Z.eqb_spec (zlen p mod 4) 2) as [E2|E2]].
  - assert (Hlen : zlen p - 1 = half p + half p)
      by (unfold half in *; revert E1; generalize (zlen p); intros L E1;
          Z.div_mod_to_equations; lia).
    rewrite Hlen, List.from_upto_comm by lia.
    rewrite <- (List.upto_upto_subsume (half p + half p) (half p) p) by lia.
    symmetry. apply List.split_at_index.
  - rewrite app_assoc. f_equal. symmetry. apply List.split_at_index.
  - symmetry. apply List.split_at_index.
Qed.

Lemma payload_slice_A (p : list byte) :
  zlen p <= max_int -> payload_slice (blockA_of p) = Returns (payloadA p).
Proof.
  intros Hmax. pose proof (bounds p Hmax). pose proof (length_FA p Hmax).
  unfold payload_slice, blockA_of.
  rewrite reslice_of_bytes by lens. cbn [bind].
  rewrite (bytes_mid _ [byte.of_Z 1] (be64 (half p))
             (payloadA p ++ zeros (room p - half p) ++ be32 (chcksum (frameA p))));
    [|unfold seal; rewrite frameA_eq at 1; flat|reflexivity|lens].
  rewrite buint64_be64 by lia. rewrite (wrap_9a p Hmax).
  destruct (payload_of_A p Hmax (zlen (seal (frameA p)))) as (s & E & _ & B);
    [rewrite (zlen_sealed p) by (apply zlen_FA, Hmax); lia|].
  unfold of_bytes. rewrite E. cbn [bind]. rewrite B. reflexivity.
Qed.

Lemma payload_slice_B (p : list byte) :
  zlen p <= max_int -> payload_slice (blockB_of p) = Returns (payloadB p).
Proof.
  intros Hmax. pose proof (bounds p Hmax). pose proof (length_FB p Hmax).
  unfold payload_slice, blockB_of.
  rewrite reslice_of_bytes by lens. cbn [bind].
  rewrite (bytes_mid _ [byte.of_Z 2] (be64 (room p))
             (payloadB p ++ zeros (room p - room p) ++ be32 (chcksum (frameB p))));
    [|unfold seal; rewrite frameB_eq at 1; flat|reflexivity|lens].
  rewrite buint64_be64 by lia. rewrite (wrap_9n p Hmax).
  destruct (payload_of_B p Hmax (zlen (seal (frameB p)))) as (s & E & _ & B);
    [rewrite (zlen_sealed p) by (apply zlen_FB, Hmax); lia|].
  unfold of_bytes. rewrite E. cbn [bind]. rewrite B. reflexivity.
Qed.

Lemma room_by_length (p : list byte) :
  room p = (zlen p + 1) / 2
           + (if zlen p mod 4 =? 1 then -1
              else if zlen p mod 4 =? 2 then 1 else 0).
Proof.
  unfold room, half.
  destruct (Z.eqb_spec ((zlen p / 2) mod 2) 0) as [E|E];
    destruct (Z.eqb_spec (zlen p mod 4) 1) as [E1|E1];
    destruct (Z.eqb_spec (zlen p mod 4) 2) as [E2|E2];
    revert E E1 E2; generalize (zlen p); intros L E E1 E2;
    Z.div_mod_to_equations; lia.
Qed.

(** The three blocks of [Encode] pass validation, with the order bytes
    1, 2 and 3 and the length fields [alen], [blen] and [alen ^ blen]:
    the header of the parity block is the XOR of the other two. *)
Theorem Encode_blocks_validate (p : list byte) :
  zlen p <= max_int ->
  exists a b x,
    Encode p = Returns (a, b, x, None) /\
    validate a = Returns (1, half p, true) /\
    validate b = Returns (2, room p, true) /\
    validate x = Returns (3, Z.lxor (half p) (room p), true).
Proof.
  intros Hmax. pose proof (bounds p Hmax).
  exists (blockA_of p), (blockB_of p), (blockX_of p).
  split; [apply Encode_blocks, Hmax|].
  split; [apply validate_A, Hmax|]. split; [apply validate_B, Hmax|].
  rewrite validate_X by exact Hmax.
  rewrite buint64_xor_fields by lia. reflexivity.
Qed.

(** An instance: the four bytes "ABCD". *)
Lemma Encode_blocks_validate_ABCD :
  exists a b x,
    Encode ABCD = Returns (a, b, x, None) /\
    validate a = Returns (1, half ABCD, true) /\
    validate b = Returns (2, room ABCD, true) /\
    validate x = Returns (3, Z.lxor (half ABCD) (room ABCD), true).
Proof.
  apply (Encode_blocks_validate ABCD). unfold max_int. cbn. lia.
Defined.

(** What the round trip returns, by the length of the payload modulo 4:
    the payload without its last byte (1), the payload followed by a zero
    byte (2), the payload itself (0 and 3); never an error and never a
    broken block. *)
Theorem roundtrip_by_length (p : list byte) :
  zlen p <= max_int ->
  outcome (roundtrip p)
  = Returns {| result := Some (if zlen p mod 4 =? 1
                               then List.upto (zlen p - 1) p
                               else if zlen p mod 4 =? 2
                               then p ++ [Byte.x00]
                               else p);
               broken := None; err := None |}.
Proof.
  intros Hmax. rewrite roundtrip_carried by exact Hmax.
  rewrite carried_by_length. reflexivity.
Qed.

(** An instance: the two bytes "AB" come back as "AB" and a zero byte. *)
Lemma roundtrip_by_length_AB :
  outcome (roundtrip [Byte.x41; Byte.x42])
  = Returns {| result := Some (if zlen [Byte.x41; Byte.x42] mod 4 =? 1
                               then List.upto (zlen [Byte.x41; Byte.x42] - 1)
                                      [Byte.x41; Byte.x42]
                               else if zlen [Byte.x41; Byte.x42] mod 4 =? 2
                               then [Byte.x41; Byte.x42] ++ [Byte.x00]
                               else [Byte.x41; Byte.x42]);
               broken := None; err := None |}.
Proof.
  apply (roundtrip_by_length [Byte.x41; Byte.x42]). unfold max_int. cbn. lia.
Defined.

(** The payload slices of the two data blocks of [Encode]: block A
    carries [p[0 : len(p)/2]]; block B carries the rest, cut by one byte
    when [len(p)] is 1 modulo 4 and followed by a zero byte when it is 2
    modulo 4. *)
Theorem Encode_payload_slices (p : list byte) :
  zlen p <= max_int ->
  exists a b x,
    Encode p = Returns (a, b, x, None) /\
    payload_slice a = Returns (List.upto (half p) p) /\
    payload_slice b
    = Returns (if zlen p mod 4 =? 1
               then List.upto (half p) (List.from (half p) p)
               else if zlen p mod 4 =? 2
               then List.from (half p) p ++ [Byte.x00]
               else List.from (half p) p).
Proof.
  intros Hmax. exists (blockA_of p), (blockB_of p), (blockX_of p).
  split; [apply Encode_blocks, Hmax|].
  rewrite payload_slice_A, payload_slice_B by exact Hmax.
  rewrite payloadA_prefix, payloadB_by_length. split; reflexivity.
Qed.

(** An instance: the four bytes "ABCD". *)
Lemma Encode_payload_slices_ABCD :
  exists a b x,
    Encode ABCD = Returns (a, b, x, None) /\
    payload_slice a = Returns (List.upto (half ABCD) ABCD) /\
    payload_slice b
    = Returns (if zlen ABCD mod 4 =? 1
               then List.upto (half ABCD) (List.from (half ABCD) ABCD)
               else if zlen ABCD mod 4 =? 2
               then List.from (half ABCD) ABCD ++ [Byte.x00]
               else List.from (half ABCD) ABCD).
Proof.
  apply (Encode_payload_slices ABCD). unfold max_int. cbn. lia.
Defined.

(** The three blocks of [Encode] have one length: [ceil(len(p)/2)] plus
    the 13 bytes of header and checksum, one byte less when [len(p)] is 1
    modulo 4 and one byte more when it is 2 modulo 4. *)
Theorem Encode_block_length (p : list byte) :
  zlen p <= max_int ->
  exists a b x,
    Encode p = Returns (a, b, x, None) /\
    len a = len b /\ len b = len x /\
    len a = (zlen p + 1) / 2 + (1 + 8) + 4
            + (if zlen p mod 4 =? 1 then -1
               else if zlen p mod 4 =? 2 then 1 else 0).
Proof.
  intros Hmax. exists (blockA_of p), (blockB_of p), (blockX_of p).
  split; [apply Encode_blocks, Hmax|].
  rewrite (len_A p Hmax), (len_B p Hmax), (len_X p Hmax).
  split; [reflexivity|]. split; [reflexivity|].
  rewrite room_by_length. lia.
Qed.

(** An instance: the two bytes "AB", blocks of 15 bytes. *)
Lemma Encode_block_length_AB :
  exists a b x,
    Encode [Byte.x41; Byte.x42] = Returns (a, b, x, None) /\
    len a = len b /\ len b = len x /\
    len a = (zlen [Byte.x41; Byte.x42] + 1) / 2 + (1 + 8) + 4
            + (if zlen [Byte.x41; Byte.x42] mod 4 =? 1 then -1
               else if zlen [Byte.x41; Byte.x42] mod 4 =? 2 then 1 else 0).
Proof.
  apply (Encode_block_length [Byte.x41; Byte.x42]). unfold max_int. cbn. lia.
Defined.

(** Without their checksum fields, the parity block of [Encode] is the
    byte-wise XOR of block A and block B. *)
Theorem Encode_parity (p : list byte) :
  zlen p <= max_int ->
  exists a b x,
    Encode p = Returns (a, b, x, None) /\
    List.upto (len x - 4) (bytes x)
    = map (fun q => byte.xor (fst q) (snd q))
          (combine (List.upto (len a - 4) (bytes a))
                   (List.upto (len b - 4) (bytes b))).
Proof.
  intros Hmax. exists (blockA_of p), (blockB_of p), (blockX_of p).
  split; [apply Encode_blocks, Hmax|].
  rewrite (len_A p Hmax), (len_B p Hmax), (len_X p Hmax).
  unfold blockA_of, blockB_of, blockX_of. rewrite !bytes_of_bytes.
  unfold seal.
  rewrite !List.upto_app_eq_l
    by (rewrite ?(zlen_FA p Hmax), ?(zlen_FB p Hmax), ?(zlen_FX p Hmax); lia).
  unfold frameX. apply xor_loop_map.
Qed.

(** An instance: the four bytes "ABCD". *)
Lemma Encode_parity_ABCD :
  exists a b x,
    Encode ABCD = Returns (a, b, x, None) /\
    List.upto (len x - 4) (bytes x)
    = map (fun q => byte.xor (fst q) (snd q))
          (combine (List.upto (len a - 4) (bytes a))
                   (List.upto (len b - 4) (bytes b))).
Proof.
  apply (Encode_parity ABCD). unfold max_int. cbn. lia.
Defined.

(** A buffer of at least four bytes that holds only zeros never
    passes validation: the Adler-32 checksum of zero bytes is not zero. *)
Theorem validate_rejects_zeros (s : slice) :
  wf s -> 4 <= len s -> bytes s = zeros (len s) ->
  validate s = Returns (0, 0, false).
Proof.
  intros Hwf Hl Hz. apply validate_bad; [exact Hwf|exact Hl|].
  apply checksum_ok_zeros; assumption.
Qed.

(** An instance: fifteen zero bytes. *)
Lemma validate_rejects_zeros_15 :
  validate (of_bytes (zeros 15)) = Returns (0, 0, false).
Proof.
  apply (validate_rejects_zeros (of_bytes (zeros 15))).
  - apply wf_of_bytes.
  - vm_compute. discriminate.
  - reflexivity.
Defined.

(** ** Any two blocks, in any order *)

Section Lost.

Variable p : list byte.
Hypothesis Hmax : zlen p <= max_int.
Variable z : slice.
Hypothesis Hz : validate z = Returns (0, 0, false).
Hypothesis Hl : len z = len (blockA_of p).

Lemma compatible_zBX : compatible z (blockB_of p) (blockX_of p).
Proof.
  unfold compatible, distinct_roles, takes_role, order_of.
  rewrite Hl, (len_A p Hmax), (len_B p Hmax), (len_X p Hmax).
  rewrite Hz, (validate_B p Hmax), (validate_X p).
  repeat split; intros; discriminate.
Qed.

Lemma compatible_AzX : compatible (blockA_of p) z (blockX_of p).
Proof.
  unfold compatible, distinct_roles, takes_role, order_of.
  rewrite Hl, (len_A p Hmax), (len_X p Hmax).
  rewrite Hz, (validate_A p Hmax), (validate_X p).
  repeat split; intros; discriminate.
Qed.

Lemma compatible_ABz : compatible (blockA_of p) (blockB_of p) z.
Proof.
  unfold compatible, distinct_roles, takes_role, order_of.
  rewrite Hl, (len_A p Hmax), (len_B p Hmax).
  rewrite Hz, (validate_A p Hmax), (validate_B p Hmax).
  repeat split; intros; discriminate.
Qed.

Lemma Decode_two_of_three (c1 c2 c3 : slice) :
  Permutation [c1; c2; c3] [z; blockB_of p; blockX_of p] \/
  Permutation [c1; c2; c3] [blockA_of p; z; blockX_of p] \/
  Permutation [c1; c2; c3] [blockA_of p; blockB_of p; z] ->
  observe (Decode c1 c2 c3) = Returns (Some (carried p), None).
Proof.
  intros [P|[P|P]].
  - rewrite (Decode_permutation _ _ _ _ _ _ P compatible_zBX).
    rewrite (Decode_zBX p Hmax z Hz Hl). reflexivity.
  - rewrite (Decode_permutation _ _ _ _ _ _ P compatible_AzX).
    destruct (Decode_AzX p Hmax z Hz Hl) as (arrA' & E). rewrite E. reflexivity.
  - rewrite (Decode_permutation _ _ _ _ _ _ P compatible_ABz).
    destruct (Decode_ABz p Hmax z Hz Hl) as (arrA' & E). rewrite E. reflexivity.
Qed.

End Lost.

(** Two of three, in any order: when one of the three blocks of a
    payload that [Encode] frames whole is replaced by a buffer of the same
    length that fails validation, [Decode] returns the payload and no
    error on every permutation of the three buffers. *)
Theorem Decode_any_two_any_order (p : list byte) (z c1 c2 c3 : slice) :
  zlen p <= max_int -> zlen p mod 4 = 0 \/ zlen p mod 4 = 3 ->
  validate z = Returns (0, 0, false) -> len z = len (blockA_of p) ->
  Permutation [c1; c2; c3] [z; blockB_of p; blockX_of p] \/
  Permutation [c1; c2; c3] [blockA_of p; z; blockX_of p] \/
  Permutation [c1; c2; c3] [blockA_of p; blockB_of p; z] ->
  Encode p = Returns (blockA_of p, blockB_of p, blockX_of p, None) /\
  observe (Decode c1 c2 c3) = Returns (Some p, None).
Proof.
  intros Hmax Hm Hz Hl P. split; [apply Encode_blocks, Hmax|].
  rewrite (Decode_two_of_three p Hmax z Hz Hl c1 c2 c3 P).
  rewrite carried_exact by (apply room_exact, Hm). reflexivity.
Qed.

(** An instance: block X, fifteen zero bytes, block A. *)
Lemma Decode_any_two_any_order_ABCD :
  Encode ABCD = Returns (blockA_of ABCD, blockB_of ABCD, blockX_of ABCD, None) /\
  observe (Decode (blockX_of ABCD) (of_bytes (zeros 15)) (blockA_of ABCD))
  = Returns (Some ABCD, None).
Proof.
  apply (Decode_any_two_any_order ABCD (of_bytes (zeros 15))).
  - unfold max_int. cbn. lia.
  - left. reflexivity.
  - vm_compute. reflexivity.
  - reflexivity.
  - right. left.
    apply Permutation_sym, Permutation_rev
      with (l := [blockA_of ABCD; of_bytes (zeros 15); blockX_of ABCD]).
Defined.

(** ** One flipped bit *)

Lemma passes_A (p : list byte) : zlen p <= max_int -> passes (blockA_of p) = true.
Proof. intros H. unfold passes. rewrite validate_A by exact H. reflexivity. Qed.

Lemma passes_B (p : list byte) : zlen p <= max_int -> passes (blockB_of p) = true.
Proof. intros H. unfold passes. rewrite validate_B by exact H. reflexivity. Qed.

Lemma passes_X (p : list byte) : zlen p <= max_int -> passes (blockX_of p) = true.
Proof. intros H. unfold passes. rewrite validate_X by exact H. reflexivity. Qed.

(** One flipped bit, anywhere in any one of the three blocks of a
    payload that [Encode] frames whole: [Decode] returns the payload and
    hands back the block with the flipped bit as the broken one. *)
Theorem Decode_survives_bit_flip (p : list byte) (k : Z) :
  zlen p <= max_int -> zlen p mod 4 = 0 \/ zlen p mod 4 = 3 ->
  0 <= k < 8 * len (blockA_of p) ->
  Encode p = Returns (blockA_of p, blockB_of p, blockX_of p, None) /\
  outcome (Decode (corrupt (blockA_of p) [k]) (blockB_of p) (blockX_of p))
  = Returns {| result := Some p; broken := Some Slot1; err := None |} /\
  outcome (Decode (blockA_of p) (corrupt (blockB_of p) [k]) (blockX_of p))
  = Returns {| result := Some p; broken := Some Slot2; err := None |} /\
  outcome (Decode (blockA_of p) (blockB_of p) (corrupt (blockX_of p) [k]))
  = Returns {| result := Some p; broken := Some Slot3; err := None |}.
Proof.
  intros Hmax Hm Hk.
  pose proof (carried_exact p (room_exact p Hm)) as Hc.
  pose proof (len_A p Hmax) as LA. pose proof (len_B p Hmax) as LB.
  pose proof (len_X p Hmax) as LX.
  split; [apply Encode_blocks, Hmax|].
  split; [|split].
  - destruct (validate_flipbit (blockA_of p) k) as [V L];
      [apply wf_of_bytes|apply passes_A, Hmax|exact Hk|].
    rewrite (Decode_zBX p Hmax _ V L), Hc. reflexivity.
  - destruct (validate_flipbit (blockB_of p) k) as [V L];
      [apply wf_of_bytes|apply passes_B, Hmax|lia|].
    destruct (Decode_AzX p Hmax _ V) as (arrA' & E); [lia|].
    rewrite E, Hc. reflexivity.
  - destruct (validate_flipbit (blockX_of p) k) as [V L];
      [apply wf_of_bytes|apply passes_X, Hmax|lia|].
    destruct (Decode_ABz p Hmax _ V) as (arrA' & E); [lia|].
    rewrite E, Hc. reflexivity.
Qed.

(** An instance: bit 77 of each block of "ABCD". *)
Lemma Decode_survives_bit_flip_ABCD :
  Encode ABCD = Returns (blockA_of ABCD, blockB_of ABCD, blockX_of ABCD, None) /\
  outcome (Decode (corrupt (blockA_of ABCD) [77]) (blockB_of ABCD) (blockX_of ABCD))
  = Returns {| result := Some ABCD; broken := Some Slot1; err := None |} /\
  outcome (Decode (blockA_of ABCD) (corrupt (blockB_of ABCD) [77]) (blockX_of ABCD))
  = Returns {| result := Some ABCD; broken := Some Slot2; err := None |} /\
  outcome (Decode (blockA_of ABCD) (blockB_of ABCD) (corrupt (blockX_of ABCD) [77]))
  = Returns {| result := Some ABCD; broken := Some Slot3; err := None |}.
Proof.
  apply (Decode_survives_bit_flip ABCD 77).
  - unfold max_int. cbn. lia.
  - left. reflexivity.
  - vm_compute. intuition congruence.
Defined.

(** ** The error returns *)

Lemma reassemble_sizes (blocklen : Z) (br : option slot) (r : roles)
    (m m' : arrays) (res : ret) :
  reassemble blocklen br r m = Returns (res, m') ->
  err res <> Some ErrDifferentSizes /\ (err res = None <-> result res <> None).
Proof.
  unfold reassemble, fail.
  repeat match goal with
         | |- context [if ?c then _ else _] => destruct c
         | |- context [bind ?c _] => destruct c; cbn [bind]
         end;
    intros E; try discriminate E; injection E as <- <-; cbn [err result broken];
    (split; [discriminate|split; intros H; congruence]).
Qed.

(** The size-mismatch error: [Decode] returns it, with no payload,
    without reading a block and without a panic, when [len(block1) !=
    len(block2)] and [len(block2) != len(block3)]; and it returns it
    in no other case. *)
Theorem Decode_size_error (b1 b2 b3 : slice) :
  (len b1 <> len b2 /\ len b2 <> len b3 ->
   Decode b1 b2 b3
   = Returns ({| result := None; broken := None;
                 err := Some ErrDifferentSizes |},
              (arr b1, arr b2, arr b3))) /\
  (forall (res : ret) (m : arrays),
     Decode b1 b2 b3 = Returns (res, m) ->
     err res = Some ErrDifferentSizes ->
     len b1 <> len b2 /\ len b2 <> len b3).
Proof.
  unfold Decode. cbv zeta. split.
  - intros [H1 H2].
    destruct (Z.eqb_spec (len b1) (len b2)); [contradiction|].
    destruct (Z.eqb_spec (len b2) (len b3)); [contradiction|]. reflexivity.
  - intros res m.
    destruct (Z.eqb_spec (len b1) (len b2)) as [E1|E1];
      destruct (Z.eqb_spec (len b2) (len b3)) as [E2|E2]; cbn [negb andb];
      try (intros _ _; split; assumption);
      (destruct (validate b1) as [|[[p1 l1] g1]]; [discriminate|];
       destruct (validate b2) as [|[[p2 l2] g2]]; [discriminate|];
       destruct (validate b3) as [|[[p3 l3] g3]]; [discriminate|];
       cbn [bind]; intros E Herr; exfalso;
       apply (proj1 (reassemble_sizes _ _ _ _ _ _ E)); exact Herr).
Qed.

(** The instance of [TestCantDecodeBadBlocks]: buffers of 1, 2 and 3
    bytes. *)
Lemma Decode_size_error_1_2_3 :
  Decode (of_bytes (zeros 1)) (of_bytes (zeros 2)) (of_bytes (zeros 3))
  = Returns ({| result := None; broken := None;
                err := Some ErrDifferentSizes |},
             (zeros 1, zeros 2, zeros 3)).
Proof.
  apply (proj1 (Decode_size_error (of_bytes (zeros 1)) (of_bytes (zeros 2))
                  (of_bytes (zeros 3)))).
  split; vm_compute; discriminate.
Defined.

(** Whenever [Decode] returns, it returns a payload exactly when it
    returns no error, and a broken block only with a payload. *)
Theorem Decode_payload_or_error (b1 b2 b3 : slice) (res : ret) (m : arrays) :
  Decode b1 b2 b3 = Returns (res, m) ->
  (err res = None <-> result res <> None) /\
  (broken res <> None -> err res = None).
Proof.
  intros E. split.
  - revert E. unfold Decode. cbv zeta.
    destruct (negb (len b1 =? len b2) && negb (len b2 =? len b3)).
    + unfold fail. intros E; injection E as <- <-. cbn. split; congruence.
    + destruct (validate b1) as [|[[p1 l1] g1]]; [discriminate|].
      destruct (validate b2) as [|[[p2 l2] g2]]; [discriminate|].
      destruct (validate b3) as [|[[p3 l3] g3]]; [discriminate|].
      cbn [bind]. intros E. apply (reassemble_sizes _ _ _ _ _ _ E).
  - intros Hb. destruct (err res) as [e|] eqn:He; [|reflexivity].
    exfalso. apply Hb.
    apply (Decode_error b1 b2 b3 m res E). rewrite He. discriminate.
Qed.

(** An instance: blocks A and B of "ABCD" with fifteen zero bytes. *)
Lemma Decode_payload_or_error_ABCD :
  (err {| result := Some ABCD; broken := Some Slot3; err := None |} = None <->
   result {| result := Some ABCD; broken := Some Slot3; err := None |} <> None) /\
  (broken {| result := Some ABCD; broken := Some Slot3; err := None |} <> None ->
   err {| result := Some ABCD; broken := Some Slot3; err := None |} = None).
Proof.
  apply (Decode_payload_or_error (blockA_of ABCD) (blockB_of ABCD)
           (of_bytes (zeros 15))
           {| result := Some ABCD; broken := Some Slot3; err := None |}
           ([Byte.x01; Byte.x00; Byte.x00; Byte.x00; Byte.x00; Byte.x00; Byte.x00;
             Byte.x00; Byte.x02; Byte.x41; Byte.x42; Byte.x43; Byte.x44; Byte.x00;
             Byte.x87], arr (blockB_of ABCD), zeros 15)).
  vm_compute. reflexivity.
Defined.

(** ** What [Decode] writes *)

Lemma reslice_inv (s a : slice) (lo hi : Z) :
  reslice s lo hi = Returns a ->
  a = {| arr := arr s; off := off s + lo; len := hi - lo |} /\
  0 <= lo <= hi /\ hi <= cap s.
Proof.
  unfold reslice.
  destruct (Z.leb_spec 0 lo); [|discriminate].
  destruct (Z.leb_spec lo hi); [|discriminate].
  destruct (Z.leb_spec hi (cap s)); [|discriminate].
  cbn [andb]. intros E; injection E as <-. repeat split; assumption.
Qed.








(** ** Blocks too long for [append] to write in place *)

Section Large.

Variable data : list byte.
Hypothesis Hmax : zlen data <= max_int.
Hypothesis Hbig : 10 <= zlen data.

Lemma half_big : 4 < half data.
Proof. unfold half. Z.div_mod_to_equations. lia. Qed.

Lemma no_room (s : slice) (k : Z) (src : list byte) :
  reslice {| arr := seal (frameA data); off := 0; len := k |} 9 (9 + half data)
  = Returns s ->
  zlen src = room data ->
  after_append s src = seal (frameA data).
Proof.
  intros E Hs. apply reslice_inv in E. destruct E as (-> & _ & _).
  pose proof half_big. pose proof (bounds data Hmax).
  unfold after_append, fits, cap. cbn [arr off len].
  rewrite (zlen_sealed data) by (apply zlen_FA, Hmax).
  destruct (Z.leb_spec (9 + half data - 9 + zlen src) (room data + 13 - (0 + 9)));
    [lia|reflexivity].
Qed.

Lemma reassemble_AB_large (blocklen : Z) (br : option slot) (r : roles)
    (m : arrays) :
  blockA r = blockA_of data -> agood r = true -> alen r = half data ->
  blockB r = blockB_of data -> bgood r = true -> blen r = room data ->
  reassemble blocklen br r m
  = Returns ({| result := Some (carried data);
                broken := if xgood r then None else br; err := None |},
             write_back m (slotA r) (seal (frameA data))).
Proof.
  intros HA Hag Hal HB Hbg Hbl. pose proof (bounds data Hmax).
  unfold reassemble. rewrite HA, Hag, Hal, HB, Hbg, Hbl.
  cbn [negb andb]. rewrite (wrap_9a data Hmax), (wrap_9n data Hmax).
  destruct (payload_of_A data Hmax (zlen (seal (frameA data))))
    as (sa & Ea & Wa & Ba);
    [rewrite (zlen_sealed data) by (apply zlen_FA, Hmax); lia|].
  destruct (payload_of_B data Hmax (zlen (seal (frameB data))))
    as (sb & Eb & Wb & Bb);
    [rewrite (zlen_sealed data) by (apply zlen_FB, Hmax); lia|].
  unfold blockA_of, blockB_of, of_bytes.
  rewrite Ea, Eb.
  assert (Hn : after_append sa (bytes sb) = seal (frameA data)).
  { apply (no_room sa _ _ Ea). rewrite Bb.
    pose proof (length_payloadB data). lia. }
  destruct (xgood r); cbn [bind negb];
    rewrite Hn, bytes_append, Ba, Bb by exact Wa; reflexivity.
Qed.

Lemma reassemble_AX_large (br : option slot) (r : roles) (m : arrays) :
  blockA r = blockA_of data -> agood r = true -> alen r = half data ->
  bgood r = false ->
  blockX r = blockX_of data -> xgood r = true ->
  reassemble (room data + 13) br r m
  = Returns ({| result := Some (carried data); broken := br; err := None |},
             write_back m (slotA r) (seal (frameA data))).
Proof.
  intros HA Hag Hal Hbg HX Hxg. pose proof (bounds data Hmax).
  unfold reassemble. rewrite HA, Hag, Hal, Hbg, HX, Hxg.
  cbn [negb andb]. rewrite (wrap_9a data Hmax).
  rewrite make_zeros by lia. cbn [bind].
  destruct (frame_of data Hmax (frameA data) (zlen_FA data Hmax)) as [Ea Ba].
  destruct (frame_of data Hmax (frameX data) (zlen_FX data Hmax)) as [Ex Bx].
  unfold blockA_of, blockX_of.
  rewrite Ea, Ex. cbn [bind]. rewrite Ba, Bx, bytes_of_bytes.
  rewrite xor_xor_loop
    by (rewrite ?(length_FA data Hmax), ?(length_FX data Hmax), length_zeros;
        f_equal; lia).
  rewrite (rebuild_B data Hmax).
  rewrite fill_make by (rewrite (zlen_FB data Hmax); lia).
  destruct (field_of_FB data Hmax) as (h & Eh & Hh). rewrite Eh. cbn [bind].
  rewrite Hh, (wrap_9n data Hmax).
  destruct (payload_of_A data Hmax (room data + 9)) as (sa & Esa & Wa & Bsa);
    [lia|].
  rewrite Esa. cbn [bind].
  destruct (payload_of_FB data Hmax) as (sb & Eb & Wb & Bb). rewrite Eb.
  cbn [bind].
  assert (Hn : after_append sa (bytes sb) = seal (frameA data)).
  { apply (no_room sa _ _ Esa). rewrite Bb.
    pose proof (length_payloadB data). lia. }
  rewrite Hn, bytes_append, Bsa, Bb by exact Wa. reflexivity.
Qed.

Lemma Decode_ABX_large :
  Decode (blockA_of data) (blockB_of data) (blockX_of data)
  = Returns ({| result := Some (carried data); broken := None; err := None |},
             (arr (blockA_of data), arr (blockB_of data), arr (blockX_of data))).
Proof.
  unfold Decode. cbv zeta.
  rewrite (len_A data Hmax), (len_B data Hmax), (len_X data Hmax), Z.eqb_refl.
  cbn [negb andb].
  rewrite (validate_A data Hmax), (validate_B data Hmax), (validate_X data).
  cbn [bind andb assign].
  rewrite reassemble_AB_large by reflexivity. reflexivity.
Qed.

Lemma Decode_AzX_large (z : slice) :
  validate z = Returns (0, 0, false) -> len z = len (blockA_of data) ->
  Decode (blockA_of data) z (blockX_of data)
  = Returns ({| result := Some (carried data); broken := Some Slot2;
                err := None |},
             (arr (blockA_of data), arr z, arr (blockX_of data))).
Proof.
  intros Hz Hl. rewrite (len_A data Hmax) in Hl.
  unfold Decode. cbv zeta.
  rewrite Hl, (len_A data Hmax), (len_X data Hmax), Z.eqb_refl.
  cbn [negb andb].
  rewrite Hz, (validate_A data Hmax), (validate_X data).
  cbn [bind andb assign].
  rewrite reassemble_AX_large by reflexivity. reflexivity.
Qed.

Lemma Decode_ABz_large (z : slice) :
  validate z = Returns (0, 0, false) -> len z = len (blockA_of data) ->
  Decode (blockA_of data) (blockB_of data) z
  = Returns ({| result := Some (carried data); broken := Some Slot3;
                err := None |},
             (arr (blockA_of data), arr (blockB_of data), arr z)).
Proof.
  intros Hz Hl. rewrite (len_A data Hmax) in Hl.
  unfold Decode. cbv zeta.
  rewrite Hl, (len_A data Hmax), (len_B data Hmax), Z.eqb_refl.
  cbn [negb andb].
  rewrite Hz, (validate_A data Hmax), (validate_B data Hmax).
  cbn [bind andb assign].
  rewrite reassemble_AB_large by reflexivity. reflexivity.
Qed.

End Large.

(** For a payload of ten bytes or more, [append] has no room in block A
    (its capacity after the payload is at most the padding and the
    checksum field, [4 + blen - alen] bytes, and block B carries more):
    [Decode] on the blocks of [Encode], all three or with any one of them
    replaced by a buffer that fails validation, leaves every buffer byte
    for byte as it was. *)
Theorem Decode_keeps_large_blocks (p : list byte) (z : slice) :
  zlen p <= max_int -> 10 <= zlen p ->
  validate z = Returns (0, 0, false) -> len z = len (blockA_of p) ->
  Encode p = Returns (blockA_of p, blockB_of p, blockX_of p, None) /\
  Decode (blockA_of p) (blockB_of p) (blockX_of p)
  = Returns ({| result := Some (carried p); broken := None; err := None |},
             (arr (blockA_of p), arr (blockB_of p), arr (blockX_of p))) /\
  Decode z (blockB_of p) (blockX_of p)
  = Returns ({| result := Some (carried p); broken := Some Slot1;
                err := None |},
             (arr z, arr (blockB_of p), arr (blockX_of p))) /\
  Decode (blockA_of p) z (blockX_of p)
  = Returns ({| result := Some (carried p); broken := Some Slot2;
                err := None |},
             (arr (blockA_of p), arr z, arr (blockX_of p))) /\
  Decode (blockA_of p) (blockB_of p) z
  = Returns ({| result := Some (carried p); broken := Some Slot3;
                err := None |},
             (arr (blockA_of p), arr (blockB_of p), arr z)).
Proof.
  intros Hmax Hbig Hz Hl.
  split; [apply Encode_blocks, Hmax|].
  split; [apply Decode_ABX_large; assumption|].
  split; [apply Decode_zBX; assumption|].
  split; [apply Decode_AzX_large; assumption|apply Decode_ABz_large; assumption].
Qed.

(** An instance: twelve bytes, with nineteen zero bytes as the lost
    block. *)
Lemma Decode_keeps_large_blocks_twelve :
  Encode ABCDEFGHIJKL
  = Returns (blockA_of ABCDEFGHIJKL, blockB_of ABCDEFGHIJKL,
             blockX_of ABCDEFGHIJKL, None) /\
  Decode (blockA_of ABCDEFGHIJKL) (blockB_of ABCDEFGHIJKL)
         (blockX_of ABCDEFGHIJKL)
  = Returns ({| result := Some (carried ABCDEFGHIJKL); broken := None;
                err := None |},
             (arr (blockA_of ABCDEFGHIJKL), arr (blockB_of ABCDEFGHIJKL),
              arr (blockX_of ABCDEFGHIJKL))) /\
  Decode (of_bytes (zeros 19)) (blockB_of ABCDEFGHIJKL)
         (blockX_of ABCDEFGHIJKL)
  = Returns ({| result := Some (carried ABCDEFGHIJKL); broken := Some Slot1;
                err := None |},
             (arr (of_bytes (zeros 19)), arr (blockB_of ABCDEFGHIJKL),
              arr (blockX_of ABCDEFGHIJKL))) /\
  Decode (blockA_of ABCDEFGHIJKL) (of_bytes (zeros 19))
         (blockX_of ABCDEFGHIJKL)
  = Returns ({| result := Some (carried ABCDEFGHIJKL); broken := Some Slot2;
                err := None |},
             (arr (blockA_of ABCDEFGHIJKL), arr (of_bytes (zeros 19)),
              arr (blockX_of ABCDEFGHIJKL))) /\
  Decode (blockA_of ABCDEFGHIJKL) (blockB_of ABCDEFGHIJKL)
         (of_bytes (zeros 19))
  = Returns ({| result := Some (carried ABCDEFGHIJKL); broken := Some Slot3;
                err := None |},
             (arr (blockA_of ABCDEFGHIJKL), arr (blockB_of ABCDEFGHIJKL),
              arr (of_bytes (zeros 19)))).
Proof.
  apply (Decode_keeps_large_blocks ABCDEFGHIJKL (of_bytes (zeros 19))).
  - unfold max_int. cbn. lia.
  - cbn. lia.
  - vm_compute. reflexivity.
  - vm_compute. reflexivity.
Defined.

(** ** Flipping bits *)

Lemma set_byte_twice (l : list byte) (i : Z) (v w : byte) :
  0 <= i < zlen l -> set_byte (set_byte l i v) i w = set_byte l i w.
Proof.
  intros H. unfold set_byte at 1 3. unfold store.
  change (zlen [w]) with 1.
  assert (Hu : zlen (List.upto i l) = i) by (rewrite zlen_upto; lia).
  unfold set_byte, store. change (zlen [v]) with 1.
  rewrite List.upto_app_eq_l by exact Hu.
  rewrite List.from_app_discard_l by lia.
  rewrite Hu. replace (i + 1 - i) with 1 by lia.
  reflexivity.
Qed.

Lemma set_byte_same (l : list byte) (i : Z) :
  0 <= i < zlen l -> set_byte l i (nth (Z.to_nat i) l Byte.x00) = l.
Proof. intros H. symmetry. apply (set_byte_split l i Byte.x00 H). Qed.

Lemma byte_xor_cancel_r (a m : byte) : byte.xor (byte.xor a m) m = a.
Proof.
  rewrite (byte_xor_comm a m), (byte_xor_comm (byte.xor m a) m).
  apply byte_xor_cancel_l.
Qed.

Lemma length_flipbit (b : list byte) (k : Z) :
  0 <= k < 8 * zlen b -> length (flipbit b k) = length b.
Proof.
  intros H. unfold flipbit. cbv zeta. apply length_set_byte.
  Z.div_mod_to_equations. lia.
Qed.

Lemma flipbit_twice (b : list byte) (k : Z) :
  0 <= k < 8 * zlen b -> flipbit (flipbit b k) k = b.
Proof.
  intros H.
  assert (Hi : 0 <= k / 8 < zlen b) by (Z.div_mod_to_equations; lia).
  unfold flipbit at 1. cbv zeta.
  unfold flipbit at 2. cbv zeta. rewrite nth_set_byte by exact Hi.
  unfold flipbit. cbv zeta.
  rewrite set_byte_twice by exact Hi.
  rewrite byte_xor_cancel_r. apply set_byte_same, Hi.
Qed.

Lemma flipbits_app (b : list byte) (bits bits' : list Z) :
  flipbits b (bits ++ bits') = flipbits (flipbits b bits) bits'.
Proof. apply fold_left_app. Qed.

(** [flipbits] keeps the length of the buffer, and flipping the same
    bits again restores it. *)
Theorem flipbits_restores (bits : list Z) (b : list byte) :
  Forall (fun k => 0 <= k < 8 * zlen b) bits ->
  length (flipbits b bits) = length b /\
  flipbits (flipbits b bits) (rev bits) = b.
Proof.
  revert b. induction bits as [|k bits IH]; intros b HF; [split; reflexivity|].
  inversion HF as [|? ? Hk HF']; subst.
  assert (Hl : length (flipbit b k) = length b) by (apply length_flipbit, Hk).
  destruct (IH (flipbit b k)) as [IL IU].
  { rewrite Hl. exact HF'. }
  change (flipbits b (k :: bits)) with (flipbits (flipbit b k) bits).
  split; [congruence|].
  cbn [rev]. rewrite flipbits_app, IU.
  apply flipbit_twice, Hk.
Qed.

(** An instance: bits 3, 17 and 30 of "ABCD". *)
Lemma flipbits_restores_ABCD :
  length (flipbits ABCD [3; 17; 30]) = length ABCD /\
  flipbits (flipbits ABCD [3; 17; 30]) (rev [3; 17; 30]) = ABCD.
Proof.
  apply (flipbits_restores [3; 17; 30] ABCD).
  repeat constructor; cbn; lia.
Defined.

(** ** When [validate] panics *)

(** [validate] panics in exactly two cases: the buffer is shorter than
    the checksum field, or the checksum matches and the backing array
    ends before the ninth byte, so that [block[1:9]] is out of range. *)
Theorem validate_panics_iff (s : slice) :
  wf s ->
  (validate s = Panics <-> len s < 4 \/ (checksum_ok s = true /\ cap s < 9)).
Proof.
  intros Hwf. destruct (Z.lt_ge_cases (len s) 4) as [Hs|Hs].
  - rewrite validate_short by exact Hs. split; auto.
  - rewrite validate_spec by assumption.
    destruct (checksum_ok s); [destruct (Z.leb_spec 9 (cap s))|]; split;
      try discriminate; try (intros [?|[? ?]]; try discriminate; lia); auto.
Qed.

(** An instance: the four bytes 00 00 00 01, the checksum of no bytes. *)
Lemma validate_panics_iff_0001 :
  validate (of_bytes [Byte.x00; Byte.x00; Byte.x00; Byte.x01]) = Panics.
Proof.
  apply (proj2 (validate_panics_iff
                  (of_bytes [Byte.x00; Byte.x00; Byte.x00; Byte.x01])
                  (wf_of_bytes _))).
  right. split; vm_compute; reflexivity.
Defined.

(** ** A length field that lies *)

(** [Decode] takes the length field of a block that passes validation
    at its word: when the block validated as A declares a payload that
    ends beyond the capacity of its buffer, and block B is good as
    well, the slice expression [blockA[9 : 9+alen]] is out of range and
    [Decode] panics; it returns no error. *)
Theorem Decode_trusts_length_field (b1 b2 b3 : slice) (l1 l2 p3 l3 : Z)
    (g3 : bool) :
  len b1 = len b2 ->
  validate b1 = Returns (1, l1, true) ->
  validate b2 = Returns (2, l2, true) ->
  validate b3 = Returns (p3, l3, g3) -> p3 <> 1 -> p3 <> 2 ->
  cap b1 < wrap64 (9 + l1) ->
  Decode b1 b2 b3 = Panics.
Proof.
  intros Hl Hv1 Hv2 Hv3 N1 N2 Hc. unfold Decode. cbv zeta.
  rewrite Hl, Z.eqb_refl. cbn [negb andb].
  rewrite Hv1, Hv2, Hv3. cbn [bind assign].
  assert (P : reslice b1 9 (wrap64 (9 + l1)) = Panics)
    by (apply reslice_panics; lia).
  destruct (assign_cases p3) as [->|[->|[->|E]]]; try contradiction;
    rewrite ?E; unfold reassemble; cbn [assign agood bgood xgood blockA alen
                                         negb andb];
    destruct g3; cbn [negb andb]; rewrite P; reflexivity.
Qed.

(** An instance: the overlong block with blocks B and X of the empty
    payload. *)
Lemma Decode_trusts_length_field_overlong :
  Decode overlong (blockB_of []) (blockX_of []) = Panics.
Proof.
  apply (Decode_trusts_length_field overlong (blockB_of []) (blockX_of [])
           100 0 3 0 true).
  - vm_compute. reflexivity.
  - vm_compute. reflexivity.
  - vm_compute. reflexivity.
  - vm_compute. reflexivity.
  - discriminate.
  - discriminate.
  - vm_compute. reflexivity.
Defined.

(** ** The first version: CRC-32 *)

(** The check value of CRC-32. *)
Lemma ChecksumIEEE_digits : V1.ChecksumIEEE digits = 0xCBF43926.
Proof. vm_compute. reflexivity. Qed.

Lemma crc_shift_range (c : Z) : 0 <= c < 2 ^ 32 -> 0 <= V1.crc_shift c < 2 ^ 32.
Proof.
  intros H. unfold V1.crc_shift.
  assert (Hs : 0 <= Z.shiftr c 1 < 2 ^ 32).
  { rewrite Z.shiftr_div_pow2 by lia. change (2 ^ 1) with 2.
    Z.div_mod_to_equations. lia. }
  destruct (Z.testbit c 0); [|exact Hs].
  apply lxor_range; [lia|exact Hs|unfold V1.crc_poly; lia].
Qed.

Lemma crc_update_range (c : Z) (x : byte) :
  0 <= c < 2 ^ 32 -> 0 <= V1.crc_update c x < 2 ^ 32.
Proof.
  intros H. unfold V1.crc_update.
  assert (H0 : 0 <= Z.lxor c (byte.unsigned x) < 2 ^ 32).
  { pose proof (byte.unsigned_range x). apply lxor_range; lia. }
  revert H0. generalize (Z.lxor c (byte.unsigned x)). intros c' H0.
  cbn [Nat.iter nat_rect]. repeat apply crc_shift_range. exact H0.
Qed.

Lemma ChecksumIEEE_range (data : list byte) : 0 <= V1.ChecksumIEEE data < 2 ^ 32.
Proof.
  unfold V1.ChecksumIEEE.
  assert (H : forall c, 0 <= c < 2 ^ 32 ->
                        0 <= fold_left V1.crc_update data c < 2 ^ 32).
  { induction data as [|x data IH]; intros c Hc; [exact Hc|].
    cbn [fold_left]. apply IH, crc_update_range, Hc. }
  apply lxor_range; [lia|apply H; lia|lia].
Qed.

(** ** The byte loop *)

Lemma xor_from_spec (rest b d pre preB : list byte) (i : Z) :
  zlen pre = i -> zlen preB = i ->
  length b = length rest -> length d = length rest ->
  forall postB postD,
  V1.xor_from i rest (preB ++ b ++ postB) (pre ++ d ++ postD)
  = Returns (pre ++ xor_loop rest b ++ postD).
Proof.
  revert b d pre preB i.
  induction rest as [|a rest IH]; intros b d pre preB i Hp HpB Hb Hd postB postD.
  - destruct b; [|discriminate]. destruct d; [|discriminate]. reflexivity.
  - destruct b as [|y b]; [discriminate|]. destruct d as [|w d]; [discriminate|].
    cbn [V1.xor_from xor_loop].
    destruct (Z.ltb_spec i (zlen (preB ++ (y :: b) ++ postB))) as [_|H];
      [|exfalso; revert H; lens].
    destruct (Z.ltb_spec i (zlen (pre ++ (w :: d) ++ postD))) as [_|H];
      [|exfalso; revert H; lens].
    rewrite app_nth2 by lia.
    replace (Z.to_nat i - length preB)%nat with 0%nat by lia.
    cbn [app nth].
    replace (set_byte (pre ++ w :: d ++ postD) i (byte.xor a y))
      with ((pre ++ [byte.xor a y]) ++ d ++ postD).
    2:{ rewrite set_byte_app_r by lia.
        replace (i - zlen pre) with 0 by lia.
        rewrite <- app_assoc. reflexivity. }
    replace (preB ++ y :: b ++ postB) with ((preB ++ [y]) ++ b ++ postB)
      by (rewrite <- app_assoc; reflexivity).
    rewrite (IH b d (pre ++ [byte.xor a y]) (preB ++ [y]) (i + 1));
      try (rewrite length_app; cbn [length]; lia);
      try (cbn [length] in *; lia).
    rewrite <- app_assoc. reflexivity.
Qed.

Lemma V1_xor_loop (dst a b : list byte) :
  length a = length dst -> length b = length dst ->
  V1.xor dst a b = Returns (xor_loop a b).
Proof.
  intros Ha Hb. unfold V1.xor.
  pose proof (xor_from_spec a b dst [] [] 0 eq_refl eq_refl) as H.
  specialize (H ltac:(congruence) ltac:(congruence) [] []).
  cbn [app] in H. rewrite !app_nil_r in H. exact H.
Qed.

(** The word loop of the later version writes what the byte loop of the
    first version wrote. *)
Theorem V1_xor_agrees (dst blockA blockB : list byte) :
  length blockA = length dst -> length blockB = length dst ->
  V1.xor dst blockA blockB = Returns (xor dst blockA blockB).
Proof.
  intros Ha Hb. rewrite V1_xor_loop, xor_xor_loop by assumption. reflexivity.
Qed.

(** The instance of [TestXOR]. *)
Lemma V1_xor_agrees_hello_bonjour :
  V1.xor (zeros 7) hello bonjour = Returns (xor (zeros 7) hello bonjour).
Proof. apply (V1_xor_agrees (zeros 7) hello bonjour); reflexivity. Defined.

(** ** [Encode] of the first version in closed form *)

Lemma wrap32_small (z : Z) : 0 <= z < 2 ^ 32 -> wrap32 z = z.
Proof. apply Z.mod_small. Qed.

Lemma zlen_frame1 (l n : Z) (src : list byte) :
  0 <= l <= n -> zlen (frame1 l src n) = n + 4.
Proof.
  intros H. unfold frame1.
  rewrite !zlen_app, zlen_be32, zlen_copy, !zlen_zeros. lia.
Qed.

Lemma length_frame1 (l n : Z) (src : list byte) :
  0 <= l <= n -> length (frame1 l src n) = Z.to_nat (n + 4).
Proof. intros H. pose proof (zlen_frame1 l n src H). lia. Qed.

Lemma length_seal1 (f : list byte) : length (seal1 f) = (length f + 4)%nat.
Proof. unfold seal1. rewrite length_app, length_be32. reflexivity. Qed.

#[export] Hint Rewrite length_seal1 : len.

Lemma V1_Encode_blocks (data : list byte) :
  zlen data < 2 ^ 32 ->
  V1.Encode data = Returns (block1A data, block1B data, block1X data).
Proof.
  intros Hmax.
  unfold block1A, block1B, block1X.
  pose proof (half_room data) as (Hh & Hr & Hd).
  assert (Hsmall : half data < 2 ^ 31) by lia.
  unfold V1.Encode. cbv zeta.
  fold (half data).
  rewrite (wrap32_small (half data)) by lia.
  replace (if negb (half data mod 2 =? 0) then wrap32 (half data + 1) else half data)
    with (room data)
    by (unfold room; fold (half data); destruct (_ =? 0); cbn [negb];
        [reflexivity | rewrite wrap32_small by lia; reflexivity]).
  replace (if negb (half data mod 2 =? 0) then room data else half data)
    with (room data)
    by (unfold room; fold (half data); destruct (_ =? 0); reflexivity).
  set (a := half data) in *. set (n := room data) in *.
  rewrite (wrap32_small (n + (4 + 4))) by lia.
  replace (n + (4 + 4) - 4) with (n + 4) by lia.
  rewrite (wrap32_small (4 + a)), (wrap32_small (4 + n)), (wrap32_small (n + 4)) by lia.
  rewrite make_zeros by lia. cbn [bind].
  set (L0 := zeros (n + (4 + 4))).
  assert (HLA : L0 = [] ++ zeros 4 ++ zeros a ++ zeros (n - a) ++ zeros 4).
  { subst L0. cbn [app]. rewrite <- !zeros_add by lia. f_equal. lia. }
  assert (HLB : L0 = [] ++ zeros 4 ++ zeros n ++ zeros (n - n) ++ zeros 4).
  { subst L0. cbn [app]. rewrite <- !zeros_add by lia. f_equal. lia. }
  assert (Hn0 : length L0 = Z.to_nat (n + 8)) by (rewrite HLA; lens).
  clearbody L0.
  rewrite !reslice_of_bytes by lia. cbn [bind].
  rd L0 (@nil byte) (zeros 4) (zeros a ++ zeros (n - a) ++ zeros 4).
  fold (be32 a) (be32 n).
  wr L0 (@nil byte) (zeros 4) (zeros a ++ zeros (n - a) ++ zeros 4).
  wr L0 (@nil byte) (zeros 4) (zeros n ++ zeros (n - n) ++ zeros 4).
  clear HLA HLB Hn0 L0. cbn [app].
  rewrite !reslice_of_bytes by lens. cbn [bind].
  set (LA := be32 a ++ zeros a ++ zeros (n - a) ++ zeros 4).
  set (LB := be32 n ++ zeros n ++ zeros (n - n) ++ zeros 4).
  rd LA (be32 a) (zeros a) (zeros (n - a) ++ zeros 4).
  rd LB (be32 n) (zeros n) (zeros (n - n) ++ zeros 4).
  wr LA (be32 a) (zeros a) (zeros (n - a) ++ zeros 4).
  wr LB (be32 n) (zeros n) (zeros (n - n) ++ zeros 4).
  assert (HFA : zlen (frame1A data) = n + 4)
    by (apply (zlen_frame1 a n); lia).
  assert (HFB : zlen (frame1B data) = n + 4)
    by (apply (zlen_frame1 n n); lia).
  unfold frame1X.
  set (FA := frame1A data) in *. set (FB := frame1B data) in *.
  replace (be32 a ++ copy (zeros a) (List.upto a data) ++ zeros (n - a) ++ zeros 4)
    with (FA ++ zeros 4) by (subst FA; unfold frame1A, frame1; fold a n; flat).
  replace (be32 n ++ copy (zeros n) (List.from a data) ++ zeros (n - n) ++ zeros 4)
    with (FB ++ zeros 4) by (subst FB; unfold frame1B, frame1; fold a n; flat).
  clearbody FA FB.
  rewrite !reslice_of_bytes by lens. cbn [bind len of_bytes].
  rewrite !reslice_of_bytes by lens. cbn [bind].
  rd (FA ++ zeros 4) (@nil byte) FA (zeros 4).
  rd (FB ++ zeros 4) (@nil byte) FB (zeros 4).
  rd (FA ++ zeros 4) FA (zeros 4) (@nil byte).
  rd (FB ++ zeros 4) FB (zeros 4) (@nil byte).
  fold (be32 (V1.ChecksumIEEE FA)) (be32 (V1.ChecksumIEEE FB)).
  wr (FA ++ zeros 4) FA (zeros 4) (@nil byte).
  wr (FB ++ zeros 4) FB (zeros 4) (@nil byte).
  rewrite !app_nil_r. fold (seal1 FA) (seal1 FB).
  rewrite !reslice_of_bytes by (unfold seal1; lens). cbn [bind].
  rd (seal1 FA) (@nil byte) FA (be32 (V1.ChecksumIEEE FA)).
  rd (seal1 FB) (@nil byte) FB (be32 (V1.ChecksumIEEE FB)).
  rd LB (@nil byte) (be32 n ++ zeros n ++ zeros (n - n)) (zeros 4).
  rewrite V1_xor_loop by lens. cbn [bind].
  assert (HFX : zlen (xor_loop FA FB) = n + 4)
    by (rewrite zlen_xor_loop; lia).
  set (FX := xor_loop FA FB) in *. clearbody FX.
  wr LB (@nil byte) (be32 n ++ zeros n ++ zeros (n - n)) (zeros 4).
  cbn [app]. clear LA LB.
  rewrite !reslice_of_bytes by lens. cbn [bind len of_bytes].
  rewrite !reslice_of_bytes by lens. cbn [bind].
  rd (FX ++ zeros 4) (@nil byte) FX (zeros 4).
  rd (FX ++ zeros 4) FX (zeros 4) (@nil byte).
  fold (be32 (V1.ChecksumIEEE FX)).
  wr (FX ++ zeros 4) FX (zeros 4) (@nil byte).
  rewrite app_nil_r. reflexivity.
Qed.

(** ** [validate] and [Decode] of the first version on these blocks *)

Lemma V1_validate_seal (fld rest : list byte) :
  zlen fld = 4 ->
  V1.validate (of_bytes (seal1 (fld ++ rest))) = Returns (buint32 fld, true).
Proof.
  intros Hf. unfold V1.validate. cbv zeta. cbn [len of_bytes].
  rewrite !reslice_of_bytes by lens. cbn [bind].
  rewrite (bytes_mid _ (fld ++ rest) (be32 (V1.ChecksumIEEE (fld ++ rest))) []);
    [|unfold seal1; rewrite app_nil_r; reflexivity|lens|lens].
  rewrite (bytes_mid _ [] (fld ++ rest) (be32 (V1.ChecksumIEEE (fld ++ rest))));
    [|reflexivity|reflexivity|lens].
  rewrite buint32_be32 by apply ChecksumIEEE_range.
  rewrite Z.eqb_refl. cbn [negb bind].
  rewrite (bytes_mid _ [] fld (rest ++ be32 (V1.ChecksumIEEE (fld ++ rest))));
    [reflexivity|unfold seal1; flat|reflexivity|lia].
Qed.

Lemma after_append_prefix (a : slice) (src : list byte) :
  0 <= off a -> 0 <= len a ->
  length (after_append a src) = length (arr a) /\
  List.upto (off a + len a) (after_append a src)
  = List.upto (off a + len a) (arr a).
Proof.
  intros Ho Hl. unfold after_append, append, fits, cap.
  destruct (Z.leb_spec (len a + zlen src) (zlen (arr a) - off a)) as [Hf|Hf];
    [|split; reflexivity].
  cbn [arr]. unfold store. split.
  - lens.
  - rewrite List.upto_app_discard_r by (rewrite zlen_upto; lia).
    apply List.upto_upto_subsume. lia.
Qed.

(** The backing array of a slice, cut around its first [k] elements. *)
Lemma arr_cut (s : slice) (k : Z) :
  wf s -> 0 <= k <= len s ->
  exists pre old post,
    arr s = pre ++ old ++ post /\ zlen pre = off s /\ zlen old = k /\
    pre = List.upto (off s) (arr s) /\
    post = List.from (off s + k) (arr s).
Proof.
  intros (Ho & Hl & Hc) Hk.
  exists (List.upto (off s) (arr s)),
         (List.upto k (List.from (off s) (arr s))),
         (List.from (off s + k) (arr s)).
  split; [|split; [|split; [|split; reflexivity]]].
  - rewrite <- (List.from_from (arr s) (off s) k) by lia.
    rewrite <- List.split_at_index. apply List.split_at_index.
  - rewrite zlen_upto. lia.
  - rewrite zlen_upto, zlen_from. lia.
Qed.

Section Encoded1.

Variable data : list byte.
Hypothesis Hmax : zlen data < 2 ^ 32.

Local Abbreviation al := (half data) (only parsing).
Local Abbreviation bl := (room data) (only parsing).
Local Abbreviation FA := (frame1A data) (only parsing).
Local Abbreviation FB := (frame1B data) (only parsing).
Local Abbreviation FX := (frame1X data) (only parsing).
Local Abbreviation bA := (block1A data) (only parsing).
Local Abbreviation bB := (block1B data) (only parsing).
Local Abbreviation bX := (block1X data) (only parsing).

Lemma bounds1 : 0 <= al <= bl /\ bl <= al + 1 /\ bl < 2 ^ 31 + 1.
Proof. pose proof (half_room data). lia. Qed.

Lemma frame1A_eq : FA = be32 al ++ payloadA data ++ zeros (bl - al).
Proof. reflexivity. Qed.

Lemma frame1B_eq : FB = be32 bl ++ payloadB data ++ zeros (bl - bl).
Proof. reflexivity. Qed.

Lemma length_F1A : length FA = Z.to_nat (bl + 4).
Proof. pose proof bounds1. apply (length_frame1 al bl). lia. Qed.

Lemma length_F1B : length FB = Z.to_nat (bl + 4).
Proof. pose proof bounds1. apply (length_frame1 bl bl). lia. Qed.

Lemma length_F1X : length FX = Z.to_nat (bl + 4).
Proof.
  unfold frame1X. rewrite xor_loop_length; [apply length_F1A|].
  rewrite length_F1A, length_F1B. reflexivity.
Qed.

Lemma len_1A : len bA = bl + 8.
Proof. pose proof bounds1. pose proof length_F1A. cbn [len block1A of_bytes]. lens. Qed.

Lemma len_1B : len bB = bl + 8.
Proof. pose proof bounds1. pose proof length_F1B. cbn [len block1B of_bytes]. lens. Qed.

Lemma len_1X : len bX = bl + 8.
Proof. pose proof bounds1. pose proof length_F1X. cbn [len block1X of_bytes]. lens. Qed.

Lemma rebuild1_A : xor_loop FB FX = FA.
Proof.
  unfold frame1X.
  apply xor_loop_cancel_r. rewrite length_F1A, length_F1B. reflexivity.
Qed.

Lemma rebuild1_B : xor_loop FA FX = FB.
Proof.
  unfold frame1X.
  apply xor_loop_cancel_l. rewrite length_F1A, length_F1B. reflexivity.
Qed.

Lemma validate1_A : V1.validate bA = Returns (al, true).
Proof.
  pose proof bounds1. unfold block1A. rewrite frame1A_eq.
  rewrite V1_validate_seal by apply zlen_be32.
  rewrite buint32_be32 by lia. reflexivity.
Qed.

Lemma validate1_B : V1.validate bB = Returns (bl, true).
Proof.
  pose proof bounds1. unfold block1B. rewrite frame1B_eq.
  rewrite V1_validate_seal by apply zlen_be32.
  rewrite buint32_be32 by lia. reflexivity.
Qed.

Lemma validate1_X :
  V1.validate bX = Returns (buint32 (xor_loop (be32 al) (be32 bl)), true).
Proof.
  unfold block1X, frame1X. rewrite frame1A_eq, frame1B_eq.
  rewrite xor_loop_app by (autorewrite with len; reflexivity).
  rewrite V1_validate_seal; [reflexivity|].
  rewrite zlen_xor_loop; rewrite !zlen_be32; reflexivity.
Qed.

Lemma wrap_4a : wrap32 (4 + al) = 4 + al.
Proof. pose proof bounds1. apply wrap32_small. lia. Qed.

Lemma wrap_4n : wrap32 (4 + bl) = 4 + bl.
Proof. pose proof bounds1. apply wrap32_small. lia. Qed.

(** Reading a payload area out of an array that holds a frame from
    position [lo] on. *)
Lemma payload1_A (pre post : list byte) (lo k : Z) :
  zlen pre = lo -> 0 <= lo -> al + 4 <= k -> k <= zlen (FA ++ post) ->
  exists s,
    reslice {| arr := pre ++ FA ++ post; off := lo; len := k |} 4 (4 + al)
    = Returns s
    /\ s = {| arr := pre ++ FA ++ post; off := lo + 4; len := 4 + al - 4 |}
    /\ wf s /\ bytes s = payloadA data.
Proof.
  intros Hp Hlo Hk Hk'. pose proof bounds1. pose proof length_F1A.
  pose proof (length_payloadA data).
  rewrite length_app in Hk'.
  eexists. split; [|split; [reflexivity|split]].
  - apply reslice_ok; [lia|]. unfold cap. cbn [arr off]. lens.
  - unfold wf. cbn [arr off len]. lens.
  - apply (bytes_mid _ (pre ++ be32 al) (payloadA data)
             (zeros (bl - al) ++ post));
      [rewrite frame1A_eq; flat|lens|lens].
Qed.

Lemma payload1_B (pre post : list byte) (lo k : Z) :
  zlen pre = lo -> 0 <= lo -> bl + 4 <= k -> k <= zlen (FB ++ post) ->
  exists s,
    reslice {| arr := pre ++ FB ++ post; off := lo; len := k |} 4 (4 + bl)
    = Returns s
    /\ s = {| arr := pre ++ FB ++ post; off := lo + 4; len := 4 + bl - 4 |}
    /\ wf s /\ bytes s = payloadB data.
Proof.
  intros Hp Hlo Hk Hk'. pose proof bounds1. pose proof length_F1B.
  pose proof (length_payloadB data).
  rewrite length_app in Hk'.
  eexists. split; [|split; [reflexivity|split]].
  - apply reslice_ok; [lia|]. unfold cap. cbn [arr off]. lens.
  - unfold wf. cbn [arr off len]. lens.
  - apply (bytes_mid _ (pre ++ be32 bl) (payloadB data)
             (zeros (bl - bl) ++ post));
      [rewrite frame1B_eq; flat|lens|lens].
Qed.

End Encoded1.

Section Decoded1.

Variable data : list byte.
Hypothesis Hmax : zlen data < 2 ^ 32.

Local Abbreviation al := (half data) (only parsing).
Local Abbreviation bl := (room data) (only parsing).
Local Abbreviation FA := (frame1A data) (only parsing).
Local Abbreviation FB := (frame1B data) (only parsing).
Local Abbreviation FX := (frame1X data) (only parsing).
Local Abbreviation bA := (block1A data) (only parsing).
Local Abbreviation bB := (block1B data) (only parsing).
Local Abbreviation bX := (block1X data) (only parsing).


(** Blocks B and A in place of A and B: the halves come back swapped. *)
Lemma V1_Decode_BA (x : slice) :
  exists arrB',
    V1.Decode bB bA x
    = Returns (Some (payloadB data ++ payloadA data), None,
               (arrB', arr bA, arr x)).
Proof.
  pose proof (bounds1 data Hmax). pose proof (length_F1A data Hmax).
  pose proof (length_F1B data Hmax).
  unfold V1.Decode. cbv zeta.
  rewrite (len_1A data Hmax), (len_1B data Hmax), Z.eqb_refl.
  cbn [negb andb].
  rewrite (validate1_A data Hmax), (validate1_B data Hmax).
  cbn [bind andb]. rewrite (wrap_4a data Hmax), (wrap_4n data Hmax).
  destruct (payload1_A data Hmax [] (be32 (V1.ChecksumIEEE FA)) 0
              (zlen (seal1 FA))) as (sa & Ea & _ & Wa & Ba);
    [reflexivity|lia|lens|unfold seal1; lia|].
  destruct (payload1_B data Hmax [] (be32 (V1.ChecksumIEEE FB)) 0
              (zlen (seal1 FB))) as (sb & Eb & _ & Wb & Bb);
    [reflexivity|lia|lens|unfold seal1; lia|].
  unfold block1A, block1B, of_bytes.
  cbn [app] in Ea, Eb. fold (seal1 FA) in Ea. fold (seal1 FB) in Eb.
  rewrite Ea, Eb. cbn [bind]. eexists.
  rewrite bytes_append, Ba, Bb by exact Wb. reflexivity.
Qed.

(** The first [blocklen - 4] bytes of a whole block are its frame. *)
Lemma frame1_of (f : list byte) :
  zlen f = bl + 4 ->
  reslice (of_bytes (seal1 f)) 0 (bl + 8 - 4)
  = Returns {| arr := seal1 f; off := 0; len := bl + 4 |}
  /\ bytes {| arr := seal1 f; off := 0; len := bl + 4 |} = f.
Proof.
  intros Hf. pose proof (bounds1 data Hmax). split.
  - rewrite reslice_of_bytes by lens. do 2 f_equal; lia.
  - apply (bytes_mid _ [] f (be32 (V1.ChecksumIEEE f))); [reflexivity| |]; lens.
Qed.

Variable z : slice.
Hypothesis Hwf : wf z.
Hypothesis Hz : V1.validate z = Returns (0, false).
Hypothesis Hl : len z = len bA.

(** Block A is lost: its frame is rebuilt inside the buffer given for
    it. *)
Lemma V1_Decode_zBX :
  exists arrZ',
    V1.Decode z bB bX
    = Returns (Some (carried data), None, (arrZ', arr bB, arr bX)) /\
    length arrZ' = length (arr z) /\
    List.upto (off z + (4 + al)) arrZ'
    = List.upto (off z) (arr z) ++ be32 al ++ payloadA data.
Proof.
  pose proof (bounds1 data Hmax) as Hb. pose proof (length_F1A data Hmax) as LA.
  pose proof (length_F1B data Hmax) as LB.
  pose proof (length_F1X data Hmax) as LX.
  pose proof Hwf as (Ho & Hn & Hc).
  rewrite (len_1A data Hmax) in Hl.
  destruct (arr_cut z (bl + 4) Hwf ltac:(lia))
    as (pre & old & post & Harr & Hpre & Hold & Epre & Epost).
  unfold V1.Decode. cbv zeta.
  rewrite Hl, (len_1B data Hmax), (len_1X data Hmax), Z.eqb_refl.
  cbn [negb andb].
  rewrite Hz, (validate1_B data Hmax), (validate1_X data).
  cbn [bind negb andb].
  rewrite reslice_ok by (unfold cap; lia).
  destruct (frame1_of FB) as [Eb Bb]; [lia|].
  destruct (frame1_of FX) as [Ex Bx]; [lia|].
  unfold block1B at 1, block1X at 1. rewrite Eb, Ex. cbn [bind].
  rewrite Bb, Bx. rewrite Z.add_0_r.
  replace (bl + 8 - 4 - 0) with (bl + 4) by lia.
  rewrite (bytes_mid (arr z) pre old post (off z) (bl + 4) Harr Hpre Hold).
  rewrite V1_xor_loop by lia. cbn [bind].
  rewrite (rebuild1_A data Hmax).
  unfold fill. cbn [arr off len]. rewrite Harr.
  rewrite store_mid by lia.
  rewrite reslice_ok by (unfold cap; cbn [arr off]; lens).
  cbn [bind arr off len].
  rewrite (bytes_mid _ pre (be32 al) (payloadA data ++ zeros (bl - al) ++ post));
    [|rewrite frame1A_eq; flat|lia|lens].
  rewrite buint32_be32 by lia.
  rewrite (wrap_4a data Hmax), (wrap_4n data Hmax).
  destruct (payload1_A data Hmax pre post (off z) (bl + 4))
    as (sa & Ea & Sa & Wa & Ba); [lia|lia|lia|lens|].
  rewrite Ea. cbn [bind].
  destruct (payload1_B data Hmax [] (be32 (V1.ChecksumIEEE FB)) 0 (bl + 4))
    as (sb & Esb & _ & Wb & Bsb); [reflexivity|lia|lia|lens|].
  cbn [app] in Esb. fold (seal1 FB) in Esb. rewrite Esb. cbn [bind].
  eexists. split; [rewrite bytes_append, Ba, Bsb by exact Wa; reflexivity|].
  destruct (after_append_prefix sa (payloadB data)) as [L U];
    [rewrite Sa; cbn [off]; lia|rewrite Sa; cbn [len]; lia|].
  subst sa. split.
  - rewrite L. cbn [arr]. lens.
  - cbn [arr off len] in U.
    replace (off z + 4 + (4 + al - 4)) with (off z + (4 + al)) in U by lia.
    rewrite U. rewrite (List.upto_app_eq_l pre (old ++ post) (off z) Hpre).
    rewrite List.upto_app_pushdown_r by lia. f_equal.
    rewrite frame1A_eq, <- !app_assoc.
    rewrite (app_assoc (be32 al)).
    apply List.upto_app_eq_l. pose proof (length_payloadA data). lens.
Qed.

(** Block B is lost: its frame is rebuilt inside the buffer given for
    it. *)
Lemma V1_Decode_AzX :
  exists arrA',
    V1.Decode bA z bX
    = Returns (Some (carried data), None,
               (arrA', store (arr z) (off z) FB, arr bX)).
Proof.
  pose proof (bounds1 data Hmax) as Hb. pose proof (length_F1A data Hmax) as LA.
  pose proof (length_F1B data Hmax) as LB.
  pose proof (length_F1X data Hmax) as LX.
  pose proof Hwf as (Ho & Hn & Hc).
  rewrite (len_1A data Hmax) in Hl.
  destruct (arr_cut z (bl + 4) Hwf ltac:(lia))
    as (pre & old & post & Harr & Hpre & Hold & Epre & Epost).
  unfold V1.Decode. cbv zeta.
  rewrite Hl, (len_1A data Hmax), (len_1X data Hmax), Z.eqb_refl.
  cbn [negb andb].
  rewrite Hz, (validate1_A data Hmax), (validate1_X data).
  cbn [bind negb andb].
  destruct (frame1_of FA) as [Ea Ba]; [lia|].
  destruct (frame1_of FX) as [Ex Bx]; [lia|].
  unfold block1A at 1, block1X at 1. rewrite Ea, Ex. cbn [bind].
  rewrite reslice_ok by (unfold cap; lia). cbn [bind].
  rewrite Ba, Bx. rewrite Z.add_0_r.
  replace (bl + 8 - 4 - 0) with (bl + 4) by lia.
  rewrite (bytes_mid (arr z) pre old post (off z) (bl + 4) Harr Hpre Hold).
  rewrite V1_xor_loop by lia. cbn [bind].
  rewrite (rebuild1_B data Hmax).
  unfold fill. cbn [arr off len]. rewrite Harr.
  rewrite store_mid by lia.
  rewrite reslice_ok by (unfold cap; cbn [arr off]; lens).
  cbn [bind arr off len].
  rewrite (bytes_mid _ pre (be32 bl) (payloadB data ++ zeros (bl - bl) ++ post));
    [|rewrite frame1B_eq; flat|lia|lens].
  rewrite buint32_be32 by lia.
  rewrite (wrap_4a data Hmax), (wrap_4n data Hmax).
  destruct (payload1_A data Hmax [] (be32 (V1.ChecksumIEEE FA)) 0 (bl + 4))
    as (sa & Esa & _ & Wa & Bsa); [reflexivity|lia|lia|lens|].
  cbn [app] in Esa. fold (seal1 FA) in Esa. rewrite Esa. cbn [bind].
  destruct (payload1_B data Hmax pre post (off z) (bl + 4))
    as (sb & Eb' & Sb & Wb & Bb'); [lia|lia|lia|lens|].
  rewrite Eb'. cbn [bind].
  eexists. rewrite bytes_append, Bsa, Bb' by exact Wa. reflexivity.
Qed.

End Decoded1.



(** The first version tells the blocks apart by their position: with
    blocks B and A of [Encode] given as first and second argument, it
    returns no error and the two halves of the payload swapped. *)
Theorem V1_Decode_positional (p : list byte) (x' : slice) :
  zlen p < 2 ^ 32 -> zlen p mod 4 = 0 \/ zlen p mod 4 = 3 ->
  V1.Encode p = Returns (block1A p, block1B p, block1X p) /\
  exists arrB',
    V1.Decode (block1B p) (block1A p) x'
    = Returns (Some (List.from (half p) p ++ List.upto (half p) p), None,
               (arrB', arr (block1A p), arr x')).
Proof.
  intros Hmax Hm. split; [apply V1_Encode_blocks, Hmax|].
  destruct (V1_Decode_BA p Hmax x') as (arrB' & E). exists arrB'.
  rewrite E, payloadA_prefix, payloadB_by_length.
  destruct (Z.eqb_spec (zlen p mod 4) 1); [lia|].
  destruct (Z.eqb_spec (zlen p mod 4) 2); [lia|]. reflexivity.
Qed.

(** An instance: "ABCD" comes back as "CDAB". *)
Lemma V1_Decode_positional_ABCD :
  V1.Encode ABCD = Returns (block1A ABCD, block1B ABCD, block1X ABCD) /\
  exists arrB',
    V1.Decode (block1B ABCD) (block1A ABCD) (block1X ABCD)
    = Returns (Some (List.from (half ABCD) ABCD ++ List.upto (half ABCD) ABCD),
               None, (arrB', arr (block1A ABCD), arr (block1X ABCD))).
Proof.
  apply (V1_Decode_positional ABCD (block1X ABCD)).
  - cbn. lia.
  - left. reflexivity.
Defined.

(** Block A lost, in the first version: for a payload that [Encode]
    frames whole, with any buffer of the block length that fails
    validation in place of block A, [Decode] returns the payload and no
    error, leaves blocks B and X as they were, and has written into the
    bad buffer: it keeps its length and now starts with the length
    field and the payload of block A. *)
Theorem V1_Decode_rebuilds_A (p : list byte) (z : slice) :
  zlen p < 2 ^ 32 -> zlen p mod 4 = 0 \/ zlen p mod 4 = 3 ->
  wf z -> V1.validate z = Returns (0, false) -> len z = len (block1A p) ->
  V1.Encode p = Returns (block1A p, block1B p, block1X p) /\
  exists arrZ',
    V1.Decode z (block1B p) (block1X p)
    = Returns (Some p, None, (arrZ', arr (block1B p), arr (block1X p))) /\
    length arrZ' = length (arr z) /\
    List.upto (off z + (4 + half p)) arrZ'
    = List.upto (off z) (arr z) ++ be32 (half p) ++ List.upto (half p) p.
Proof.
  intros Hmax Hm Hwf Hz Hl. split; [apply V1_Encode_blocks, Hmax|].
  destruct (V1_Decode_zBX p Hmax z Hwf Hz Hl) as (arrZ' & E & L & U).
  exists arrZ'.
  rewrite E, carried_exact by (apply room_exact, Hm).
  rewrite U, payloadA_prefix. repeat split. exact L.
Qed.

(** An instance: ten zero bytes in place of block A of "ABCD". *)
Lemma V1_Decode_rebuilds_A_ABCD :
  V1.Encode ABCD = Returns (block1A ABCD, block1B ABCD, block1X ABCD) /\
  exists arrZ',
    V1.Decode (of_bytes (zeros 10)) (block1B ABCD) (block1X ABCD)
    = Returns (Some ABCD, None,
               (arrZ', arr (block1B ABCD), arr (block1X ABCD))) /\
    length arrZ' = length (arr (of_bytes (zeros 10))) /\
    List.upto (off (of_bytes (zeros 10)) + (4 + half ABCD)) arrZ'
    = List.upto (off (of_bytes (zeros 10))) (arr (of_bytes (zeros 10)))
      ++ be32 (half ABCD) ++ List.upto (half ABCD) ABCD.
Proof.
  apply (V1_Decode_rebuilds_A ABCD (of_bytes (zeros 10))).
  - cbn. lia.
  - left. reflexivity.
  - apply wf_of_bytes.
  - vm_compute. reflexivity.
  - vm_compute. reflexivity.
Defined.

(** Block B lost, in the first version: for a payload that [Encode]
    frames whole, with any buffer of the block length that fails
    validation in place of block B, [Decode] returns the payload and no
    error, leaves block X as it was, and has overwritten the bad buffer,
    up to its checksum field, with the length field and the payload of
    block B. *)
Theorem V1_Decode_rebuilds_B (p : list byte) (z : slice) :
  zlen p < 2 ^ 32 -> zlen p mod 4 = 0 \/ zlen p mod 4 = 3 ->
  wf z -> V1.validate z = Returns (0, false) -> len z = len (block1A p) ->
  V1.Encode p = Returns (block1A p, block1B p, block1X p) /\
  exists arrA',
    V1.Decode (block1A p) z (block1X p)
    = Returns (Some p, None,
               (arrA',
                store (arr z) (off z)
                  (be32 (zlen p - half p) ++ List.from (half p) p),
                arr (block1X p))).
Proof.
  intros Hmax Hm Hwf Hz Hl. split; [apply V1_Encode_blocks, Hmax|].
  destruct (V1_Decode_AzX p Hmax z Hwf Hz Hl) as (arrA' & E).
  exists arrA'.
  rewrite E, carried_exact by (apply room_exact, Hm).
  rewrite (frame1B_eq p), payloadB_by_length, (room_exact p Hm).
  destruct (Z.eqb_spec (zlen p mod 4) 1); [lia|].
  destruct (Z.eqb_spec (zlen p mod 4) 2); [lia|].
  rewrite Z.sub_diag. change (zeros 0) with (@nil byte).
  rewrite app_nil_r. reflexivity.
Qed.

(** An instance: ten zero bytes in place of block B of "ABCD". *)
Lemma V1_Decode_rebuilds_B_ABCD :
  V1.Encode ABCD = Returns (block1A ABCD, block1B ABCD, block1X ABCD) /\
  exists arrA',
    V1.Decode (block1A ABCD) (of_bytes (zeros 10)) (block1X ABCD)
    = Returns (Some ABCD, None,
               (arrA',
                store (arr (of_bytes (zeros 10))) (off (of_bytes (zeros 10)))
                  (be32 (zlen ABCD - half ABCD) ++ List.from (half ABCD) ABCD),
                arr (block1X ABCD))).
Proof.
  apply (V1_Decode_rebuilds_B ABCD (of_bytes (zeros 10))).
  - cbn. lia.
  - left. reflexivity.
  - apply wf_of_bytes.
  - vm_compute. reflexivity.
  - vm_compute. reflexivity.
Defined.
